(** * Protocol Buffers dissector (epan/dissectors/packet-protobuf.c)

    A shallow embedding of the decoding pipeline of the dissector: the
    zig-zag decoders, the value renderer, the packed-repeated expander, the
    field decoder and the message decoder, together with the properties of
    the design document that concern them; then the entry point of the
    dissector, the loader of the schema files of a directory and the
    function that applies the preferences.

    C integers are integers of [Z] with their wrap-around written out.  The
    captured buffer ([tvbuff_t]) is a list of bytes.  The protocol tree is
    write-only for the dissector, so it is the trace of the calls made on the
    tree API, in program order; a call returns its result together with the
    calls it made.  The items that carry a value computed by the dissector
    do not read the buffer; the items of bytes and of strings, and the
    fixed-width reads, do, and a read outside the buffer unwinds the
    dissection.  The loops and the recursion into nested messages are bounded
    by a number of steps, and the bounds are shown never to be reached. *)

From Stdlib Require Import ZArith List Bool Lia String Ascii.
Import ListNotations.
Local Open Scope Z_scope.

(** ** Machine integers *)

Module CInt.

(** Conversion to an unsigned integer of [w] bits. *)
Definition wrapu (w : Z) (z : Z) : Z := z mod 2 ^ w.

(** Conversion to a signed (two's complement) integer of [w] bits. *)
Definition wraps (w : Z) (z : Z) : Z :=
  (z + 2 ^ (w - 1)) mod 2 ^ w - 2 ^ (w - 1).

Definition guint (z : Z) : Z := wrapu 32 z.
Definition guint32 (z : Z) : Z := wrapu 32 z.
Definition guint64 (z : Z) : Z := wrapu 64 z.
Definition gint32 (z : Z) : Z := wraps 32 z.
Definition gint64 (z : Z) : Z := wraps 64 z.

End CInt.

Import CInt.

(** ** Zig-zag decoding *)

(** [sint32_decode]: [(sint32 >> 1) ^ ((gint32)sint32 << 31 >> 31)].  The
    right operand is computed on [gint32] (the left shift keeps the low 32
    bits, the right shift is arithmetic), is converted to [guint32] for the
    exclusive or, and the result is returned as a [gint32]. *)
Definition sint32_decode (sint32 : Z) : Z :=
  gint32 (Z.lxor (Z.shiftr sint32 1)
                 (guint32 (Z.shiftr (gint32 (Z.shiftl (gint32 sint32) 31)) 31))).

(** [sint64_decode]: [(sint64 >> 1) ^ ((gint64)sint64 << 63 >> 63)]. *)
Definition sint64_decode (sint64 : Z) : Z :=
  gint64 (Z.lxor (Z.shiftr sint64 1)
                 (guint64 (Z.shiftr (gint64 (Z.shiftl (gint64 sint64) 63)) 63))).

(** The encoders named in the comments of the decoders,
    [(n << 1) ^ (n >> 31)] and [(n << 1) ^ (n >> 63)], on a signed [n] with
    an arithmetic right shift, stored in the unsigned type the decoders
    take. *)
Definition sint32_encode (n : Z) : Z :=
  guint32 (Z.lxor (Z.shiftl n 1) (Z.shiftr n 31)).

Definition sint64_encode (n : Z) : Z :=
  guint64 (Z.lxor (Z.shiftl n 1) (Z.shiftr n 63)).

(** Both decoders, and both encoders, at a width [w]. *)
Definition zigzag_decode (w : Z) (x : Z) : Z :=
  wraps w (Z.lxor (Z.shiftr x 1)
                  (wrapu w (Z.shiftr (wraps w (Z.shiftl (wraps w x) (w - 1))) (w - 1)))).

Definition zigzag_encode (w : Z) (n : Z) : Z :=
  wrapu w (Z.lxor (Z.shiftl n 1) (Z.shiftr n (w - 1))).

(** ** The captured buffer *)

(** The bytes of the packet.  Offsets and lengths are [guint]. *)
Definition tvbuff_t := list Byte.byte.

Definition byte_val (b : Byte.byte) : Z := Z.of_N (Byte.to_N b).

Definition tvb_length (tvb : tvbuff_t) : Z := Z.of_nat (List.length tvb).

(** Modelled from the spec: the bounded reads of the byte range (the host's
    tvbuff API, which the sources do not include).  Section 3 of the design
    document: a byte range supports bounded reads, and an out-of-range read
    fails rather than wraps.  [None] is that failure. *)
Definition tvb_get_guint8 (tvb : tvbuff_t) (offset : Z) : option Z :=
  if 0 <=? offset then option_map byte_val (nth_error tvb (Z.to_nat offset))
  else None.

(** Modelled from the spec: [read_slice(range, at, n)] of section 4.1, the
    sub-range iff [at + n <= end(range)]. *)
Definition tvb_bytes (tvb : tvbuff_t) (offset length : Z) : option (list Byte.byte) :=
  if (0 <=? offset) && (0 <=? length) && (offset + length <=? tvb_length tvb)
  then Some (firstn (Z.to_nat length) (skipn (Z.to_nat offset) tvb))
  else None.

(** Modelled from the spec: the little-endian value of the bytes of a
    fixed-width read (section 4.1). *)
Fixpoint little_endian (bs : list Byte.byte) : Z :=
  match bs with
  | [] => 0
  | b :: rest => byte_val b + 256 * little_endian rest
  end.

(** Modelled from the spec: [read_fixed32] of section 4.1, little-endian,
    failing outside the buffer.  The dissector reads fixed-width values with
    [tvb_get_letohl] and [tvb_get_letoh64], and in the packed-repeated
    expander with [tvb_get_guint32] and [tvb_get_guint64] under
    [ENC_LITTLE_ENDIAN], which are the same reads. *)
Definition tvb_get_letohl (tvb : tvbuff_t) (offset : Z) : option Z :=
  option_map little_endian (tvb_bytes tvb offset 4).

(** Modelled from the spec: [read_fixed64] of section 4.1. *)
Definition tvb_get_letoh64 (tvb : tvbuff_t) (offset : Z) : option Z :=
  option_map little_endian (tvb_bytes tvb offset 8).

(** Modelled from the spec: a varint has at most ten bytes (section 4.1). *)
Definition FT_VARINT_MAX_LEN : nat := 10.

(** Modelled from the spec: the scan of [read_varint] (section 4.1), at byte
    [i] of the varint with [n] bytes still allowed.  The result is the length
    (0 when no varint is found) and the value accumulated so far, a 64-bit
    unsigned integer. *)
Fixpoint varint_scan (tvb : tvbuff_t) (offset maxlen : Z) (n : nat) (i : Z) (value : Z)
  : Z * Z :=
  match n with
  | O => (0, value)
  | S n' =>
      if i <? maxlen then
        match tvb_get_guint8 tvb (offset + i) with
        | None => (0, value)
        | Some b =>
            let value' := Z.lor value (guint64 (Z.shiftl (Z.land b 127) (i * 7))) in
            if b <? 128 then (i + 1, value')
            else varint_scan tvb offset maxlen n' (i + 1) value'
        end
      else (0, value)
  end.

(** Modelled from the spec: [read_varint] of section 4.1
    ([tvb_get_varint] with [ENC_VARINT_PROTOBUF], which the sources do not
    include).  At most ten bytes and at most [maxlen] bytes are read; each
    contributes its low seven bits, least significant group first; a byte
    with a cleared high bit ends the varint.  The length is 0 when the range
    ends, or ten bytes were read, before such a byte. *)
Definition tvb_get_varint (tvb : tvbuff_t) (offset maxlen : Z) : Z * Z :=
  varint_scan tvb offset maxlen FT_VARINT_MAX_LEN 0 0.

(** ** Wire types and declared field types *)

(** The wire types, with the numbers the comments of
    [protobuf_wire_to_field_type] give them. *)
Definition PROTOBUF_WIRETYPE_VARINT : Z := 0.
Definition PROTOBUF_WIRETYPE_FIXED64 : Z := 1.
Definition PROTOBUF_WIRETYPE_LENGTH_DELIMITED : Z := 2.
Definition PROTOBUF_WIRETYPE_START_GROUP : Z := 3.
Definition PROTOBUF_WIRETYPE_END_GROUP : Z := 4.
Definition PROTOBUF_WIRETYPE_FIXED32 : Z := 5.

(** Modelled from the spec: the declared field types of protobuf-helper.h
    (section 3: a closed enumeration, [NONE] the sentinel of an unknown
    type). *)
Inductive field_type : Set :=
  | PROTOBUF_TYPE_NONE
  | PROTOBUF_TYPE_DOUBLE
  | PROTOBUF_TYPE_FLOAT
  | PROTOBUF_TYPE_INT64
  | PROTOBUF_TYPE_UINT64
  | PROTOBUF_TYPE_INT32
  | PROTOBUF_TYPE_FIXED64
  | PROTOBUF_TYPE_FIXED32
  | PROTOBUF_TYPE_BOOL
  | PROTOBUF_TYPE_STRING
  | PROTOBUF_TYPE_GROUP
  | PROTOBUF_TYPE_MESSAGE
  | PROTOBUF_TYPE_BYTES
  | PROTOBUF_TYPE_UINT32
  | PROTOBUF_TYPE_ENUM
  | PROTOBUF_TYPE_SFIXED32
  | PROTOBUF_TYPE_SFIXED64
  | PROTOBUF_TYPE_SINT32
  | PROTOBUF_TYPE_SINT64.

Definition field_type_eqb (a b : field_type) : bool :=
  match a, b with
  | PROTOBUF_TYPE_NONE, PROTOBUF_TYPE_NONE
  | PROTOBUF_TYPE_DOUBLE, PROTOBUF_TYPE_DOUBLE
  | PROTOBUF_TYPE_FLOAT, PROTOBUF_TYPE_FLOAT
  | PROTOBUF_TYPE_INT64, PROTOBUF_TYPE_INT64
  | PROTOBUF_TYPE_UINT64, PROTOBUF_TYPE_UINT64
  | PROTOBUF_TYPE_INT32, PROTOBUF_TYPE_INT32
  | PROTOBUF_TYPE_FIXED64, PROTOBUF_TYPE_FIXED64
  | PROTOBUF_TYPE_FIXED32, PROTOBUF_TYPE_FIXED32
  | PROTOBUF_TYPE_BOOL, PROTOBUF_TYPE_BOOL
  | PROTOBUF_TYPE_STRING, PROTOBUF_TYPE_STRING
  | PROTOBUF_TYPE_GROUP, PROTOBUF_TYPE_GROUP
  | PROTOBUF_TYPE_MESSAGE, PROTOBUF_TYPE_MESSAGE
  | PROTOBUF_TYPE_BYTES, PROTOBUF_TYPE_BYTES
  | PROTOBUF_TYPE_UINT32, PROTOBUF_TYPE_UINT32
  | PROTOBUF_TYPE_ENUM, PROTOBUF_TYPE_ENUM
  | PROTOBUF_TYPE_SFIXED32, PROTOBUF_TYPE_SFIXED32
  | PROTOBUF_TYPE_SFIXED64, PROTOBUF_TYPE_SFIXED64
  | PROTOBUF_TYPE_SINT32, PROTOBUF_TYPE_SINT32
  | PROTOBUF_TYPE_SINT64, PROTOBUF_TYPE_SINT64 => true
  | _, _ => false
  end.

(** [protobuf_wire_to_field_type]: which field type each wire type could be.
    Every row ends with [PROTOBUF_TYPE_NONE]. *)
Definition protobuf_wire_to_field_type : list (list field_type) :=
  [ (* PROTOBUF_WIRETYPE_VARINT, 0 *)
    [ PROTOBUF_TYPE_INT32; PROTOBUF_TYPE_INT64; PROTOBUF_TYPE_UINT32; PROTOBUF_TYPE_UINT64;
      PROTOBUF_TYPE_SINT32; PROTOBUF_TYPE_SINT64; PROTOBUF_TYPE_BOOL; PROTOBUF_TYPE_ENUM;
      PROTOBUF_TYPE_NONE ];
    (* PROTOBUF_WIRETYPE_FIXED64, 1 *)
    [ PROTOBUF_TYPE_FIXED64; PROTOBUF_TYPE_SFIXED64; PROTOBUF_TYPE_DOUBLE;
      PROTOBUF_TYPE_NONE ];
    (* PROTOBUF_WIRETYPE_LENGTH_DELIMITED, 2 *)
    [ PROTOBUF_TYPE_STRING; PROTOBUF_TYPE_BYTES; PROTOBUF_TYPE_MESSAGE; PROTOBUF_TYPE_GROUP;
      PROTOBUF_TYPE_NONE ];
    (* PROTOBUF_WIRETYPE_START_GROUP, 3 *)
    [ PROTOBUF_TYPE_NONE ];
    (* PROTOBUF_WIRETYPE_END_GROUP, 4 *)
    [ PROTOBUF_TYPE_NONE ];
    (* PROTOBUF_WIRETYPE_FIXED32, 5 *)
    [ PROTOBUF_TYPE_FIXED32; PROTOBUF_TYPE_SINT32; PROTOBUF_TYPE_FLOAT;
      PROTOBUF_TYPE_NONE ] ].

(** The row [protobuf_wire_to_field_type[wire_type]]. *)
Definition wire_to_field_type_row (wire_type : Z) : list field_type :=
  nth (Z.to_nat wire_type) protobuf_wire_to_field_type [].

(** ** Preferences *)

Record preferences : Set := {
  try_dissect_as_string : bool;
  show_all_possible_field_types : bool;
  dissect_bytes_as_string : bool
}.

(** ** Schema view *)

(** Modelled from the spec: the descriptors of protobuf-helper.h, as the
    pure lookups of section 4.3.  A message descriptor is a handle into the
    pool; message types may refer to one another, and to themselves. *)
Definition PbwDescriptor := nat.

(** Modelled from the spec: an enum descriptor, the names of its values by
    number (section 4.3). *)
Record PbwEnumDescriptor : Set := {
  enum_values : list (Z * string)
}.

(** Modelled from the spec: the lookup of a number among the values of an
    enum. *)
Fixpoint pbw_EnumDescriptor_FindValueByNumber_in (vs : list (Z * string)) (number : Z)
  : option string :=
  match vs with
  | [] => None
  | (n, name) :: rest =>
      if n =? number then Some name
      else pbw_EnumDescriptor_FindValueByNumber_in rest number
  end.

(** Modelled from the spec: the name of the enum value of a number
    ([enum.find_value_by_number] followed by [enum_value.name] in section
    4.3; [pbw_EnumDescriptor_FindValueByNumber] followed by
    [pbw_EnumValueDescriptor_name] in the dissector). *)
Definition pbw_EnumDescriptor_FindValueByNumber (e : PbwEnumDescriptor) (number : Z)
  : option string :=
  pbw_EnumDescriptor_FindValueByNumber_in (enum_values e) number.

(** Modelled from the spec: a field descriptor, with the lookups of section
    4.3 that the dissector calls as [pbw_FieldDescriptor_name] and the
    like. *)
Record PbwFieldDescriptor : Set := {
  pbw_FieldDescriptor_name : string;
  pbw_FieldDescriptor_type : field_type;
  pbw_FieldDescriptor_is_repeated : bool;
  pbw_FieldDescriptor_is_packed : bool;
  pbw_FieldDescriptor_message_type : option PbwDescriptor;
  pbw_FieldDescriptor_enum_type : option PbwEnumDescriptor
}.

(** Modelled from the spec: the lookups on message descriptors
    ([descriptor.full_name] and [descriptor.find_field_by_number] of section
    4.3). *)
Record PbwDescriptorPool : Type := {
  pbw_Descriptor_full_name : PbwDescriptor -> string;
  pbw_Descriptor_FindFieldByNumber : PbwDescriptor -> Z -> option PbwFieldDescriptor
}.

(** ** The protocol tree, as the trace of the calls that build it *)

Inductive hf_index : Set :=
  | hf_protobuf_message_name
  | hf_protobuf_field_name
  | hf_protobuf_field_type
  | hf_protobuf_field_number
  | hf_protobuf_wire_type
  | hf_protobuf_value_length
  | hf_protobuf_value_data
  | hf_protobuf_value_double
  | hf_protobuf_value_float
  | hf_protobuf_value_int64
  | hf_protobuf_value_uint64
  | hf_protobuf_value_int32
  | hf_protobuf_value_uint32
  | hf_protobuf_value_bool
  | hf_protobuf_value_string
  | hf_protobuf_value_repeated.

Inductive ett_index : Set :=
  | ett_protobuf_message
  | ett_protobuf_field.

Inductive expert_field : Set :=
  | ei_protobuf_failed_parse_tag
  | ei_protobuf_failed_parse_length_delimited_field
  | ei_protobuf_failed_parse_field
  | ei_protobuf_wire_type_invalid
  | et_protobuf_message_type_not_found
  | et_protobuf_wire_type_not_support_packed_repeated
  | et_protobuf_failed_parse_packed_repeated_field.

(** The items of the field under dissection that diagnostics attach to. *)
Inductive item_ref : Set := ti_field | ti_wire.

(** What an item of the tree carries. *)
Inductive item_value : Set :=
  | ValBytes                       (* the bytes of the item's range, ENC_NA *)
  | ValUint (v : Z)
  | ValInt (v : Z)
  | ValDouble (bits : Z)           (* the 64 bits the double is read from *)
  | ValFloat (bits : Z)            (* the 32 bits the float is read from *)
  | ValBoolean (v : Z)
  | ValString (bytes : list Byte.byte)
  | ValText (s : string)
  | ValType (t : field_type).

(** The pieces of text appended to the label of an item. *)
Inductive label : Set :=
  | LblFieldNumber (n : Z)                       (* "(%u):" *)
  | LblFieldName (name : string) (equals : bool) (* " %s %s", with "=" or "" *)
  | LblOpen (prepend_text : string)              (* "%s [" *)
  | LblClose                                     (* "]" *)
  | LblValue (prepend_text : string) (v : item_value)
  | LblEnum (prepend_text : string) (name : string) (v : Z) (* "%s %s(%d)" *)
  | LblEnumName (name : string)                  (* " (%s)", on the leaf *)
  | LblDatatype (t : field_type)                 (* " (%s)", the declared type *)
  | LblMessage (name : string).                  (* ": %s" *)

Inductive event : Set :=
  | proto_tree_add_subtree (ett : ett_index) (start length : Z)
  | proto_tree_add (hf : hf_index) (start length : Z) (v : item_value)
  | proto_item_set_len (length : Z)
  | proto_item_append_text (l : label)
  | expert_add_info (on : item_ref) (ei : expert_field).

Definition trace := list event.

(** How a call ends: it returns, or a read outside the buffer unwinds it
    ([Throws]), or the bound put on the iterations of the model is reached
    ([Exhausted]; shown below never to happen with the bounds used). *)
Inductive outcome (A : Type) : Type :=
  | Returns (a : A)
  | Throws
  | Exhausted.

Arguments Returns {A} a.
Arguments Throws {A}.
Arguments Exhausted {A}.

(** store varint tvb info *)
Record protobuf_varint_tvb_info_t : Set := {
  info_offset : Z;
  info_length : Z;
  info_value : Z
}.

(** What the switch on the wire type of [dissect_one_protobuf_field] leaves. *)
Inductive wire_value : Set :=
  | WireValue (value_length value_length_size value_uint64 : Z)
  | WireFailed (on : item_ref) (ei : expert_field)
  | WireThrows.

Section Dissector.

Variable prefs : preferences.
Variable pbw_pool : PbwDescriptorPool.
Variable tvb : tvbuff_t.

(** The message decoder, as the value renderer calls it on a nested
    message. *)
Variable dissect_message : Z -> Z -> PbwDescriptor -> outcome unit * trace.

(** [protobuf_dissect_field_value]: dissect field value based on a
    specific type. *)
Definition protobuf_dissect_field_value (offset length : Z) (field_type : field_type)
    (value : Z) (prepend_text : string) (field_desc : option PbwFieldDescriptor)
  : outcome unit * trace :=
  let add_datatype := [proto_item_append_text (LblDatatype field_type)] in
  let leaf hf v :=
    (Returns tt,
     [proto_tree_add hf offset length v;
      proto_item_append_text (LblValue prepend_text v)] ++ add_datatype) in
  let as_string :=
    match tvb_bytes tvb offset length with
    | Some bytes => leaf hf_protobuf_value_string (ValString bytes)
    | None => (Throws, [])
    end in
  match field_type with
  | PROTOBUF_TYPE_DOUBLE => leaf hf_protobuf_value_double (ValDouble value)
  | PROTOBUF_TYPE_FLOAT => leaf hf_protobuf_value_float (ValFloat (guint32 value))
  | PROTOBUF_TYPE_INT64
  | PROTOBUF_TYPE_SFIXED64 => leaf hf_protobuf_value_int64 (ValInt (gint64 value))
  | PROTOBUF_TYPE_UINT64
  | PROTOBUF_TYPE_FIXED64 => leaf hf_protobuf_value_uint64 (ValUint value)
  | PROTOBUF_TYPE_INT32
  | PROTOBUF_TYPE_SFIXED32 => leaf hf_protobuf_value_int32 (ValInt (gint32 value))
  | PROTOBUF_TYPE_ENUM =>
      let int32_value := gint32 value in
      let enum_value_name :=
        match field_desc with
        | Some fd =>
            match pbw_FieldDescriptor_enum_type fd with
            | Some enum_desc => pbw_EnumDescriptor_FindValueByNumber enum_desc int32_value
            | None => None
            end
        | None => None
        end in
      let ti := proto_tree_add hf_protobuf_value_int32 offset length (ValInt int32_value) in
      match enum_value_name with
      | Some name =>
          (Returns tt,
           [ti; proto_item_append_text (LblEnum prepend_text name int32_value);
            proto_item_append_text (LblEnumName name)] ++ add_datatype)
      | None =>
          (Returns tt,
           [ti; proto_item_append_text (LblValue prepend_text (ValInt int32_value))]
             ++ add_datatype)
      end
  | PROTOBUF_TYPE_BOOL =>
      if 1 <? length then (Returns tt, add_datatype)
      else leaf hf_protobuf_value_bool (ValBoolean (guint32 value))
  | PROTOBUF_TYPE_BYTES =>
      if negb (dissect_bytes_as_string prefs) then (Returns tt, add_datatype)
      else as_string
  | PROTOBUF_TYPE_STRING => as_string
  | PROTOBUF_TYPE_GROUP
  | PROTOBUF_TYPE_MESSAGE =>
      match field_desc with
      | Some fd =>
          match pbw_FieldDescriptor_message_type fd with
          | Some sub_message_desc =>
              match dissect_message offset length sub_message_desc with
              | (Returns _, evs) => (Returns tt, evs ++ add_datatype)
              | (Throws, evs) => (Throws, evs)
              | (Exhausted, evs) => (Exhausted, evs)
              end
          | None =>
              (Returns tt,
               [expert_add_info ti_field et_protobuf_message_type_not_found]
                 ++ add_datatype)
          end
      | None => (Returns tt, add_datatype)
      end
  | PROTOBUF_TYPE_UINT32
  | PROTOBUF_TYPE_FIXED32 => leaf hf_protobuf_value_uint32 (ValUint (guint32 value))
  | PROTOBUF_TYPE_SINT32 =>
      leaf hf_protobuf_value_int32 (ValInt (sint32_decode (guint32 value)))
  | PROTOBUF_TYPE_SINT64 => leaf hf_protobuf_value_int64 (ValInt (sint64_decode value))
  | PROTOBUF_TYPE_NONE => (Returns tt, [])
  end.

(** The first loop of the varint case of
    [dissect_packed_repeated_field_values]: try to test all can be parsed
    as varint.  [Returns None] is the [return 0] of the loop. *)
Fixpoint packed_varint_scan (fuel : nat) (offset max_offset : Z)
  : outcome (option (list protobuf_varint_tvb_info_t)) :=
  match fuel with
  | O => Exhausted
  | S fuel' =>
      if offset <? max_offset then
        let '(sub_value_length, sub_value) :=
          tvb_get_varint tvb offset (guint (max_offset - offset)) in
        if sub_value_length =? 0 then Returns None
        else
          let info := {| info_offset := offset;
                         info_length := sub_value_length;
                         info_value := sub_value |} in
          match packed_varint_scan fuel' (guint (offset + sub_value_length)) max_offset with
          | Returns (Some varint_list) => Returns (Some (info :: varint_list))
          | r => r
          end
      else Returns (Some [])
  end.

(** The second loop: all parsed, add the varints into the packed-repeated
    subtree. *)
Fixpoint packed_varint_add (varint_list : list protobuf_varint_tvb_info_t)
    (field_type : field_type) (prepend_text : string)
    (field_desc : option PbwFieldDescriptor) : outcome unit * trace :=
  match varint_list with
  | [] => (Returns tt, [])
  | info :: rest =>
      match protobuf_dissect_field_value (info_offset info) (info_length info)
              field_type (info_value info) prepend_text field_desc with
      | (Returns _, evs) =>
          let '(r, evs') := packed_varint_add rest field_type "," field_desc in
          (r, evs ++ evs')
      | (r, evs) => (r, evs)
      end
  end.

(** The loop of the fixed-width case:
    [for (offset = start; offset < max_offset; offset += value_size)]. *)
Fixpoint packed_fixed_add (fuel : nat) (offset max_offset value_size wire_type : Z)
    (field_type : field_type) (prepend_text : string)
    (field_desc : option PbwFieldDescriptor) : outcome unit * trace :=
  match fuel with
  | O => (Exhausted, [])
  | S fuel' =>
      if offset <? max_offset then
        match (if wire_type =? PROTOBUF_WIRETYPE_FIXED32
               then tvb_get_letohl tvb offset
               else tvb_get_letoh64 tvb offset) with
        | None => (Throws, [])
        | Some value =>
            match protobuf_dissect_field_value offset value_size field_type value
                    prepend_text field_desc with
            | (Returns _, evs) =>
                let '(r, evs') :=
                  packed_fixed_add fuel' (guint (offset + value_size)) max_offset
                    value_size wire_type field_type "," field_desc in
                (r, evs ++ evs')
            | (r, evs) => (r, evs)
            end
        end
      else (Returns tt, [])
  end.

(** The calls that prepare the subtree of a packed repeated field. *)
Definition packed_subtree (start length : Z) (prepend_text : string) : trace :=
  [proto_item_append_text (LblOpen prepend_text);
   proto_tree_add hf_protobuf_value_repeated start length ValBytes].

(** The end of [dissect_packed_repeated_field_values] after the values are
    added: the label is closed and [length] is returned. *)
Definition packed_finish (subtree : trace) (length : Z) (r : outcome unit * trace)
  : outcome Z * trace :=
  match r with
  | (Returns _, evs) =>
      (Returns length, subtree ++ evs ++ [proto_item_append_text LblClose])
  | (Throws, evs) => (Throws, subtree ++ evs)
  | (Exhausted, evs) => (Exhausted, subtree ++ evs)
  end.

(** The case of the 64-bit encoded types ([value_size] 8) and of the 32-bit
    encoded types ([value_size] 4), which is one block of the switch. *)
Definition dissect_packed_fixed (subtree : trace) (start length max_offset : Z)
    (value_size wire_type : Z) (field_type : field_type)
    (field_desc : option PbwFieldDescriptor) : outcome Z * trace :=
  if negb (length mod value_size =? 0) then
    (Returns 0,
     subtree ++ [expert_add_info ti_field et_protobuf_failed_parse_packed_repeated_field])
  else
    packed_finish subtree length
      (packed_fixed_add (S (Z.to_nat length)) start max_offset value_size
         wire_type field_type "" field_desc).

(** The case of the varint encoded types. *)
Definition dissect_packed_varint (subtree : trace) (start length max_offset : Z)
    (field_type : field_type) (field_desc : option PbwFieldDescriptor)
  : outcome Z * trace :=
  match packed_varint_scan (S (Z.to_nat length)) start max_offset with
  | Returns None => (Returns 0, subtree) (* not a valid packed repeated field *)
  | Returns (Some varint_list) =>
      packed_finish subtree length
        (packed_varint_add varint_list field_type "" field_desc)
  | Throws => (Throws, subtree)
  | Exhausted => (Exhausted, subtree)
  end.

(** [dissect_packed_repeated_field_values]: returns the consumed bytes
    (0 when the values are not dissected). *)
Definition dissect_packed_repeated_field_values (start length : Z) (wire_type : Z)
    (field_type : field_type) (prepend_text : string)
    (field_desc : option PbwFieldDescriptor) : outcome Z * trace :=
  let offset := start in
  let max_offset := guint (offset + length) in
  (* prepare subtree *)
  match tvb_bytes tvb start length with
  | None => (Throws, [proto_item_append_text (LblOpen prepend_text)])
  | Some _ =>
      let subtree := packed_subtree start length prepend_text in
      match field_type with
      (* packed for Varint encoded types *)
      | PROTOBUF_TYPE_INT32
      | PROTOBUF_TYPE_INT64
      | PROTOBUF_TYPE_UINT32
      | PROTOBUF_TYPE_UINT64
      | PROTOBUF_TYPE_SINT32
      | PROTOBUF_TYPE_SINT64
      | PROTOBUF_TYPE_BOOL
      | PROTOBUF_TYPE_ENUM =>
          dissect_packed_varint subtree offset length max_offset field_type field_desc
      (* packed for 64-bit encoded types and 32-bit encoded types *)
      | PROTOBUF_TYPE_FIXED64
      | PROTOBUF_TYPE_SFIXED64
      | PROTOBUF_TYPE_DOUBLE =>
          dissect_packed_fixed subtree offset length max_offset 8 wire_type
            field_type field_desc
      | PROTOBUF_TYPE_FIXED32
      | PROTOBUF_TYPE_SFIXED32
      | PROTOBUF_TYPE_FLOAT =>
          dissect_packed_fixed subtree offset length max_offset 4 wire_type
            field_type field_desc
      | _ =>
          (Returns 0,
           subtree ++
             [expert_add_info ti_field et_protobuf_wire_type_not_support_packed_repeated])
      end
  end.

(** [protobuf_try_dissect_field_value_on_multi_types]: add all possible
    values according to field types, up to the first [PROTOBUF_TYPE_NONE]. *)
Fixpoint protobuf_try_dissect_field_value_on_multi_types (offset length : Z)
    (field_types : list field_type) (value : Z) (prepend_text : string)
  : outcome unit * trace :=
  match field_types with
  | [] => (Returns tt, [])
  | PROTOBUF_TYPE_NONE :: _ => (Returns tt, [])
  | t :: rest =>
      match protobuf_dissect_field_value offset length t value prepend_text None with
      | (Returns _, evs) =>
          let '(r, evs') :=
            protobuf_try_dissect_field_value_on_multi_types offset length rest value "," in
          (r, evs ++ evs')
      | (r, evs) => (r, evs)
      end
  end.

(** The switch of [dissect_one_protobuf_field] on the wire type: determine
    value_length, the uint of a numeric value and maybe value_length_size.
    [offset] is the cursor after the tag, [maxlen] what is left of the
    field's bound after the tag. *)
Definition read_wire_value (wire_type offset maxlen : Z) : wire_value :=
  if wire_type =? PROTOBUF_WIRETYPE_VARINT then
    let '(value_length, value_uint64) := tvb_get_varint tvb offset maxlen in
    if value_length =? 0 then WireFailed ti_wire ei_protobuf_failed_parse_field
    else WireValue value_length 0 value_uint64
  else if wire_type =? PROTOBUF_WIRETYPE_FIXED64 then
    match tvb_get_letoh64 tvb offset with
    | Some value_uint64 => WireValue 8 0 value_uint64
    | None => WireThrows
    end
  else if wire_type =? PROTOBUF_WIRETYPE_FIXED32 then
    match tvb_get_letohl tvb offset with
    | Some value_uint64 => WireValue 4 0 value_uint64
    | None => WireThrows
    end
  else if wire_type =? PROTOBUF_WIRETYPE_LENGTH_DELIMITED then
    let '(value_length_size, value_uint64) := tvb_get_varint tvb offset maxlen in
    if value_length_size =? 0
    then WireFailed ti_field ei_protobuf_failed_parse_length_delimited_field
    else
      (* we believe the length of following value will not be bigger than guint *)
      WireValue (guint value_uint64) value_length_size value_uint64
  else WireFailed ti_wire ei_protobuf_wire_type_invalid.

(** The type an unknown field is shown with when not every possible type
    is shown. *)
Definition fallback_field_type (wire_type value_uint64 : Z) : field_type :=
  if wire_type =? PROTOBUF_WIRETYPE_LENGTH_DELIMITED then
    (* print string at least for length-delimited *)
    (if try_dissect_as_string prefs then PROTOBUF_TYPE_STRING else PROTOBUF_TYPE_NONE)
  else
    (* use uint32 or uint64 *)
    (if value_uint64 <=? 4294967295 then PROTOBUF_TYPE_UINT32 else PROTOBUF_TYPE_UINT64).

(** The end of [dissect_one_protobuf_field]: the value is dissected by the
    packed-repeated expander, by the value renderer under the declared
    type, or under the types the wire type allows. *)
Definition dissect_field_value_by_desc (field_desc : option PbwFieldDescriptor)
    (offset value_length wire_type value_uint64 : Z) : outcome unit * trace :=
  match field_desc with
  | Some fd =>
      let field_type := pbw_FieldDescriptor_type fd in
      let is_packed_repeated :=
        pbw_FieldDescriptor_is_packed fd && pbw_FieldDescriptor_is_repeated fd in
      if is_packed_repeated then
        match dissect_packed_repeated_field_values offset value_length wire_type
                field_type "" field_desc with
        | (Returns _, evs) => (Returns tt, evs)
        | (Throws, evs) => (Throws, evs)
        | (Exhausted, evs) => (Exhausted, evs)
        end
      else
        protobuf_dissect_field_value offset value_length field_type value_uint64 ""
          field_desc
  | None =>
      if show_all_possible_field_types prefs then
        (* try dissect every possible field type *)
        protobuf_try_dissect_field_value_on_multi_types offset value_length
          (wire_to_field_type_row wire_type) value_uint64 ""
      else
        let field_type := fallback_field_type wire_type value_uint64 in
        protobuf_try_dissect_field_value_on_multi_types offset value_length
          [field_type; PROTOBUF_TYPE_NONE] value_uint64 ""
  end.

(** Try to find field_info first: the field descriptor according to the
    field number, from the message descriptor.  The number is passed as an
    [int]. *)
Definition find_field_desc (message_desc : option PbwDescriptor) (field_number : Z)
  : option PbwFieldDescriptor :=
  match message_desc with
  | Some desc => pbw_Descriptor_FindFieldByNumber pbw_pool desc (gint32 field_number)
  | None => None
  end.

(** The calls [dissect_one_protobuf_field] makes on the tree from its entry
    to the switch on the wire type, when the tag is parsed: the field
    subtree, the field number and the wire type, and the generated items of
    the field name and the field type.  [offset] is the cursor at entry.
    The item of the field type is added when [field_type > 0], which every
    declared type but the sentinel [PROTOBUF_TYPE_NONE] is. *)
Definition field_header (offset tag_length tag_value : Z)
    (field_desc : option PbwFieldDescriptor) : trace :=
  let field_number := Z.shiftr tag_value 3 in
  let wire_type := Z.land tag_value 7 in
  let offset1 := guint (offset + tag_length) in
  [proto_tree_add_subtree ett_protobuf_field offset 0;
   proto_tree_add hf_protobuf_field_number offset tag_length (ValUint field_number);
   proto_tree_add hf_protobuf_wire_type offset 1 (ValUint wire_type);
   proto_item_append_text (LblFieldNumber field_number)]
  ++
  (* support filtering with field name *)
  match field_desc with
  | Some fd =>
      let field_name := pbw_FieldDescriptor_name fd in
      let field_type := pbw_FieldDescriptor_type fd in
      [proto_tree_add hf_protobuf_field_name offset1 1 (ValText field_name);
       proto_item_append_text
         (LblFieldName field_name
            (negb (field_type_eqb field_type PROTOBUF_TYPE_MESSAGE
                   || field_type_eqb field_type PROTOBUF_TYPE_GROUP
                   || (field_type_eqb field_type PROTOBUF_TYPE_BYTES
                       && negb (dissect_bytes_as_string prefs)))))]
        ++ (if field_type_eqb field_type PROTOBUF_TYPE_NONE then []
            else [proto_tree_add hf_protobuf_field_type offset1 1 (ValType field_type)])
  | None =>
      [proto_tree_add hf_protobuf_field_name offset1 1 (ValText "<UNKNOWN>")]
  end.

(** [dissect_one_protobuf_field]: the result of the call, the cursor
    [*offset] it leaves, and the calls made on the tree.  The three calls of
    [proto_item_set_len] set the same length and are one event. *)
Definition dissect_one_protobuf_field (offset maxlen : Z)
    (message_desc : option PbwDescriptor) : outcome bool * Z * trace :=
  (* parsing Tag *)
  let '(tag_length, tag_value) := tvb_get_varint tvb offset maxlen in
  if tag_length =? 0 then
    (* not found a valid varint *)
    (Returns false, offset,
     [proto_tree_add_subtree ett_protobuf_field offset 0;
      expert_add_info ti_field ei_protobuf_failed_parse_tag])
  else
    let field_number := Z.shiftr tag_value 3 in
    let wire_type := Z.land tag_value 7 in
    let offset1 := guint (offset + tag_length) in
    let field_desc := find_field_desc message_desc field_number in
    let head := field_header offset tag_length tag_value field_desc in
    match read_wire_value wire_type offset1 (guint (maxlen - tag_length)) with
    | WireFailed on ei => (Returns false, offset1, head ++ [expert_add_info on ei])
    | WireThrows => (Throws, offset1, head)
    | WireValue value_length value_length_size value_uint64 =>
        let length_items :=
          if wire_type =? PROTOBUF_WIRETYPE_LENGTH_DELIMITED
          then [proto_tree_add hf_protobuf_value_length offset1 value_length_size
                  (ValUint value_uint64)]
          else [] in
        let offset2 := guint (offset1 + value_length_size) in
        let set_len :=
          [proto_item_set_len (guint (tag_length + value_length_size + value_length))] in
        (* add value as bytes first *)
        match tvb_bytes tvb offset2 value_length with
        | None => (Throws, offset2, head ++ length_items ++ set_len)
        | Some _ =>
            let ti_value :=
              [proto_tree_add hf_protobuf_value_data offset2 value_length ValBytes] in
            let before := head ++ length_items ++ set_len ++ ti_value in
            match dissect_field_value_by_desc field_desc offset2 value_length wire_type
                    value_uint64 with
            | (Returns _, evs) =>
                (Returns true, guint (offset2 + value_length), before ++ evs)
            | (Throws, evs) => (Throws, offset2, before ++ evs)
            | (Exhausted, evs) => (Exhausted, offset2, before ++ evs)
            end
        end
    end.

(** The loop of [dissect_protobuf_message]: each time one protobuf field is
    dissected, until the cursor reaches [max_offset] or a field fails. *)
Fixpoint dissect_protobuf_fields (fuel : nat) (offset max_offset : Z)
    (message_desc : option PbwDescriptor) : outcome unit * trace :=
  match fuel with
  | O => (Exhausted, [])
  | S fuel' =>
      if offset <? max_offset then
        match dissect_one_protobuf_field offset (guint (max_offset - offset))
                message_desc with
        | (Returns true, offset', evs) =>
            let '(r, evs') :=
              dissect_protobuf_fields fuel' offset' max_offset message_desc in
            (r, evs ++ evs')
        | (Returns false, _, evs) => (Returns tt, evs)
        | (Throws, _, evs) => (Throws, evs)
        | (Exhausted, _, evs) => (Exhausted, evs)
        end
      else (Returns tt, [])
  end.

End Dissector.

Definition UNKNOWN_message_type : string := "<UNKNOWN> Message Type".

(** The calls [dissect_protobuf_message] makes on the tree before its loop:
    the "Message" subtree, labelled with the full name of the message, and
    the generated item of the name. *)
Definition message_header (pbw_pool : PbwDescriptorPool) (offset length : Z)
    (message_desc : option PbwDescriptor) : trace :=
  let message_name :=
    match message_desc with
    | Some desc => pbw_Descriptor_full_name pbw_pool desc
    | None => UNKNOWN_message_type
    end in
  [proto_tree_add_subtree ett_protobuf_message offset length;
   proto_item_append_text (LblMessage message_name);
   (* support filtering with message name *)
   proto_tree_add hf_protobuf_message_name offset length (ValText message_name)].

(** [dissect_protobuf_message].  [fuel] bounds the depth of the nested
    messages and the number of fields of one message. *)
Fixpoint dissect_protobuf_message (prefs : preferences) (pbw_pool : PbwDescriptorPool)
    (tvb : tvbuff_t) (fuel : nat) (offset length : Z)
    (message_desc : option PbwDescriptor) : outcome unit * trace :=
  match fuel with
  | O => (Exhausted, [])
  | S fuel' =>
      let max_offset := guint (offset + length) in
      let '(r, evs) :=
        dissect_protobuf_fields prefs pbw_pool tvb
          (fun o l d => dissect_protobuf_message prefs pbw_pool tvb fuel' o l (Some d))
          (S fuel') offset max_offset message_desc in
      (r, message_header pbw_pool offset length message_desc ++ evs)
  end.

(** The bound that is enough for a buffer: one more than its length. *)
Definition enough_fuel (tvb : tvbuff_t) : nat := S (List.length tvb).

(** ** Reading a trace *)

(** The declared types a value is shown under: the types named in the
    label, in order. *)
Definition datatypes (evs : trace) : list field_type :=
  flat_map (fun e => match e with
                     | proto_item_append_text (LblDatatype t) => [t]
                     | _ => []
                     end) evs.

(** The diagnostics attached. *)
Definition experts (evs : trace) : list expert_field :=
  flat_map (fun e => match e with
                     | expert_add_info _ ei => [ei]
                     | _ => []
                     end) evs.

(** The typed leaves of values. *)
Definition is_value_leaf (e : event) : bool :=
  match e with
  | proto_tree_add hf _ _ _ =>
      match hf with
      | hf_protobuf_value_double | hf_protobuf_value_float
      | hf_protobuf_value_int64 | hf_protobuf_value_uint64
      | hf_protobuf_value_int32 | hf_protobuf_value_uint32
      | hf_protobuf_value_bool | hf_protobuf_value_string => true
      | _ => false
      end
  | _ => false
  end.

Definition value_leaves (evs : trace) : trace := filter is_value_leaf evs.

(** The ranges of the "Repeated" subtrees, which only the packed-repeated
    expander adds. *)
Definition repeated_ranges (evs : trace) : list (Z * Z) :=
  flat_map (fun e => match e with
                     | proto_tree_add hf_protobuf_value_repeated s l _ => [(s, l)]
                     | _ => []
                     end) evs.

(** The ranges of the "Message" subtrees: the ranges the message decoder
    was called on. *)
Definition message_ranges (evs : trace) : list (Z * Z) :=
  flat_map (fun e => match e with
                     | proto_tree_add_subtree ett_protobuf_message s l => [(s, l)]
                     | _ => []
                     end) evs.

(** Every "Message" subtree of a trace starts at [o] or later and ends inside
    the buffer. *)
Definition message_event_in (tvb : tvbuff_t) (o : Z) (e : event) : Prop :=
  match e with
  | proto_tree_add_subtree ett_protobuf_message start length =>
      o <= start /\ 0 <= length /\ start + length <= tvb_length tvb
  | _ => True
  end.

Definition messages_in (tvb : tvbuff_t) (o : Z) (evs : trace) : Prop :=
  Forall (message_event_in tvb o) evs.

(** A result that is not cut by the bound of the model and whose "Message"
    subtrees start at [o] or later, inside the buffer. *)
Definition well_nested (tvb : tvbuff_t) (o : Z) (res : outcome unit * trace) : Prop :=
  fst res <> Exhausted /\ messages_in tvb o (snd res).


(** The run of the loop of the message decoder over [[offset, max_offset)],
    as a relation: the fields are decoded one after the other, each from the
    cursor the one before left, strictly later; the run ends when the cursor
    reaches [max_offset], at the first field that returns false, or at a
    read outside the buffer; the trace is those of the fields, in order. *)
Inductive decoded_fields (dissect_one : Z -> Z -> outcome bool * Z * trace)
    (max_offset : Z) : Z -> outcome unit -> trace -> Prop :=
  | fields_end offset :
      max_offset <= offset ->
      decoded_fields dissect_one max_offset offset (Returns tt) []
  | fields_halt offset offset' evs :
      offset < max_offset ->
      dissect_one offset (guint (max_offset - offset)) = (Returns false, offset', evs) ->
      decoded_fields dissect_one max_offset offset (Returns tt) evs
  | fields_thrown offset offset' evs :
      offset < max_offset ->
      dissect_one offset (guint (max_offset - offset)) = (Throws, offset', evs) ->
      decoded_fields dissect_one max_offset offset Throws evs
  | fields_next offset offset' evs r evs' :
      offset < max_offset ->
      dissect_one offset (guint (max_offset - offset)) = (Returns true, offset', evs) ->
      offset + 1 <= offset' ->
      decoded_fields dissect_one max_offset offset' r evs' ->
      decoded_fields dissect_one max_offset offset r (evs ++ evs').




(** The declared types that are packed as varints, and as fixed-width
    values with their stride. *)
Definition varint_packable : list field_type :=
  [PROTOBUF_TYPE_INT32; PROTOBUF_TYPE_INT64; PROTOBUF_TYPE_UINT32; PROTOBUF_TYPE_UINT64;
   PROTOBUF_TYPE_SINT32; PROTOBUF_TYPE_SINT64; PROTOBUF_TYPE_BOOL; PROTOBUF_TYPE_ENUM].

Definition fixed_stride (t : field_type) : option Z :=
  match t with
  | PROTOBUF_TYPE_FIXED64 | PROTOBUF_TYPE_SFIXED64 | PROTOBUF_TYPE_DOUBLE => Some 8
  | PROTOBUF_TYPE_FIXED32 | PROTOBUF_TYPE_SFIXED32 | PROTOBUF_TYPE_FLOAT => Some 4
  | _ => None
  end.

(** ** Fixtures of the examples *)

Module Fixtures.

Import Byte.

Definition prefs_default : preferences :=
  {| try_dissect_as_string := false;
     show_all_possible_field_types := false;
     dissect_bytes_as_string := false |}.

Definition prefs_show_all : preferences :=
  {| try_dissect_as_string := false;
     show_all_possible_field_types := true;
     dissect_bytes_as_string := false |}.

Definition field (name : string) (t : field_type) (repeated packed : bool)
    (message_type : option PbwDescriptor) : PbwFieldDescriptor :=
  {| pbw_FieldDescriptor_name := name;
     pbw_FieldDescriptor_type := t;
     pbw_FieldDescriptor_is_repeated := repeated;
     pbw_FieldDescriptor_is_packed := packed;
     pbw_FieldDescriptor_message_type := message_type;
     pbw_FieldDescriptor_enum_type := None |}.

(** A pool with the one message type
    [message M { int32 a = 1; M m = 3; repeated int32 v = 4 [packed=true];
                 repeated fixed32 w = 5 [packed=true]; }]. *)
Definition pool_M : PbwDescriptorPool :=
  {| pbw_Descriptor_full_name := fun _ => "M"%string;
     pbw_Descriptor_FindFieldByNumber := fun _ number =>
       if number =? 1 then Some (field "a" PROTOBUF_TYPE_INT32 false false None)
       else if number =? 3 then Some (field "m" PROTOBUF_TYPE_MESSAGE false false (Some 0%nat))
       else if number =? 4 then Some (field "v" PROTOBUF_TYPE_INT32 true true None)
       else if number =? 5 then Some (field "w" PROTOBUF_TYPE_FIXED32 true true None)
       else None |}.

Definition M : PbwDescriptor := 0%nat.

(** The message decoder, as the decoder of nested messages. *)
Definition nested (prefs : preferences) (pool : PbwDescriptorPool) (tvb : tvbuff_t)
  : Z -> Z -> PbwDescriptor -> outcome unit * trace :=
  fun o l d => dissect_protobuf_message prefs pool tvb (enough_fuel tvb) o l (Some d).

(** The field decoder with it. *)
Definition dissect_field (prefs : preferences) (pool : PbwDescriptorPool) (tvb : tvbuff_t)
    (offset maxlen : Z) (message_desc : option PbwDescriptor) : outcome bool * Z * trace :=
  dissect_one_protobuf_field prefs pool tvb (nested prefs pool tvb)
    offset maxlen message_desc.

(** The packed-repeated expander, likewise. *)
Definition dissect_packed (prefs : preferences) (pool : PbwDescriptorPool) (tvb : tvbuff_t)
    (start length wire_type : Z) (t : field_type) (fd : option PbwFieldDescriptor)
  : outcome Z * trace :=
  dissect_packed_repeated_field_values prefs tvb (nested prefs pool tvb)
    start length wire_type t "" fd.


(** Field number 0, varint, value 0. *)
Definition tvb_field_zero : tvbuff_t := [x00; x00].

(** Field 4 of [M], as the single varint 1 (wire type 0). *)
Definition tvb_unpacked : tvbuff_t := [x20; x01].

(** Field 1, 32-bit, value 1. *)
Definition tvb_fixed32 : tvbuff_t := [x0d; x01; x00; x00; x00].

(** Field 1, varint, value 150. *)
Definition tvb_int32 : tvbuff_t := [x08; x96; x01].

(** Field 4 of [M], packed, of two bytes: the varint 3, and a byte that
    begins a varint the payload does not end. *)
Definition tvb_cut_varint : tvbuff_t := [x22; x02; x03; x80].



(** Field 1 with the wire type 3 (start group). *)
Definition tvb_start_group : tvbuff_t := [x0b; x00].

(** Field 3 of [M], the nested message of three bytes 08 96 01. *)
Definition tvb_inner : tvbuff_t := [x1a; x03; x08; x96; x01].

(** Field 4 of [M], packed, the three varints 3, 270 and 86942. *)
Definition tvb_packed : tvbuff_t := [x22; x06; x03; x8e; x02; x9e; xa7; x05].

(** Eleven bytes with the high bit set. *)
Definition tvb_no_tag : tvbuff_t :=
  [xff; xff; xff; xff; xff; xff; xff; xff; xff; xff; xff].

(** The message decoder over a whole buffer. *)
Definition dissect (prefs : preferences) (pool : PbwDescriptorPool) (tvb : tvbuff_t)
    (message_desc : option PbwDescriptor) : outcome unit * trace :=
  dissect_protobuf_message prefs pool tvb (enough_fuel tvb) 0 (tvb_length tvb) message_desc.


End Fixtures.




(** The diagnostics of the field decoder itself. *)
Definition field_diagnostics : list expert_field :=
  [ei_protobuf_failed_parse_tag; ei_protobuf_failed_parse_length_delimited_field;
   ei_protobuf_failed_parse_field; ei_protobuf_wire_type_invalid].

(** ** The entry point of the dissector *)

(** Modelled from the spec: a method descriptor, which exposes the message
    types of its input and of its output (section 4.3; the dissector tests
    the pointer it gets for null). *)
Record PbwMethodDescriptor : Set := {
  pbw_MethodDescriptor_input_type : option PbwDescriptor;
  pbw_MethodDescriptor_output_type : option PbwDescriptor
}.

(** Modelled from the spec: the lookups of the descriptor pool by full name
    ([find_message] and [find_method] of section 4.3). *)
Record PbwDescriptorNames : Type := {
  pbw_DescriptorPool_FindMessageTypeByName : string -> option PbwDescriptor;
  pbw_DescriptorPool_FindMethodByName : string -> option PbwMethodDescriptor
}.

(** Modelled from the spec: a range of ports (the [port_range] of section 6;
    "8000 or 8000,8008-8088" in the words of the dissector), as the list of
    its intervals, both ends included. *)
Definition range_t := list (Z * Z).

(** Modelled from the spec: whether a port is in a range of ports; a null
    range holds none. *)
Definition value_is_in_range (range : option range_t) (val : Z) : bool :=
  match range with
  | Some ranges => existsb (fun r => (fst r <=? val) && (val <=? snd r)) ranges
  | None => false
  end.

(** the protobuf message type of the data on certain udp ports *)
Record protobuf_udp_message_type_t : Set := {
  udp_port_range : option range_t;
  message_type : option string
}.

(** Modelled from the spec: the transport of the packet (section 4.8 asks
    whether "the packet came over a UDP transport"); the dissector compares
    it with [PT_UDP] only. *)
Inductive port_type : Set := PT_NONE | PT_SCTP | PT_TCP | PT_UDP.

(** Modelled from the spec: what the dissector reads of the packet, namely
    the type of its ports, the ports, and the per-packet key-value map of
    section 6, from strings to strings, which may be absent. *)
Record packet_info : Type := {
  ptype : port_type;
  srcport : Z;
  destport : Z;
  private_table : option (string -> option string)
}.

(** The calls of the entry point on the columns and on the item of the
    protocol; the calls made under that item are those of the message
    decoder. *)
Inductive packet_event : Set :=
  | col_append_str (text : string)
  | proto_tree_add_protobuf (start length : Z)
  | proto_item_append_hint (message_info : string)  (* ": %s" *)
  | in_protobuf_tree (e : event).

(** Modelled from the spec: the buffer is one byte range (section 3), whose
    captured length is its length. *)
Definition tvb_captured_length (tvb : tvbuff_t) : Z := tvb_length tvb.

(** Modelled from the spec: what is left of the buffer from an offset on
    ("the entire remaining buffer" of section 4.8). *)
Definition tvb_reported_length_remaining (tvb : tvbuff_t) (offset : Z) : Z :=
  tvb_length tvb - offset.

(** [strchr]: the string from the first [c] on. *)
Fixpoint strchr (s : string) (c : ascii) : option string :=
  match s with
  | EmptyString => None
  | String a rest => if Ascii.eqb a c then Some s else strchr rest c
  end.

(** A pointer into a string moved by one character. *)
Definition next_char (s : string) : string :=
  match s with
  | EmptyString => EmptyString
  | String _ rest => rest
  end.

(** replace all '/' to '.' *)
Fixpoint replace_slashes (s : string) : string :=
  match s with
  | EmptyString => EmptyString
  | String a rest =>
      String (if Ascii.eqb a "/" then "."%char else a) (replace_slashes rest)
  end.

(** Whether an entry of the table of UDP message types holds one of the
    ports of the packet. *)
Definition udp_entry_matches (pinfo : packet_info) (entry : protobuf_udp_message_type_t)
  : bool :=
  value_is_in_range (udp_port_range entry) (srcport pinfo)
  || value_is_in_range (udp_port_range entry) (destport pinfo).

Section Entry.

Variable prefs : preferences.
Variable pbw_pool : PbwDescriptorPool.
Variable pbw_names : PbwDescriptorNames.

(** The table of the preference "Protobuf UDP message types". *)
Variable protobuf_udp_message_types : list protobuf_udp_message_type_t.

(** The host's [wmem_strsplit], which the sources do not include: the
    tokens of the vector it returns for a string, a delimiter and a maximal
    number of tokens. *)
Variable wmem_strsplit : string -> string -> Z -> list string.

(** The loop of [find_message_type_by_udp_port] over the entries of the
    table. *)
Fixpoint find_message_type_in (entries : list protobuf_udp_message_type_t)
    (pinfo : packet_info) : option PbwDescriptor :=
  match entries with
  | [] => None
  | entry :: rest =>
      if udp_entry_matches pinfo entry then
        match message_type entry with
        | Some name =>
            if (0 <? String.length name)%nat
            then pbw_DescriptorPool_FindMessageTypeByName pbw_names name
            else find_message_type_in rest pinfo
        | None => find_message_type_in rest pinfo
        end
      else find_message_type_in rest pinfo
  end.

(** [find_message_type_by_udp_port]: try to find message type by UDP port. *)
Definition find_message_type_by_udp_port (pinfo : packet_info) : option PbwDescriptor :=
  find_message_type_in protobuf_udp_message_types pinfo.

(** The message type of a hint that comes from the GRPC dissector:
    [message_info] is what follows the first comma of the hint. *)
Definition grpc_message_type (message_info : string) : option PbwDescriptor :=
  let message_info :=
    match message_info with
    | String "/" rest => rest  (* ignore first '/' *)
    | _ => message_info
    end in
  let tmp_names := wmem_strsplit message_info "," 2 in
  let method_name := nth_error tmp_names 0 in
  let direction_type :=
    match method_name with
    | Some _ => nth_error tmp_names 1
    | None => None
    end in
  let method_name := option_map replace_slashes method_name in
  match direction_type, method_name with
  | Some direction_type, Some method_name =>
      (* find message type according to method descriptor *)
      match pbw_DescriptorPool_FindMethodByName pbw_names method_name with
      | Some method_desc =>
          if String.eqb direction_type "request"
          then pbw_MethodDescriptor_input_type method_desc
          else pbw_MethodDescriptor_output_type method_desc
      | None => None
      end
  | _, _ => None
  end.

(** The block of [dissect_protobuf] on a hint: the message type it selects,
    and the calls made.  The pool gives a full name for every descriptor, so
    the test of the name for null always passes. *)
Definition hint_message_type (data_str : string)
  : option PbwDescriptor * list packet_event :=
  match strchr data_str "," with
  | Some message_info =>
      let message_info := next_char message_info in (* ignore ',' *)
      let message_desc :=
        if prefix "message," data_str
        then (* find message type by name directly *)
          pbw_DescriptorPool_FindMessageTypeByName pbw_names message_info
        else grpc_message_type message_info in
      (message_desc,
       [proto_item_append_hint message_info]
       ++ match message_desc with
          | Some desc =>
              [col_append_str (" " ++ pbw_Descriptor_full_name pbw_pool desc)]
          | None => []
          end)
  | None => (None, [])
  end.

(** The hint: the data argument, or else the slot "pb_msg_type" of the table
    of private data. *)
Definition hint_of (pinfo : packet_info) (data : option string) : option string :=
  match data with
  | Some data_str => Some data_str
  | None =>
      match private_table pinfo with
      | Some table => table "pb_msg_type"%string
      | None => None
      end
  end.

(** The message type [dissect_protobuf] dissects the packet with. *)
Definition packet_message_type (pinfo : packet_info) (data : option string)
  : option PbwDescriptor * list packet_event :=
  match hint_of pinfo data with
  | Some data_str => hint_message_type data_str
  | None =>
      match ptype pinfo with
      | PT_UDP => (find_message_type_by_udp_port pinfo, [])
      | _ => (None, [])
      end
  end.

(** [dissect_protobuf]: the message decoder over the whole buffer, with the
    message type of the hint or of the UDP ports. *)
Definition dissect_protobuf (tvb : tvbuff_t) (pinfo : packet_info) (data : option string)
  : outcome Z * list packet_event :=
  let offset := 0 in
  let '(message_desc, hint_events) := packet_message_type pinfo data in
  let before :=
    [col_append_str " (PROTOBUF)"; proto_tree_add_protobuf 0 (-1)] ++ hint_events in
  match dissect_protobuf_message prefs pbw_pool tvb (enough_fuel tvb) offset
          (tvb_reported_length_remaining tvb offset) message_desc with
  | (Returns _, evs) =>
      (Returns (tvb_captured_length tvb), before ++ map in_protobuf_tree evs)
  | (Throws, evs) => (Throws, before ++ map in_protobuf_tree evs)
  | (Exhausted, evs) => (Exhausted, before ++ map in_protobuf_tree evs)
  end.

End Entry.

(** The calls made under the item of the protocol. *)
Definition protobuf_tree (evs : list packet_event) : trace :=
  flat_map (fun e => match e with
                     | in_protobuf_tree e' => [e']
                     | _ => []
                     end) evs.

(** An entry of the table that can give a message type: it holds a port of
    the packet and names a message type. *)
Definition udp_entry_eligible (pinfo : packet_info) (entry : protobuf_udp_message_type_t)
  : bool :=
  udp_entry_matches pinfo entry
  && match message_type entry with
     | Some name => negb (String.eqb name "")
     | None => false
     end.

(** ** Loading the schema files *)

(** What [load_all_files_in_dir] finds at a path: a directory, which may
    fail to open, with the entries it is read to have, in the order they are
    read; or anything else.  The directories are taken to form a finite tree
    that does not change while it is read. *)
#[warnings="-register-all"] Inductive fs_node : Set :=
  | fs_file
  | fs_dir (opens : bool) (entries : list (string * fs_node)).

(** The calls of the loader that are looked at. *)
Inductive loader_event : Set :=
  | ws_dir_open (dir_path : string)
  | ws_dir_close (dir_path : string)
  | pbw_load_proto_file_call (path : string).

(** [strrchr]: the string from the last [c] on. *)
Fixpoint strrchr (s : string) (c : ascii) : option string :=
  match s with
  | EmptyString => None
  | String a rest =>
      match strrchr rest c with
      | Some found => Some found
      | None => if Ascii.eqb a c then Some s else None
      end
  end.

(** [g_ascii_tolower]: the letters A to Z to lower case, any other
    character unchanged. *)
Definition g_ascii_tolower (c : ascii) : ascii :=
  let n := nat_of_ascii c in
  if ((65 <=? n) && (n <=? 90))%nat then ascii_of_nat (n + 32) else c.

Fixpoint ascii_lower (s : string) : string :=
  match s with
  | EmptyString => EmptyString
  | String a rest => String (g_ascii_tolower a) (ascii_lower rest)
  end.

(** [g_ascii_strcasecmp (s1, s2) == 0] *)
Definition g_ascii_strcasecmp_equal (s1 s2 : string) : bool :=
  String.eqb (ascii_lower s1) (ascii_lower s2).

(** The test of the loader on a name: it has a dot, and what follows its
    last dot is "proto" in any case of the letters. *)
Definition has_proto_suffix (name : string) : bool :=
  match strrchr name "." with
  | Some dot => g_ascii_strcasecmp_equal (next_char dot) "proto"
  | None => false
  end.

Section Loader.

(** The loader of one file, of protobuf-helper.h: the [int] it returns for a
    path, which [load_all_files_in_dir] compares with 0. *)
Variable pbw_load_proto_file : string -> Z.

(** The host's [g_build_filename], on a directory and a name. *)
Variable g_build_filename : string -> string -> string.

Section ReadNames.

Variable load_dir : fs_node -> string -> bool * list loader_event.
Variable dir_path : string.

(** The loop of [load_all_files_in_dir] over the entries of an open
    directory, [load_dir] being the function itself. *)
Fixpoint read_names (entries : list (string * fs_node)) : bool * list loader_event :=
  match entries with
  | [] => (true, [ws_dir_close dir_path])
  | (name, node) :: rest =>
      let path := g_build_filename dir_path name in
      if has_proto_suffix name then
        (* load all files with '.proto' suffix *)
        if negb (pbw_load_proto_file path =? 0)
        then (false, [pbw_load_proto_file_call path])
        else
          let '(ok, evs) := read_names rest in
          (ok, pbw_load_proto_file_call path :: evs)
      else
        match load_dir node path with
        | (false, evs) => (false, evs)
        | (true, evs) =>
            let '(ok, evs') := read_names rest in
            (ok, evs ++ evs')
        end
  end.

End ReadNames.

(** [load_all_files_in_dir], on what is at [dir_path]. *)
Fixpoint load_all_files_in_dir (node : fs_node) (dir_path : string)
  : bool * list loader_event :=
  match node with
  | fs_file => (true, [])
  | fs_dir opens entries =>
      if opens then
        let '(ok, evs) := read_names load_all_files_in_dir dir_path entries in
        (ok, ws_dir_open dir_path :: evs)
      else (true, [])
  end.

End Loader.

(** The paths given to the loader of one file, the directories opened and
    the directories closed. *)
Definition loaded (evs : list loader_event) : list string :=
  flat_map (fun e => match e with pbw_load_proto_file_call p => [p] | _ => [] end) evs.

Definition opened (evs : list loader_event) : list string :=
  flat_map (fun e => match e with ws_dir_open p => [p] | _ => [] end) evs.

Definition closed (evs : list loader_event) : list string :=
  flat_map (fun e => match e with ws_dir_close p => [p] | _ => [] end) evs.

(** The entries of a tree that are named with the suffix, by their paths, in
    the order a reading of the whole tree meets them: an entry with the
    suffix counts as it is, directory or not, and the entries under it do
    not; a directory that does not open gives none. *)
Fixpoint proto_files (g_build_filename : string -> string -> string)
    (node : fs_node) (dir_path : string) : list string :=
  match node with
  | fs_file => []
  | fs_dir opens entries =>
      if opens then
        flat_map (fun entry =>
                    let path := g_build_filename dir_path (fst entry) in
                    if has_proto_suffix (fst entry) then [path]
                    else proto_files g_build_filename (snd entry) path) entries
      else []
  end.

(** ** Applying the preferences *)

(** protobuf source files search paths *)
Record protobuf_search_path_t : Set := {
  path : string;
  load_all : bool
}.

(** The calls of [protobuf_reinit] that are looked at. *)
Inductive reinit_event : Set :=
  | pbw_reinit_DescriptorPool (source_paths : list string)
  | loading (e : loader_event)
  | report_loading_stopped
  | dissector_delete_uint_range (range : range_t)
  | dissector_add_uint_range (range : range_t)
  | report_missing_type (message_type : string).

Section Reinit.

(** The lookups of the pool by name, as they are once the search paths are
    loaded. *)
Variable pbw_names : PbwDescriptorNames.
Variable pbw_load_proto_file : string -> Z.
Variable g_build_filename : string -> string -> string.

(** What is at a path. *)
Variable file_at : string -> fs_node.

(** load all .proto files in the marked search paths: whether the loading
    completed, and the calls made. *)
Fixpoint load_search_paths (search_paths : list protobuf_search_path_t)
  : bool * list reinit_event :=
  match search_paths with
  | [] => (true, [])
  | sp :: rest =>
      if load_all sp then
        match load_all_files_in_dir pbw_load_proto_file g_build_filename
                (file_at (path sp)) (path sp) with
        | (false, evs) =>
            (* stop loading when error occurs *)
            (false, map loading evs ++ [report_loading_stopped])
        | (true, evs) =>
            let '(completed, evs') := load_search_paths rest in
            (completed, map loading evs ++ evs')
        end
      else load_search_paths rest
  end.

(** add protobuf dissector to new udp ports: the new list of the ranges, and
    the calls made. *)
Fixpoint add_udp_port_ranges (loading_completed : bool)
    (types : list protobuf_udp_message_type_t) : list range_t * list reinit_event :=
  match types with
  | [] => ([], [])
  | entry :: rest =>
      let '(ranges, evs) := add_udp_port_ranges loading_completed rest in
      let missing :=
        match message_type entry with
        | Some name =>
            if loading_completed && (0 <? String.length name)%nat
               && match pbw_DescriptorPool_FindMessageTypeByName pbw_names name with
                  | Some _ => false
                  | None => true
                  end
            then [report_missing_type name] else []
        | None => []
        end in
      match udp_port_range entry with
      | Some range => (range :: ranges, dissector_add_uint_range range :: missing ++ evs)
      | None => (ranges, missing ++ evs)
      end
  end.

(** [protobuf_reinit], from the list [old_udp_port_ranges] it finds: the
    list it leaves, and the calls made. *)
Definition protobuf_reinit (protobuf_search_paths : list protobuf_search_path_t)
    (protobuf_udp_message_types : list protobuf_udp_message_type_t)
    (old_udp_port_ranges : list range_t) : list range_t * list reinit_event :=
  let source_paths := map path protobuf_search_paths in
  let '(loading_completed, load_events) := load_search_paths protobuf_search_paths in
  (* delete protobuf dissector from old udp ports *)
  let delete_events := map dissector_delete_uint_range old_udp_port_ranges in
  let '(ranges, add_events) :=
    add_udp_port_ranges loading_completed protobuf_udp_message_types in
  (ranges,
   [pbw_reinit_DescriptorPool source_paths] ++ load_events ++ delete_events ++ add_events).

End Reinit.

(** The ranges a run of [protobuf_reinit] takes the dissector from, and the
    ranges it gives it. *)
Definition deleted_ranges (evs : list reinit_event) : list range_t :=
  flat_map (fun e => match e with dissector_delete_uint_range r => [r] | _ => [] end) evs.

Definition added_ranges (evs : list reinit_event) : list range_t :=
  flat_map (fun e => match e with dissector_add_uint_range r => [r] | _ => [] end) evs.

Definition missing_types (evs : list reinit_event) : list string :=
  flat_map (fun e => match e with report_missing_type n => [n] | _ => [] end) evs.

Definition loading_events (evs : list reinit_event) : list loader_event :=
  flat_map (fun e => match e with loading e' => [e'] | _ => [] end) evs.

(** The ranges of the entries of the table of UDP message types. *)
Definition udp_port_ranges (types : list protobuf_udp_message_type_t) : list range_t :=
  flat_map (fun entry => match udp_port_range entry with
                         | Some range => [range]
                         | None => []
                         end) types.

(** The message types the entries of the table name that the pool does not
    have. *)
Definition unknown_message_types (pbw_names : PbwDescriptorNames)
    (types : list protobuf_udp_message_type_t) : list string :=
  flat_map (fun entry =>
              match message_type entry with
              | Some name =>
                  match pbw_DescriptorPool_FindMessageTypeByName pbw_names name with
                  | None => if String.eqb name "" then [] else [name]
                  | Some _ => []
                  end
              | None => []
              end) types.

(** What a run of the loader leaves: every file it gave to the loader of
    one file was named with the suffix; when it returns true each of them
    loaded (with the result 0), and as many directories are closed as were
    opened, but for [pending] of them; when it returns false the last call is
    that of the one file that did not load, the ones before loaded, and a
    directory is left open. *)
Definition loader_run (pbw_load_proto_file : string -> Z)
    (g_build_filename : string -> string -> string) (pending : nat)
    (ok : bool) (evs : list loader_event) : Prop :=
  Forall (fun p => exists dir_path name,
                     p = g_build_filename dir_path name /\ has_proto_suffix name = true)
         (loaded evs) /\
  if ok then
    Forall (fun p => pbw_load_proto_file p = 0) (loaded evs) /\
    List.length (closed evs) = (pending + List.length (opened evs))%nat
  else
    exists before failed,
      evs = before ++ [pbw_load_proto_file_call failed] /\
      pbw_load_proto_file failed <> 0 /\
      Forall (fun p => pbw_load_proto_file p = 0) (loaded before) /\
      (List.length (closed evs) < pending + List.length (opened evs))%nat.

(** ** Fixtures of the entry point and of the preferences *)

Module Samples.

Import Byte.

(** Field 5 of [M], packed, with a payload of four bytes that ends the
    buffer. *)
Definition tvb_packed_fixed32 : tvbuff_t := [x2a; x04; x01; x00; x00; x00].


(** Field 3 of [M], a nested [M], empty. *)
Definition tvb_empty_nested : tvbuff_t := [x1a; x00].

(** The pool of the package helloworld, by name: the message types
    HelloRequest (1) and HelloReply (2), and the method
    [Greeter.SayHello (HelloRequest) returns (HelloReply)]. *)
Definition HelloRequest : PbwDescriptor := 1%nat.
Definition HelloReply : PbwDescriptor := 2%nat.

Definition helloworld : PbwDescriptorNames :=
  {| pbw_DescriptorPool_FindMessageTypeByName := fun name =>
       if String.eqb name "helloworld.HelloRequest" then Some HelloRequest
       else if String.eqb name "helloworld.HelloReply" then Some HelloReply
       else None;
     pbw_DescriptorPool_FindMethodByName := fun name =>
       if String.eqb name "helloworld.Greeter.SayHello"
       then Some {| pbw_MethodDescriptor_input_type := Some HelloRequest;
                    pbw_MethodDescriptor_output_type := Some HelloReply |}
       else None |}.

(** A splitter at the first delimiter character. *)
Fixpoint split_at (c : ascii) (s : string) : string * option string :=
  match s with
  | EmptyString => (EmptyString, None)
  | String a rest =>
      if Ascii.eqb a c then (EmptyString, Some rest)
      else let '(token, more) := split_at c rest in (String a token, more)
  end.

Definition split_once (s delimiter : string) (max_tokens : Z) : list string :=
  match delimiter with
  | String c EmptyString =>
      match split_at c s with
      | (token, Some more) => [token; more]
      | (token, None) => [token]
      end
  | _ => [s]
  end.

(** The table of UDP message types: the ports 8000 to 8010 without a type,
    the port 8000 as a type the pool does not have, the ports 8000 and 9000
    as HelloReply. *)
Definition udp_types : list protobuf_udp_message_type_t :=
  [ {| udp_port_range := Some [(8000, 8010)]; message_type := Some ""%string |};
    {| udp_port_range := Some [(8000, 8000)]; message_type := Some "helloworld.Missing"%string |};
    {| udp_port_range := Some [(8000, 8000); (9000, 9000)];
       message_type := Some "helloworld.HelloReply"%string |} ].

(** A UDP packet from the port 50000 to the port 8000, with no private
    data. *)
Definition udp_packet : packet_info :=
  {| ptype := PT_UDP; srcport := 50000; destport := 8000; private_table := None |}.

End Samples.

(** * Properties *)

(** ** Machine integers *)

Section CIntFacts.


Lemma wrapu_small w z : 0 <= z < 2 ^ w -> wrapu w z = z.
Proof. intros H. unfold wrapu. apply Z.mod_small. exact H. Qed.

Lemma pow2_split w : 0 < w -> 2 ^ w = 2 * 2 ^ (w - 1).
Proof.
  intros Hw. replace w with (Z.succ (w - 1)) at 1 by lia.
  rewrite Z.pow_succ_r by lia. reflexivity.
Qed.

Lemma wraps_small w z :
  0 < w -> - 2 ^ (w - 1) <= z < 2 ^ (w - 1) -> wraps w z = z.
Proof.
  intros Hw H. unfold wraps. rewrite Z.mod_small; [lia|].
  rewrite (pow2_split w Hw). lia.
Qed.

Lemma wraps_high w z :
  0 < w -> 2 ^ (w - 1) <= z < 2 ^ w -> wraps w z = z - 2 ^ w.
Proof.
  intros Hw H. unfold wraps.
  assert (Hp : 0 < 2 ^ (w - 1)) by (apply Z.pow_pos_nonneg; lia).
  pose proof (pow2_split w Hw) as Hs.
  replace (z + 2 ^ (w - 1)) with ((z - 2 ^ (w - 1)) + 1 * 2 ^ w) by lia.
  rewrite Z.mod_add by lia. rewrite Z.mod_small by lia. lia.
Qed.


Lemma guint_small z : 0 <= z < 2 ^ 32 -> guint z = z.
Proof. apply wrapu_small. Qed.

End CIntFacts.

(** ** Zig-zag *)

Section ZigZag.

Variable w : Z.
Hypothesis w_pos : 1 < w.

Let half_pos : 0 < 2 ^ (w - 1).
Proof. apply Z.pow_pos_nonneg; lia. Qed.

Let full_split : 2 ^ w = 2 * 2 ^ (w - 1).
Proof. apply pow2_split. lia. Qed.

(** Conversion to the signed type keeps the parity. *)
Lemma wraps_mod2 x : (wraps w x) mod 2 = x mod 2.
Proof.
  unfold wraps.
  assert (H2 : 2 ^ (w - 1) = 2 ^ (w - 2) * 2).
  { replace (w - 1) with (Z.succ (w - 2)) by lia.
    rewrite Z.pow_succ_r by lia. lia. }
  set (y := x + 2 ^ (w - 1)).
  assert (Hm : (y mod 2 ^ w) mod 2 = y mod 2).
  { rewrite (Z.div_mod y (2 ^ w)) at 2 by lia.
    rewrite full_split at 2.
    replace (2 * 2 ^ (w - 1) * (y / 2 ^ w) + y mod 2 ^ w)
      with (y mod 2 ^ w + (2 ^ (w - 1) * (y / 2 ^ w)) * 2) by lia.
    rewrite Z.mod_add by lia. reflexivity. }
  rewrite H2 at 1.
  replace (y mod 2 ^ w - 2 ^ (w - 2) * 2)
    with (y mod 2 ^ w + (- 2 ^ (w - 2)) * 2) by lia.
  rewrite Z.mod_add, Hm by lia.
  unfold y. rewrite H2. rewrite Z.mod_add by lia. reflexivity.
Qed.

(** The sign mask [(gint)x << (w-1) >> (w-1)] is [0] on an even [x] and
    [-1] on an odd one. *)
Lemma sign_mask_even x :
  x mod 2 = 0 -> Z.shiftr (wraps w (Z.shiftl (wraps w x) (w - 1))) (w - 1) = 0.
Proof.
  intros Hx. pose proof (wraps_mod2 x) as Hs. rewrite Hx in Hs.
  rewrite Z.shiftl_mul_pow2 by lia.
  assert (Hk : exists k, wraps w x = 2 * k).
  { exists (wraps w x / 2). pose proof (Z.div_mod (wraps w x) 2). lia. }
  destruct Hk as [k Hk]. rewrite Hk.
  replace (2 * k * 2 ^ (w - 1)) with (k * 2 ^ w) by lia.
  unfold wraps at 1.
  rewrite Z.add_comm, Z.mod_add by lia.
  rewrite Z.mod_small by lia.
  replace (2 ^ (w - 1) - 2 ^ (w - 1)) with 0 by lia.
  apply Z.shiftr_0_l.
Qed.

Lemma sign_mask_odd x :
  x mod 2 = 1 -> Z.shiftr (wraps w (Z.shiftl (wraps w x) (w - 1))) (w - 1) = -1.
Proof.
  intros Hx. pose proof (wraps_mod2 x) as Hs. rewrite Hx in Hs.
  rewrite Z.shiftl_mul_pow2 by lia.
  assert (Hk : exists k, wraps w x = 2 * k + 1).
  { exists (wraps w x / 2). pose proof (Z.div_mod (wraps w x) 2). lia. }
  destruct Hk as [k Hk]. rewrite Hk.
  replace ((2 * k + 1) * 2 ^ (w - 1)) with (2 ^ (w - 1) + k * 2 ^ w) by lia.
  unfold wraps at 1.
  replace (2 ^ (w - 1) + k * 2 ^ w + 2 ^ (w - 1)) with (0 + (k + 1) * 2 ^ w) by lia.
  rewrite Z.mod_add by lia. rewrite Z.mod_0_l by lia.
  rewrite Z.shiftr_div_pow2 by lia.
  replace (0 - 2 ^ (w - 1)) with (- 1 * 2 ^ (w - 1)) by lia.
  apply Z.div_mul. lia.
Qed.

(** Exclusive or with the all-ones word complements within the word. *)
Lemma lxor_all_ones a :
  0 <= a < 2 ^ w -> Z.lxor a (2 ^ w - 1) = 2 ^ w - 1 - a.
Proof.
  intros Ha.
  replace (2 ^ w - 1) with (Z.ones w) at 1
    by (rewrite Z.ones_equiv; lia).
  replace (2 ^ w - 1 - a) with ((Z.lnot a) mod 2 ^ w).
  2:{ unfold Z.lnot.
      replace (Z.pred (- a)) with ((2 ^ w - 1 - a) + (-1) * 2 ^ w) by lia.
      rewrite Z.mod_add by lia. apply Z.mod_small. lia. }
  apply Z.bits_inj'. intros i Hi.
  rewrite Z.lxor_spec.
  destruct (Z.ltb_spec i w) as [Hlt | Hge].
  - rewrite Z.ones_spec_low by lia.
    rewrite Z.mod_pow2_bits_low by lia.
    rewrite Z.lnot_spec by lia.
    destruct (Z.testbit a i); reflexivity.
  - rewrite Z.ones_spec_high by lia.
    rewrite Z.mod_pow2_bits_high by lia.
    rewrite xorb_false_r.
    destruct (Z.eq_dec a 0) as [-> | Hnz]; [apply Z.bits_0|].
    apply Z.bits_above_log2; [lia|].
    apply Z.lt_le_trans with w; [|exact Hge].
    apply Z.log2_lt_pow2; lia.
Qed.

(** Decoding undoes encoding on every signed integer of [w] bits. *)
Lemma zigzag_decode_encode n :
  - 2 ^ (w - 1) <= n < 2 ^ (w - 1) -> zigzag_decode w (zigzag_encode w n) = n.
Proof.
  intros Hn. unfold zigzag_decode, zigzag_encode.
  destruct (Z.neg_nonneg_cases n) as [Hneg | Hpos].
  - (* negative: n >> (w-1) = -1, so the code word is ~(2n) = -2n-1 *)
    assert (Hsr : Z.shiftr n (w - 1) = -1).
    { rewrite Z.shiftr_div_pow2 by lia.
      symmetry. apply Z.div_unique with (n + 2 ^ (w - 1)); lia. }
    rewrite Hsr, Z.lxor_m1_r, Z.shiftl_mul_pow2 by lia.
    unfold Z.lnot. rewrite Z.pow_1_r.
    replace (Z.pred (- (n * 2))) with (- 2 * n - 1) by lia.
    rewrite (wrapu_small w (- 2 * n - 1)) by lia.
    assert (Hodd : (- 2 * n - 1) mod 2 = 1).
    { replace (- 2 * n - 1) with (1 + (- n - 1) * 2) by lia.
      rewrite Z.mod_add by lia. reflexivity. }
    rewrite (sign_mask_odd _ Hodd).
    assert (Hhalf : Z.shiftr (- 2 * n - 1) 1 = - n - 1).
    { rewrite Z.shiftr_div_pow2 by lia. rewrite Z.pow_1_r.
      symmetry. apply Z.div_unique with 1; lia. }
    rewrite Hhalf.
    assert (Hm1 : wrapu w (-1) = 2 ^ w - 1).
    { unfold wrapu. replace (-1) with ((2 ^ w - 1) + (-1) * 2 ^ w) at 1 by lia.
      rewrite Z.mod_add by lia. apply Z.mod_small. lia. }
    rewrite Hm1, lxor_all_ones by lia.
    replace (2 ^ w - 1 - (- n - 1)) with (n + 2 ^ w) by lia.
    rewrite wraps_high by lia. lia.
  - (* non-negative: n >> (w-1) = 0, so the code word is 2n *)
    assert (Hsr : Z.shiftr n (w - 1) = 0).
    { rewrite Z.shiftr_div_pow2 by lia. apply Z.div_small. lia. }
    rewrite Hsr, Z.lxor_0_r, Z.shiftl_mul_pow2 by lia.
    rewrite Z.pow_1_r.
    rewrite (wrapu_small w (n * 2)) by lia.
    assert (Heven : (n * 2) mod 2 = 0) by (apply Z.mod_mul; lia).
    rewrite (sign_mask_even _ Heven).
    assert (Hhalf : Z.shiftr (n * 2) 1 = n).
    { rewrite Z.shiftr_div_pow2 by lia. rewrite Z.pow_1_r.
      apply Z.div_mul. lia. }
    rewrite Hhalf.
    assert (H0 : wrapu w 0 = 0) by (apply wrapu_small; lia).
    rewrite H0, Z.lxor_0_r.
    apply wraps_small; lia.
Qed.

End ZigZag.

Lemma sint32_decode_zigzag x : sint32_decode x = zigzag_decode 32 x.
Proof. reflexivity. Qed.

Lemma sint64_decode_zigzag x : sint64_decode x = zigzag_decode 64 x.
Proof. reflexivity. Qed.

Example sint32_decode_1 : sint32_decode 1 = -1.
Proof. reflexivity. Qed.

Example sint32_decode_2 : sint32_decode 2 = 1.
Proof. reflexivity. Qed.

(** C4. Zig-zag decoding is the inverse of zig-zag encoding: for every signed
    32-bit integer [n], [sint32_decode ((n << 1) ^ (n >> 31))] is [n], the
    right shift of the signed operand being arithmetic; and for every signed
    64-bit integer [n], [sint64_decode ((n << 1) ^ (n >> 63))] is [n]. *)
Theorem sint_decode_encode :
  (forall n, - 2 ^ 31 <= n < 2 ^ 31 -> sint32_decode (sint32_encode n) = n) /\
  (forall n, - 2 ^ 63 <= n < 2 ^ 63 -> sint64_decode (sint64_encode n) = n).
Proof.
  split; intros n Hn.
  - change (zigzag_decode 32 (zigzag_encode 32 n) = n).
    apply zigzag_decode_encode; lia.
  - change (zigzag_decode 64 (zigzag_encode 64 n) = n).
    apply zigzag_decode_encode; lia.
Qed.

Lemma sint_decode_encode_witness :
  sint32_decode (sint32_encode (-3)) = -3 /\
  sint64_decode (sint64_encode (-3)) = -3.
Proof.
  split.
  - apply (proj1 sint_decode_encode). lia.
  - apply (proj2 sint_decode_encode). lia.
Defined.

(** ** Wire reader *)

Section WireReader.

Variable tvb : tvbuff_t.

Lemma tvb_get_guint8_some offset b :
  tvb_get_guint8 tvb offset = Some b -> 0 <= offset < tvb_length tvb.
Proof.
  unfold tvb_get_guint8, tvb_length.
  destruct (Z.leb_spec 0 offset) as [Hle | Hlt]; [|discriminate].
  destruct (nth_error tvb (Z.to_nat offset)) as [x|] eqn:Hn; [|discriminate].
  intros _. assert (Hs : nth_error tvb (Z.to_nat offset) <> None) by congruence.
  apply nth_error_Some in Hs. lia.
Qed.

Lemma tvb_bytes_some offset length bs :
  tvb_bytes tvb offset length = Some bs ->
  0 <= offset /\ 0 <= length /\ offset + length <= tvb_length tvb.
Proof.
  unfold tvb_bytes.
  destruct (Z.leb_spec 0 offset); [|discriminate].
  destruct (Z.leb_spec 0 length); [|discriminate].
  destruct (Z.leb_spec (offset + length) (tvb_length tvb)); [|discriminate].
  intros _. lia.
Qed.

Lemma tvb_bytes_in_range offset length :
  0 <= offset -> 0 <= length -> offset + length <= tvb_length tvb ->
  exists bs, tvb_bytes tvb offset length = Some bs.
Proof.
  intros H1 H2 H3. unfold tvb_bytes.
  destruct (Z.leb_spec 0 offset); [|lia].
  destruct (Z.leb_spec 0 length); [|lia].
  destruct (Z.leb_spec (offset + length) (tvb_length tvb)); [|lia].
  eexists. reflexivity.
Qed.

Lemma tvb_get_letohl_some offset v :
  tvb_get_letohl tvb offset = Some v -> 0 <= offset /\ offset + 4 <= tvb_length tvb.
Proof.
  unfold tvb_get_letohl.
  destruct (tvb_bytes tvb offset 4) as [bs|] eqn:Hb; [|discriminate].
  intros _. apply tvb_bytes_some in Hb. lia.
Qed.

Lemma tvb_get_letoh64_some offset v :
  tvb_get_letoh64 tvb offset = Some v -> 0 <= offset /\ offset + 8 <= tvb_length tvb.
Proof.
  unfold tvb_get_letoh64.
  destruct (tvb_bytes tvb offset 8) as [bs|] eqn:Hb; [|discriminate].
  intros _. apply tvb_bytes_some in Hb. lia.
Qed.

(** A varint that is found starts in the buffer, has between one and ten
    bytes, and ends inside the buffer and inside the bound [maxlen]. *)
Lemma varint_scan_found offset maxlen n :
  forall i value len v,
    varint_scan tvb offset maxlen n i value = (len, v) ->
    len <> 0 ->
    i + 1 <= len <= i + Z.of_nat n /\ len <= maxlen /\
    0 <= offset + i /\ offset + len <= tvb_length tvb.
Proof.
  induction n as [|n' IH]; intros i value len v Hscan Hlen.
  - simpl in Hscan. inversion Hscan. congruence.
  - cbn [varint_scan] in Hscan.
    destruct (Z.ltb_spec i maxlen) as [Hi | Hi].
    2:{ inversion Hscan. congruence. }
    destruct (tvb_get_guint8 tvb (offset + i)) as [b|] eqn:Hb.
    2:{ inversion Hscan. congruence. }
    apply tvb_get_guint8_some in Hb.
    destruct (b <? 128).
    + inversion Hscan; subst. lia.
    + apply IH in Hscan; [|exact Hlen]. lia.
Qed.

Lemma tvb_get_varint_found offset maxlen len v :
  tvb_get_varint tvb offset maxlen = (len, v) ->
  len <> 0 ->
  1 <= len <= 10 /\ len <= maxlen /\ 0 <= offset /\ offset + len <= tvb_length tvb.
Proof.
  unfold tvb_get_varint. intros Hscan Hlen.
  apply varint_scan_found in Hscan; [|exact Hlen].
  unfold FT_VARINT_MAX_LEN in Hscan. lia.
Qed.

Lemma read_wire_value_inv wire_type offset maxlen value_length value_length_size v :
  read_wire_value tvb wire_type offset maxlen
    = WireValue value_length value_length_size v ->
  (wire_type = PROTOBUF_WIRETYPE_VARINT /\ value_length_size = 0 /\
   tvb_get_varint tvb offset maxlen = (value_length, v) /\ value_length <> 0) \/
  (wire_type = PROTOBUF_WIRETYPE_FIXED64 /\ value_length_size = 0 /\
   value_length = 8 /\ tvb_get_letoh64 tvb offset = Some v) \/
  (wire_type = PROTOBUF_WIRETYPE_FIXED32 /\ value_length_size = 0 /\
   value_length = 4 /\ tvb_get_letohl tvb offset = Some v) \/
  (wire_type = PROTOBUF_WIRETYPE_LENGTH_DELIMITED /\ value_length = guint v /\
   tvb_get_varint tvb offset maxlen = (value_length_size, v) /\
   value_length_size <> 0).
Proof.
  unfold read_wire_value.
  destruct (Z.eqb_spec wire_type PROTOBUF_WIRETYPE_VARINT) as [-> | H0].
  { destruct (tvb_get_varint tvb offset maxlen) as [l x].
    destruct (Z.eqb_spec l 0); [discriminate|].
    intros H; inversion H; subst. left. auto. }
  destruct (Z.eqb_spec wire_type PROTOBUF_WIRETYPE_FIXED64) as [-> | H1].
  { destruct (tvb_get_letoh64 tvb offset); [|discriminate].
    intros H; inversion H; subst. right; left. auto. }
  destruct (Z.eqb_spec wire_type PROTOBUF_WIRETYPE_FIXED32) as [-> | H5].
  { destruct (tvb_get_letohl tvb offset); [|discriminate].
    intros H; inversion H; subst. right; right; left. auto. }
  destruct (Z.eqb_spec wire_type PROTOBUF_WIRETYPE_LENGTH_DELIMITED) as [-> | H2].
  { destruct (tvb_get_varint tvb offset maxlen) as [l x].
    destruct (Z.eqb_spec l 0); [discriminate|].
    intros H; inversion H; subst. right; right; right. auto. }
  discriminate.
Qed.

(** The switch fails, without a value, on a varint that does not parse and
    on any wire type other than 0, 1, 2 and 5. *)
Lemma read_wire_value_failed wire_type offset maxlen on ei :
  read_wire_value tvb wire_type offset maxlen = WireFailed on ei ->
  (wire_type = PROTOBUF_WIRETYPE_VARINT /\
   fst (tvb_get_varint tvb offset maxlen) = 0 /\
   on = ti_wire /\ ei = ei_protobuf_failed_parse_field) \/
  (wire_type = PROTOBUF_WIRETYPE_LENGTH_DELIMITED /\
   fst (tvb_get_varint tvb offset maxlen) = 0 /\
   on = ti_field /\ ei = ei_protobuf_failed_parse_length_delimited_field) \/
  (wire_type <> PROTOBUF_WIRETYPE_VARINT /\ wire_type <> PROTOBUF_WIRETYPE_FIXED64 /\
   wire_type <> PROTOBUF_WIRETYPE_LENGTH_DELIMITED /\
   wire_type <> PROTOBUF_WIRETYPE_FIXED32 /\
   on = ti_wire /\ ei = ei_protobuf_wire_type_invalid).
Proof.
  unfold read_wire_value.
  destruct (Z.eqb_spec wire_type PROTOBUF_WIRETYPE_VARINT) as [-> | H0].
  { destruct (tvb_get_varint tvb offset maxlen) as [l x].
    destruct (Z.eqb_spec l 0); [|discriminate].
    intros H; inversion H; subst. left. auto. }
  destruct (Z.eqb_spec wire_type PROTOBUF_WIRETYPE_FIXED64) as [-> | H1].
  { destruct (tvb_get_letoh64 tvb offset); discriminate. }
  destruct (Z.eqb_spec wire_type PROTOBUF_WIRETYPE_FIXED32) as [-> | H5].
  { destruct (tvb_get_letohl tvb offset); discriminate. }
  destruct (Z.eqb_spec wire_type PROTOBUF_WIRETYPE_LENGTH_DELIMITED) as [-> | H2].
  { destruct (tvb_get_varint tvb offset maxlen) as [l x].
    destruct (Z.eqb_spec l 0); [|discriminate].
    intros H; inversion H; subst. right; left. auto. }
  intros H; inversion H; subst. right; right. auto 10.
Qed.

Lemma read_wire_value_throws wire_type offset maxlen :
  read_wire_value tvb wire_type offset maxlen = WireThrows ->
  wire_type = PROTOBUF_WIRETYPE_FIXED64 \/ wire_type = PROTOBUF_WIRETYPE_FIXED32.
Proof.
  unfold read_wire_value.
  destruct (Z.eqb_spec wire_type PROTOBUF_WIRETYPE_VARINT) as [-> | H0].
  { destruct (tvb_get_varint tvb offset maxlen) as [l x].
    destruct (Z.eqb_spec l 0); discriminate. }
  destruct (Z.eqb_spec wire_type PROTOBUF_WIRETYPE_FIXED64) as [-> | H1]; [auto|].
  destruct (Z.eqb_spec wire_type PROTOBUF_WIRETYPE_FIXED32) as [-> | H5]; [auto|].
  destruct (Z.eqb_spec wire_type PROTOBUF_WIRETYPE_LENGTH_DELIMITED) as [-> | H2].
  { destruct (tvb_get_varint tvb offset maxlen) as [l x].
    destruct (Z.eqb_spec l 0); discriminate. }
  discriminate.
Qed.

End WireReader.

(** ** Traces *)

Lemma datatypes_app a b : datatypes (a ++ b) = datatypes a ++ datatypes b.
Proof. apply flat_map_app. Qed.

Lemma experts_app a b : experts (a ++ b) = experts a ++ experts b.
Proof. apply flat_map_app. Qed.

Lemma value_leaves_app a b : value_leaves (a ++ b) = value_leaves a ++ value_leaves b.
Proof. apply filter_app. Qed.

Lemma repeated_ranges_app a b :
  repeated_ranges (a ++ b) = repeated_ranges a ++ repeated_ranges b.
Proof. apply flat_map_app. Qed.

Lemma message_ranges_app a b :
  message_ranges (a ++ b) = message_ranges a ++ message_ranges b.
Proof. apply flat_map_app. Qed.

Create Rewrite HintDb trace_app.
#[export] Hint Rewrite datatypes_app experts_app value_leaves_app repeated_ranges_app
  message_ranges_app : trace_app.

(** The header of a field names no declared type, and carries no diagnostic,
    no typed leaf, no "Repeated" and no "Message" subtree. *)
Lemma field_header_plain prefs offset tag_length tag_value field_desc :
  let h := field_header prefs offset tag_length tag_value field_desc in
  datatypes h = [] /\ experts h = [] /\ value_leaves h = [] /\
  repeated_ranges h = [] /\ message_ranges h = [].
Proof.
  unfold field_header.
  destruct field_desc as [fd|]; cbn.
  - destruct (field_type_eqb (pbw_FieldDescriptor_type fd) PROTOBUF_TYPE_NONE);
      repeat split; reflexivity.
  - repeat split; reflexivity.
Qed.

(** ** Field decoder *)

(** The paths through [dissect_one_protobuf_field]: the tag, the switch on
    the wire type, the bytes of the value, the dissection of the value. *)
Ltac field_paths H :=
  unfold dissect_one_protobuf_field in H;
  match type of H with
  | context [tvb_get_varint ?t ?o ?m] =>
      let tag_length := fresh "tag_length" in
      let tag_value := fresh "tag_value" in
      let Htag := fresh "Htag" in
      let Hlen := fresh "Hlen" in
      destruct (tvb_get_varint t o m) as [tag_length tag_value] eqn:Htag;
      cbv beta match zeta in H;
      destruct (Z.eqb_spec tag_length 0) as [Hlen | Hlen];
      [ | match type of H with
          | context [read_wire_value ?t ?w ?o1 ?m1] =>
              let Hwire := fresh "Hwire" in
              destruct (read_wire_value t w o1 m1)
                as [value_length value_length_size value_uint64 | on ei | ] eqn:Hwire;
              [ match type of H with
                | context [tvb_bytes ?t ?o2 ?l] =>
                    let Hbytes := fresh "Hbytes" in
                    destruct (tvb_bytes t o2 l) as [bytes | ] eqn:Hbytes;
                    [ match type of H with
                      | context [dissect_field_value_by_desc ?a ?b ?c ?d ?e ?f ?g ?h] =>
                          let Hvalue := fresh "Hvalue" in
                          let r := fresh "r" in
                          let evs_value := fresh "evs_value" in
                          destruct (dissect_field_value_by_desc a b c d e f g h)
                            as [r evs_value] eqn:Hvalue;
                          destruct r as [ [] | | ]
                      end
                    | ]
                end
              | | ]
          end ]
  end.

(** The components of an equation between results. *)
Ltac result_eq H Hr Ho He :=
  pose proof (f_equal (fun p => fst (fst p)) H) as Hr;
  pose proof (f_equal (fun p => snd (fst p)) H) as Ho;
  pose proof (f_equal snd H) as He;
  cbn [fst snd] in Hr, Ho, He; clear H.

Section FieldDecoder.

Variable prefs : preferences.
Variable pbw_pool : PbwDescriptorPool.
Variable tvb : tvbuff_t.
Variable dissect_message : Z -> Z -> PbwDescriptor -> outcome unit * trace.

Hypothesis tvb_fits : tvb_length tvb < 2 ^ 32.

Let dissect_one := dissect_one_protobuf_field prefs pbw_pool tvb dissect_message.

(** The wire type of a tag is one of 0 .. 7. *)
Lemma wire_type_range tag_value : 0 <= Z.land tag_value 7 < 8.
Proof.
  change 7 with (Z.ones 3). rewrite Z.land_ones by lia.
  apply Z.mod_pos_bound. lia.
Qed.

(** What a successful call went through. *)
Lemma dissect_one_true_inv offset maxlen message_desc offset' evs :
  dissect_one offset maxlen message_desc = (Returns true, offset', evs) ->
  exists tag_length tag_value value_length value_length_size value_uint64 head evs_value,
    tvb_get_varint tvb offset maxlen = (tag_length, tag_value) /\
    tag_length <> 0 /\
    read_wire_value tvb (Z.land tag_value 7) (offset + tag_length)
      (guint (maxlen - tag_length))
      = WireValue value_length value_length_size value_uint64 /\
    0 <= value_length /\
    offset + tag_length + value_length_size + value_length <= tvb_length tvb /\
    dissect_field_value_by_desc prefs tvb dissect_message
      (find_field_desc pbw_pool message_desc (Z.shiftr tag_value 3))
      (offset + tag_length + value_length_size) value_length
      (Z.land tag_value 7) value_uint64 = (Returns tt, evs_value) /\
    offset' = offset + tag_length + value_length_size + value_length /\
    evs = head ++ evs_value /\
    datatypes head = [] /\ experts head = [] /\ value_leaves head = [] /\
    repeated_ranges head = [] /\ message_ranges head = [] /\
    In (proto_tree_add hf_protobuf_value_data (offset + tag_length + value_length_size)
          value_length ValBytes) head.
Proof.
  intros H. unfold dissect_one in H. field_paths H; try discriminate.
  result_eq H Hr Ho He. subst offset' evs.
  pose proof (tvb_get_varint_found _ _ _ _ _ Htag Hlen) as (Ht1 & Ht2 & Ht3 & Ht4).
  assert (Ho1 : guint (offset + tag_length) = offset + tag_length)
    by (apply guint_small; lia).
  rewrite Ho1 in *.
  assert (Hsz : 0 <= value_length_size /\
                offset + tag_length + value_length_size <= tvb_length tvb).
  { apply read_wire_value_inv in Hwire.
    destruct Hwire as [(_ & -> & _) | [(_ & -> & _) | [(_ & -> & _) | (_ & _ & Hv & Hnz)]]];
      try lia.
    apply tvb_get_varint_found in Hv; [lia | exact Hnz]. }
  assert (Ho2 : guint (offset + tag_length + value_length_size)
                = offset + tag_length + value_length_size)
    by (apply guint_small; lia).
  rewrite Ho2 in *.
  apply tvb_bytes_some in Hbytes. destruct Hbytes as (Hb1 & Hb2 & Hb3).
  do 5 eexists. eexists. exists evs_value.
  split; [reflexivity|]. split; [exact Hlen|]. split; [exact Hwire|].
  split; [exact Hb2|]. split; [exact Hb3|].
  split; [exact Hvalue|].
  split; [apply guint_small; lia|].
  split; [reflexivity|].
  pose proof (field_header_plain prefs offset tag_length tag_value
                (find_field_desc pbw_pool message_desc (Z.shiftr tag_value 3)))
    as (F1 & F2 & F3 & F4 & F5).
  autorewrite with trace_app. rewrite F1, F2, F3, F4, F5.
  destruct (Z.land tag_value 7 =? PROTOBUF_WIRETYPE_LENGTH_DELIMITED);
    repeat split; try reflexivity;
    rewrite !in_app_iff; right; right; right; left; reflexivity.
Qed.

(** A successful call advances the cursor by at least the tag byte, and
    leaves it inside the buffer. *)
Lemma dissect_one_true_advance offset maxlen message_desc offset' evs :
  dissect_one offset maxlen message_desc = (Returns true, offset', evs) ->
  0 <= offset /\ offset + 1 <= offset' <= tvb_length tvb.
Proof.
  intros H. apply dissect_one_true_inv in H.
  destruct H as (tl & tv & vl & vls & v & head & evs_v
                 & Htag & Hnz & Hwire & Hvl & Hend & _ & -> & _).
  apply tvb_get_varint_found in Htag; [|exact Hnz].
  assert (0 <= vls).
  { apply read_wire_value_inv in Hwire.
    destruct Hwire as [(_ & -> & _) | [(_ & -> & _) | [(_ & -> & _) | (_ & _ & Hv & Hnz')]]];
      try lia.
    apply tvb_get_varint_found in Hv; [lia | exact Hnz']. }
  lia.
Qed.

End FieldDecoder.




(** The wire types, as numbers. *)
Ltac wire_types :=
  unfold PROTOBUF_WIRETYPE_VARINT, PROTOBUF_WIRETYPE_FIXED64, PROTOBUF_WIRETYPE_FIXED32,
    PROTOBUF_WIRETYPE_LENGTH_DELIMITED in *.

(** ** Scenarios of the design document *)

(** S1: the bytes 08 96 01 under [int32 a = 1] are one field of type INT32
    and value 150. *)
Example scenario_single_int32 :
  let evs := snd (Fixtures.dissect Fixtures.prefs_default Fixtures.pool_M
                    Fixtures.tvb_int32 (Some Fixtures.M)) in
  value_leaves evs = [proto_tree_add hf_protobuf_value_int32 1 2 (ValInt 150)] /\
  datatypes evs = [PROTOBUF_TYPE_INT32].
Proof. split; vm_compute; reflexivity. Qed.

(** S3: the bytes 1A 03 08 96 01 are a nested message over the last three
    bytes, whose field is that of S1. *)
Example scenario_nested_message :
  let evs := snd (Fixtures.dissect Fixtures.prefs_default Fixtures.pool_M
                    Fixtures.tvb_inner (Some Fixtures.M)) in
  message_ranges evs = [(0, 5); (2, 3)] /\
  value_leaves evs = [proto_tree_add hf_protobuf_value_int32 3 2 (ValInt 150)] /\
  datatypes evs = [PROTOBUF_TYPE_INT32; PROTOBUF_TYPE_MESSAGE].
Proof. repeat split; vm_compute; reflexivity. Qed.

(** S5: a packed repeated int32 with the elements 3, 270 and 86942. *)
Example scenario_packed_int32 :
  let evs := snd (Fixtures.dissect Fixtures.prefs_default Fixtures.pool_M
                    Fixtures.tvb_packed (Some Fixtures.M)) in
  repeated_ranges evs = [(2, 6)] /\ experts evs = [] /\
  value_leaves evs
  = [proto_tree_add hf_protobuf_value_int32 2 1 (ValInt 3);
     proto_tree_add hf_protobuf_value_int32 3 2 (ValInt 270);
     proto_tree_add hf_protobuf_value_int32 5 3 (ValInt 86942)].
Proof. repeat split; vm_compute; reflexivity. Qed.

(** S7: without a schema and with every possible type shown, the varint 150
    is shown under the eight types of the wire type VARINT. *)
Example scenario_unknown_varint :
  datatypes (snd (Fixtures.dissect Fixtures.prefs_show_all Fixtures.pool_M
                    Fixtures.tvb_int32 None))
  = [PROTOBUF_TYPE_INT32; PROTOBUF_TYPE_INT64; PROTOBUF_TYPE_UINT32; PROTOBUF_TYPE_UINT64;
     PROTOBUF_TYPE_SINT32; PROTOBUF_TYPE_SINT64; PROTOBUF_TYPE_BOOL; PROTOBUF_TYPE_ENUM].
Proof. vm_compute; reflexivity. Qed.

(** S8: eleven bytes with the high bit set are no tag. *)
Example scenario_malformed_tag :
  Fixtures.dissect Fixtures.prefs_default Fixtures.pool_M Fixtures.tvb_no_tag None
  = (Returns tt,
     message_header Fixtures.pool_M 0 11 None
       ++ [proto_tree_add_subtree ett_protobuf_field 0 0;
           expert_add_info ti_field ei_protobuf_failed_parse_tag]).
Proof. vm_compute; reflexivity. Qed.

(** ** Malformed tags *)

(** A field whose value was read did not return false: its wire type is
    0, 1, 2 or 5, and its varint, if any, was parsed. *)
Ltac value_was_read Hwire :=
  split; [split; [discriminate|]|];
  destruct Hwire as [(Hw & _ & Hv & Hnz) | [(Hw & _) | [(Hw & _) | (Hw & _ & Hv & Hnz)]]];
  try (inversion Hv; subst); rewrite Hw; intuition lia.


(** C7, as the design document has it: a tag whose field number is 0 would
    make the field decoder fail.  The two bytes 00 00 are the tag of field
    number 0 with the wire type VARINT and the value 0: the field is
    decoded. *)
Lemma field_number_zero_decoded :
  exists evs,
    Fixtures.dissect_field Fixtures.prefs_default Fixtures.pool_M
      Fixtures.tvb_field_zero 0 2 None = (Returns true, 2, evs) /\
    Z.shiftr (snd (tvb_get_varint Fixtures.tvb_field_zero 0 2)) 3 = 0.
Proof.
  eexists. split; vm_compute; reflexivity.
Qed.

(** C7, amended.  A decoded tag whose wire type is 3, 4, 6 or 7 is treated
    as malformed: the field decoder attaches [wire_type_invalid] and returns
    false.  The field number is not looked at: the decoder returns false
    exactly when the tag varint does not parse, or the wire type is 3, 4, 6
    or 7, or the value varint (VARINT) or the length prefix
    (LENGTH_DELIMITED) does not parse. *)
Theorem field_returns_false_iff prefs pbw_pool tvb dissect_message
    offset maxlen message_desc :
  let '(r, _, evs) :=
    dissect_one_protobuf_field prefs pbw_pool tvb dissect_message
      offset maxlen message_desc in
  let '(tag_length, tag_value) := tvb_get_varint tvb offset maxlen in
  let wire_type := Z.land tag_value 7 in
  let '(len, _) :=
    tvb_get_varint tvb (guint (offset + tag_length)) (guint (maxlen - tag_length)) in
  (r = Returns false <->
   tag_length = 0 \/ In wire_type [3; 4; 6; 7] \/
   ((wire_type = PROTOBUF_WIRETYPE_VARINT \/
     wire_type = PROTOBUF_WIRETYPE_LENGTH_DELIMITED) /\ len = 0)) /\
  (tag_length <> 0 -> In wire_type [3; 4; 6; 7] ->
   r = Returns false /\ experts evs = [ei_protobuf_wire_type_invalid]).
Proof.
  destruct (dissect_one_protobuf_field prefs pbw_pool tvb dissect_message
              offset maxlen message_desc) as [[r offset'] evs] eqn:H.
  pose proof (fun tag_value => wire_type_range tag_value) as Hrange.
  field_paths H; result_eq H Hr Ho He; subst r offset' evs;
    try (apply read_wire_value_inv in Hwire);
    try (apply read_wire_value_failed in Hwire);
    try (apply read_wire_value_throws in Hwire);
    specialize (Hrange tag_value);
    destruct (tvb_get_varint tvb (guint (offset + tag_length)) (guint (maxlen - tag_length)))
      as [len x];
    wire_types; cbn [In fst] in *.
  - (* the tag does not parse *)
    split; [split; auto|]. intros Hnz; contradiction.
  - (* the value is read and dissected *)
    value_was_read Hwire.
  - value_was_read Hwire.
  - value_was_read Hwire.
  - (* the bytes of the value are not in the buffer *)
    value_was_read Hwire.
  - (* the switch on the wire type fails *)
    pose proof (field_header_plain prefs offset tag_length tag_value
                  (find_field_desc pbw_pool message_desc (Z.shiftr tag_value 3)))
      as (_ & Fe & _).
    rewrite experts_app, Fe.
    destruct Hwire as [(Hw & Hv & -> & ->) | [(Hw & Hv & -> & ->) | (H0 & H1 & H2 & H5 & -> & ->)]].
    + rewrite Hw. split; [split; auto 6|]. intros _ Hin. exfalso. intuition lia.
    + rewrite Hw. split; [split; auto 6|]. intros _ Hin. exfalso. intuition lia.
    + split; [split; [intros _; right; left; lia | reflexivity]|].
      intros _ _. split; reflexivity.
  - (* a fixed-width value is not in the buffer *)
    split; [split; [discriminate|]|]; destruct Hwire as [Hw | Hw]; rewrite Hw;
      intuition lia.
Qed.

(** ** The cursor of a field that fails *)

(** The cursor of a field whose value was read: past the tag, and past the
    length prefix of a length-delimited field. *)
Ltac value_cursor Hwire Hprefix :=
  apply read_wire_value_inv in Hwire; wire_types;
  destruct Hwire as [(Hw & -> & _) | [(Hw & -> & _) | [(Hw & -> & _) | (Hw & _ & Hv & Hnz)]]];
  rewrite Hw; cbn [Z.eqb andb]; rewrite ?Z.add_0_r; try (apply guint_small; lia);
  rewrite Hprefix in Hv; inversion Hv; subst;
  pose proof (tvb_get_varint_found _ _ _ _ _ Hprefix Hnz) as (Hp1 & Hp2 & Hp3 & Hp4);
  match goal with
  | |- context [?l =? 0] => destruct (Z.eqb_spec l 0); [contradiction|]
  end;
  cbn [negb]; split; [lia|]; split; [apply guint_small; lia | discriminate].

(** C10.  When the field decoder does not succeed, the cursor is not
    restored.  If the tag varint fails to parse, the decoder returns false
    and the cursor is unchanged.  After a valid tag the cursor has advanced
    past the tag bytes: it stays there when the wire type is invalid, when
    the value varint or the length prefix fails to parse (the decoder
    returns false), and when a fixed-width value is cut short by the end of
    the buffer.  For a LENGTH_DELIMITED field whose length prefix parsed, the
    cursor has also advanced past the prefix; the failure is then that of
    the read of the value bytes, which is not reported by a false result. *)
Theorem failed_field_cursor prefs pbw_pool tvb dissect_message
    offset maxlen message_desc r offset' evs :
  tvb_length tvb < 2 ^ 32 ->
  dissect_one_protobuf_field prefs pbw_pool tvb dissect_message offset maxlen message_desc
    = (r, offset', evs) ->
  r <> Returns true ->
  let '(tag_length, tag_value) := tvb_get_varint tvb offset maxlen in
  let '(prefix_length, _) :=
    tvb_get_varint tvb (offset + tag_length) (guint (maxlen - tag_length)) in
  if tag_length =? 0 then r = Returns false /\ offset' = offset
  else
    1 <= tag_length /\
    if (Z.land tag_value 7 =? PROTOBUF_WIRETYPE_LENGTH_DELIMITED)
       && negb (prefix_length =? 0)
    then 1 <= prefix_length /\ offset' = offset + tag_length + prefix_length /\
         r <> Returns false
    else offset' = offset + tag_length.
Proof.
  intros Hfit H Hr.
  field_paths H; result_eq H Hr' Ho He; subst r offset' evs;
    try congruence;
    try (pose proof (tvb_get_varint_found _ _ _ _ _ Htag Hlen) as (Ht1 & Ht2 & Ht3 & Ht4);
         rewrite (guint_small (offset + tag_length)) in * by lia);
    destruct (tvb_get_varint tvb (offset + tag_length) (guint (maxlen - tag_length)))
      as [prefix_length x] eqn:Hprefix;
    (destruct (Z.eqb_spec tag_length 0) as [Hz | Hnz0];
     [try contradiction | first [contradiction | split; [lia|]]]).
  - (* the tag does not parse *)
    auto.
  - (* the value is read, and a later read throws *)
    value_cursor Hwire Hprefix.
  - value_cursor Hwire Hprefix.
  - (* the bytes of the value are not in the buffer *)
    value_cursor Hwire Hprefix.
  - (* the switch on the wire type fails *)
    apply read_wire_value_failed in Hwire. wire_types.
    rewrite Hprefix in Hwire. cbn [fst] in Hwire.
    destruct Hwire as [(Hw & Hv & _) | [(Hw & Hv & _) | (H0 & H1 & H2 & H5 & _)]].
    + rewrite Hw. reflexivity.
    + rewrite Hw, Hv. reflexivity.
    + destruct (Z.eqb_spec (Z.land tag_value 7) 2); [contradiction|]. reflexivity.
  - (* a fixed-width value is not in the buffer *)
    apply read_wire_value_throws in Hwire. wire_types.
    destruct Hwire as [Hw | Hw]; rewrite Hw; reflexivity.
Qed.

Lemma failed_field_cursor_witness :
  tvb_length Fixtures.tvb_start_group < 2 ^ 32 /\
  (exists evs,
     Fixtures.dissect_field Fixtures.prefs_default Fixtures.pool_M
       Fixtures.tvb_start_group 0 2 None = (Returns false, 1, evs)) /\
  let '(tag_length, tag_value) := tvb_get_varint Fixtures.tvb_start_group 0 2 in
  let '(prefix_length, _) :=
    tvb_get_varint Fixtures.tvb_start_group (0 + tag_length) (guint (2 - tag_length)) in
  if tag_length =? 0 then Returns false = Returns false /\ 1 = 0
  else
    1 <= tag_length /\
    if (Z.land tag_value 7 =? PROTOBUF_WIRETYPE_LENGTH_DELIMITED)
       && negb (prefix_length =? 0)
    then 1 <= prefix_length /\ 1 = 0 + tag_length + prefix_length /\
         Returns false <> Returns false
    else 1 = 0 + tag_length.
Proof.
  split; [vm_compute; reflexivity|].
  split; [eexists; vm_compute; reflexivity|].
  eapply (failed_field_cursor Fixtures.prefs_default Fixtures.pool_M
            Fixtures.tvb_start_group
            (Fixtures.nested Fixtures.prefs_default Fixtures.pool_M Fixtures.tvb_start_group)
            0 2 None (Returns false) 1).
  - vm_compute; reflexivity.
  - vm_compute; reflexivity.
  - discriminate.
Defined.

(** ** Unknown fields *)

(** C9.  For every unknown field decoded with show_all_possible_field_types
    off, exactly one representative declared type is chosen: STRING when the
    wire type is LENGTH_DELIMITED and try_dissect_as_string is on; NONE (the
    raw bytes only, no typed leaf and no type named) when the wire type is
    LENGTH_DELIMITED and try_dissect_as_string is off; UINT32 when the wire
    type is VARINT, FIXED32 or FIXED64 and the raw 64-bit value is at most
    0xFFFFFFFF; and UINT64 otherwise. *)
Theorem unknown_field_representative_type prefs pbw_pool tvb dissect_message
    offset maxlen message_desc offset' evs
    tag_length tag_value value_length value_length_size value_uint64 :
  tvb_length tvb < 2 ^ 32 ->
  show_all_possible_field_types prefs = false ->
  dissect_one_protobuf_field prefs pbw_pool tvb dissect_message offset maxlen message_desc
    = (Returns true, offset', evs) ->
  tvb_get_varint tvb offset maxlen = (tag_length, tag_value) ->
  find_field_desc pbw_pool message_desc (Z.shiftr tag_value 3) = None ->
  read_wire_value tvb (Z.land tag_value 7) (offset + tag_length)
    (guint (maxlen - tag_length))
    = WireValue value_length value_length_size value_uint64 ->
  let wire_type := Z.land tag_value 7 in
  if wire_type =? PROTOBUF_WIRETYPE_LENGTH_DELIMITED then
    if try_dissect_as_string prefs
    then datatypes evs = [PROTOBUF_TYPE_STRING] /\
         exists bytes,
           value_leaves evs
           = [proto_tree_add hf_protobuf_value_string
                (offset + tag_length + value_length_size) value_length (ValString bytes)]
    else datatypes evs = [] /\ value_leaves evs = [] /\
         In (proto_tree_add hf_protobuf_value_data
               (offset + tag_length + value_length_size) value_length ValBytes) evs
  else
    (wire_type = PROTOBUF_WIRETYPE_VARINT \/ wire_type = PROTOBUF_WIRETYPE_FIXED32 \/
     wire_type = PROTOBUF_WIRETYPE_FIXED64) /\
    if value_uint64 <=? 4294967295
    then datatypes evs = [PROTOBUF_TYPE_UINT32]
    else datatypes evs = [PROTOBUF_TYPE_UINT64].
Proof.
  intros Hfit Hshow H Htag Hdesc Hwire wire_type.
  apply dissect_one_true_inv in H; [|exact Hfit].
  destruct H as (tl & tv & vl & vls & v & head & evs_v
                 & Htag' & _ & Hwire' & _ & _ & Hvalue & _ & -> & Hd & _ & Hl & _ & _ & Hraw).
  rewrite Htag in Htag'. inversion Htag'; subst tl tv; clear Htag'.
  rewrite Hwire in Hwire'. inversion Hwire'; subst vl vls v; clear Hwire'.
  rewrite Hdesc in Hvalue.
  unfold dissect_field_value_by_desc, fallback_field_type in Hvalue.
  rewrite Hshow in Hvalue. fold wire_type in Hvalue.
  rewrite datatypes_app, value_leaves_app, Hd, Hl. cbn [app].
  destruct (Z.eqb_spec wire_type PROTOBUF_WIRETYPE_LENGTH_DELIMITED) as [Hld | Hld].
  - destruct (try_dissect_as_string prefs).
    + cbn in Hvalue.
      destruct (tvb_bytes tvb (offset + tag_length + value_length_size) value_length)
        as [bytes|]; [|discriminate].
      inversion Hvalue; subst evs_v. split; [reflexivity|].
      exists bytes. reflexivity.
    + cbn in Hvalue. inversion Hvalue; subst evs_v.
      split; [reflexivity|]. split; [reflexivity|].
      rewrite app_nil_r. exact Hraw.
  - split.
    { apply read_wire_value_inv in Hwire. fold wire_type in Hwire. tauto. }
    destruct (value_uint64 <=? 4294967295); cbn in Hvalue;
      inversion Hvalue; subst evs_v; reflexivity.
Qed.

Lemma unknown_field_representative_type_witness :
  exists evs,
    Fixtures.dissect_field Fixtures.prefs_default Fixtures.pool_M
      Fixtures.tvb_int32 0 3 None = (Returns true, 3, evs) /\
    ((Z.land 8 7 = PROTOBUF_WIRETYPE_VARINT \/ Z.land 8 7 = PROTOBUF_WIRETYPE_FIXED32 \/
      Z.land 8 7 = PROTOBUF_WIRETYPE_FIXED64) /\
     datatypes evs = [PROTOBUF_TYPE_UINT32]).
Proof.
  eexists. split; [vm_compute; reflexivity|].
  eapply (unknown_field_representative_type Fixtures.prefs_default Fixtures.pool_M
            Fixtures.tvb_int32
            (Fixtures.nested Fixtures.prefs_default Fixtures.pool_M Fixtures.tvb_int32)
            0 3 None 3 _ 1 8 2 0 150).
  - vm_compute; reflexivity.
  - reflexivity.
  - vm_compute; reflexivity.
  - vm_compute; reflexivity.
  - reflexivity.
  - vm_compute; reflexivity.
Defined.

(** C1, on the code.  The row of the wire type FIXED32 in
    [protobuf_wire_to_field_type] lists SINT32 where the comments of the
    dissector ("32-bit (fixed32, sfixed32, float)") and the design document
    have SFIXED32: an unknown 32-bit field decoded with
    show_all_possible_field_types on is shown as FIXED32, SINT32 and FLOAT,
    the second leaf being the zig-zag decoding of the value. *)
Theorem unknown_fixed32_shown_as_sint32 :
  wire_to_field_type_row PROTOBUF_WIRETYPE_FIXED32
  = [PROTOBUF_TYPE_FIXED32; PROTOBUF_TYPE_SINT32; PROTOBUF_TYPE_FLOAT; PROTOBUF_TYPE_NONE] /\
  exists evs,
    Fixtures.dissect_field Fixtures.prefs_show_all Fixtures.pool_M
      Fixtures.tvb_fixed32 0 5 None = (Returns true, 5, evs) /\
    datatypes evs = [PROTOBUF_TYPE_FIXED32; PROTOBUF_TYPE_SINT32; PROTOBUF_TYPE_FLOAT] /\
    value_leaves evs
    = [proto_tree_add hf_protobuf_value_uint32 1 4 (ValUint 1);
       proto_tree_add hf_protobuf_value_int32 1 4 (ValInt (-1));
       proto_tree_add hf_protobuf_value_float 1 4 (ValFloat 1)].
Proof.
  split; [reflexivity|].
  eexists. split; [vm_compute; reflexivity|].
  split; vm_compute; reflexivity.
Qed.

(** Every unknown 32-bit field is shown so. *)
Lemma unknown_fixed32_shown_types prefs pbw_pool tvb dissect_message
    offset maxlen message_desc offset' evs
    tag_length tag_value :
  tvb_length tvb < 2 ^ 32 ->
  show_all_possible_field_types prefs = true ->
  dissect_one_protobuf_field prefs pbw_pool tvb dissect_message offset maxlen message_desc
    = (Returns true, offset', evs) ->
  tvb_get_varint tvb offset maxlen = (tag_length, tag_value) ->
  find_field_desc pbw_pool message_desc (Z.shiftr tag_value 3) = None ->
  Z.land tag_value 7 = PROTOBUF_WIRETYPE_FIXED32 ->
  datatypes evs = [PROTOBUF_TYPE_FIXED32; PROTOBUF_TYPE_SINT32; PROTOBUF_TYPE_FLOAT].
Proof.
  intros Hfit Hshow H Htag Hdesc Hw.
  apply dissect_one_true_inv in H; [|exact Hfit].
  destruct H as (tl & tv & vl & vls & v & head & evs_v
                 & Htag' & _ & _ & _ & _ & Hvalue & _ & -> & Hd & _).
  rewrite Htag in Htag'. inversion Htag'; subst tl tv; clear Htag'.
  rewrite Hdesc, Hw in Hvalue.
  unfold dissect_field_value_by_desc in Hvalue. rewrite Hshow in Hvalue.
  cbn in Hvalue. inversion Hvalue; subst evs_v.
  rewrite datatypes_app, Hd. reflexivity.
Qed.

(** ** Packed repeated fields *)

(** C2, as the design document has it: the packed-repeated expander would
    be called for the wire type LENGTH_DELIMITED only.  Field 4 of [M] is
    repeated and packed; sent as a single varint (wire type VARINT), its
    value is given to the expander, which adds the "Repeated" subtree over
    the byte of the varint. *)
Lemma packed_expander_on_varint_wire_type :
  exists evs,
    Fixtures.dissect_field Fixtures.prefs_default Fixtures.pool_M
      Fixtures.tvb_unpacked 0 2 (Some Fixtures.M) = (Returns true, 2, evs) /\
    Z.land (snd (tvb_get_varint Fixtures.tvb_unpacked 0 2)) 7 = PROTOBUF_WIRETYPE_VARINT /\
    repeated_ranges evs = [(1, 1)].
Proof.
  eexists. split; [vm_compute; reflexivity|].
  split; vm_compute; reflexivity.
Qed.

(** C2, amended.  For every field whose resolved field descriptor has both
    is_repeated and is_packed set, and whose value is read, the field decoder
    invokes the packed-repeated expander over the value bytes whatever the
    observed wire type, which it passes on; the ordinary value renderer is
    invoked for the resolved fields that are not both repeated and packed. *)
Theorem resolved_field_value_dissection prefs pbw_pool tvb dissect_message
    offset maxlen message_desc offset' evs tag_length tag_value fd :
  tvb_length tvb < 2 ^ 32 ->
  dissect_one_protobuf_field prefs pbw_pool tvb dissect_message offset maxlen message_desc
    = (Returns true, offset', evs) ->
  tvb_get_varint tvb offset maxlen = (tag_length, tag_value) ->
  find_field_desc pbw_pool message_desc (Z.shiftr tag_value 3) = Some fd ->
  exists value_length value_length_size value_uint64 head evs_value,
    read_wire_value tvb (Z.land tag_value 7) (offset + tag_length)
      (guint (maxlen - tag_length))
      = WireValue value_length value_length_size value_uint64 /\
    evs = head ++ evs_value /\
    repeated_ranges head = [] /\ value_leaves head = [] /\
    if pbw_FieldDescriptor_is_packed fd && pbw_FieldDescriptor_is_repeated fd
    then
      exists consumed,
        dissect_packed_repeated_field_values prefs tvb dissect_message
          (offset + tag_length + value_length_size) value_length (Z.land tag_value 7)
          (pbw_FieldDescriptor_type fd) "" (Some fd) = (Returns consumed, evs_value)
    else
      protobuf_dissect_field_value prefs tvb dissect_message
        (offset + tag_length + value_length_size) value_length
        (pbw_FieldDescriptor_type fd) value_uint64 "" (Some fd) = (Returns tt, evs_value).
Proof.
  intros Hfit H Htag Hdesc.
  apply dissect_one_true_inv in H; [|exact Hfit].
  destruct H as (tl & tv & vl & vls & v & head & evs_v
                 & Htag' & _ & Hwire & _ & _ & Hvalue & _ & -> & _ & _ & Hl & Hr & _).
  rewrite Htag in Htag'. inversion Htag'; subst tl tv; clear Htag'.
  rewrite Hdesc in Hvalue. unfold dissect_field_value_by_desc in Hvalue.
  exists vl, vls, v, head, evs_v.
  split; [exact Hwire|]. split; [reflexivity|]. split; [exact Hr|]. split; [exact Hl|].
  destruct (pbw_FieldDescriptor_is_packed fd && pbw_FieldDescriptor_is_repeated fd).
  - destruct (dissect_packed_repeated_field_values prefs tvb dissect_message
                (offset + tag_length + vls) vl (Z.land tag_value 7)
                (pbw_FieldDescriptor_type fd) "" (Some fd)) as [[consumed | | ] evs_p];
      inversion Hvalue; subst.
    exists consumed. reflexivity.
  - destruct (protobuf_dissect_field_value prefs tvb dissect_message
                (offset + tag_length + vls) vl (pbw_FieldDescriptor_type fd) v ""
                (Some fd)) as [[[] | | ] evs_p] eqn:Hp; exact Hvalue.
Qed.

Lemma resolved_field_value_dissection_witness :
  exists value_length value_length_size value_uint64 head evs_value,
    read_wire_value Fixtures.tvb_unpacked (Z.land 32 7) (0 + 1) (guint (2 - 1))
      = WireValue value_length value_length_size value_uint64 /\
    (exists evs,
       Fixtures.dissect_field Fixtures.prefs_default Fixtures.pool_M
         Fixtures.tvb_unpacked 0 2 (Some Fixtures.M) = (Returns true, 2, evs) /\
       evs = head ++ evs_value) /\
    exists consumed,
      Fixtures.dissect_packed Fixtures.prefs_default Fixtures.pool_M Fixtures.tvb_unpacked
        (0 + 1 + value_length_size) value_length (Z.land 32 7) PROTOBUF_TYPE_INT32
        (Some (Fixtures.field "v" PROTOBUF_TYPE_INT32 true true None))
      = (Returns consumed, evs_value).
Proof.
  destruct (resolved_field_value_dissection Fixtures.prefs_default Fixtures.pool_M
              Fixtures.tvb_unpacked
              (Fixtures.nested Fixtures.prefs_default Fixtures.pool_M Fixtures.tvb_unpacked)
              0 2 (Some Fixtures.M) 2
              (snd (Fixtures.dissect_field Fixtures.prefs_default Fixtures.pool_M
                      Fixtures.tvb_unpacked 0 2 (Some Fixtures.M)))
              1 32 (Fixtures.field "v" PROTOBUF_TYPE_INT32 true true None))
    as (vl & vls & v & head & evs_v & Hw & He & _ & _ & Hp).
  - vm_compute; reflexivity.
  - vm_compute; reflexivity.
  - vm_compute; reflexivity.
  - reflexivity.
  - exists vl, vls, v, head, evs_v.
    split; [exact Hw|]. split; [|exact Hp].
    eexists. split; [vm_compute; reflexivity|]. exact He.
Defined.

(** ** Value renderer and packed-repeated expander *)

(** Traces without a "Message" subtree. *)
Ltac plain_trace :=
  repeat match goal with
         | |- messages_in _ _ _ => unfold messages_in
         | |- Forall _ [] => apply Forall_nil
         | |- Forall _ (_ :: _) => apply Forall_cons; [exact I|]
         | |- Forall _ (_ ++ _) => apply Forall_app; split
         | |- Forall _ (if ?b then _ else _) => destruct b
         end.

Section Expander.

Variable prefs : preferences.
Variable tvb : tvbuff_t.
Variable dissect_message : Z -> Z -> PbwDescriptor -> outcome unit * trace.

Hypothesis tvb_fits : tvb_length tvb < 2 ^ 32.

Lemma tvb_get_letohl_in_range offset :
  0 <= offset -> offset + 4 <= tvb_length tvb ->
  exists v, tvb_get_letohl tvb offset = Some v.
Proof.
  intros H0 H4. unfold tvb_get_letohl.
  destruct (tvb_bytes_in_range tvb offset 4) as [bs ->]; try lia.
  eexists. reflexivity.
Qed.

Lemma tvb_get_letoh64_in_range offset :
  0 <= offset -> offset + 8 <= tvb_length tvb ->
  exists v, tvb_get_letoh64 tvb offset = Some v.
Proof.
  intros H0 H8. unfold tvb_get_letoh64.
  destruct (tvb_bytes_in_range tvb offset 8) as [bs ->]; try lia.
  eexists. reflexivity.
Qed.

(** A value of a fixed-width type is always rendered, as one typed leaf. *)
Lemma render_fixed offset length t stride value prepend_text field_desc :
  fixed_stride t = Some stride ->
  exists evs,
    protobuf_dissect_field_value prefs tvb dissect_message offset length t value
      prepend_text field_desc = (Returns tt, evs) /\
    List.length (value_leaves evs) = 1%nat /\ experts evs = [] /\
    forall o, messages_in tvb o evs.
Proof.
  intros Ht.
  destruct t; try discriminate; cbn; eexists;
    (split; [reflexivity|]); (split; [reflexivity|]); (split; [reflexivity|]);
    intros o; plain_trace.
Qed.

(** A value of a varint-packable type is always rendered, without a
    diagnostic. *)
Lemma render_varint offset length t value prepend_text field_desc :
  In t varint_packable ->
  exists evs,
    protobuf_dissect_field_value prefs tvb dissect_message offset length t value
      prepend_text field_desc = (Returns tt, evs) /\
    experts evs = [] /\ forall o, messages_in tvb o evs.
Proof.
  intros Ht. unfold protobuf_dissect_field_value.
  cbn in Ht. destruct Ht as [<-|[<-|[<-|[<-|[<-|[<-|[<-|[<-|[]]]]]]]]].
  1-6: eexists; (split; [reflexivity|]); (split; [reflexivity|]); intros o; plain_trace.
  - destruct (1 <? length);
      eexists; (split; [reflexivity|]); (split; [reflexivity|]); intros o; plain_trace.
  - destruct field_desc as [fd|];
      [destruct (pbw_FieldDescriptor_enum_type fd) as [e|];
       [destruct (pbw_EnumDescriptor_FindValueByNumber e (gint32 value))|]|];
      eexists; (split; [reflexivity|]); (split; [reflexivity|]); intros o; plain_trace.
Qed.

(** The first pass over a packed varint field ends. *)
Lemma packed_varint_scan_ends fuel :
  forall offset max_offset,
    (0 < fuel)%nat -> max_offset - offset < Z.of_nat fuel ->
    packed_varint_scan tvb fuel offset max_offset <> Exhausted.
Proof.
  induction fuel as [|fuel IH]; intros offset max_offset Hpos Hfuel; [lia|].
  cbn [packed_varint_scan].
  destruct (Z.ltb_spec offset max_offset) as [Hlt | Hge]; [|discriminate].
  destruct (tvb_get_varint tvb offset (guint (max_offset - offset))) as [len v] eqn:Hv.
  destruct (Z.eqb_spec len 0) as [Hz | Hnz]; [discriminate|].
  apply tvb_get_varint_found in Hv; [|exact Hnz].
  rewrite (guint_small (offset + len)) by lia.
  specialize (IH (offset + len) max_offset).
  destruct (packed_varint_scan tvb fuel (offset + len) max_offset) as [[l|] | | ];
    try discriminate.
  apply IH; lia.
Qed.

(** It reads through [tvb_get_varint] only, which does not throw. *)
Lemma packed_varint_scan_no_throw fuel :
  forall offset max_offset, packed_varint_scan tvb fuel offset max_offset <> Throws.
Proof.
  induction fuel as [|fuel IH]; intros o m; cbn [packed_varint_scan]; [discriminate|].
  destruct (o <? m); [|discriminate].
  destruct (tvb_get_varint tvb o (guint (m - o))) as [len v].
  destruct (len =? 0); [discriminate|].
  specialize (IH (guint (o + len)) m).
  destruct (packed_varint_scan tvb fuel (guint (o + len)) m) as [[l|] | | ];
    try discriminate. congruence.
Qed.

(** The second pass renders every varint, without a diagnostic. *)
Lemma packed_varint_add_renders varint_list :
  forall t prepend_text field_desc,
    In t varint_packable ->
    exists evs,
      packed_varint_add prefs tvb dissect_message varint_list t prepend_text field_desc
        = (Returns tt, evs) /\
      experts evs = [] /\ forall o, messages_in tvb o evs.
Proof.
  induction varint_list as [|info rest IH]; intros t prepend_text field_desc Ht.
  - exists []. split; [reflexivity|]. split; [reflexivity|]. intros o; plain_trace.
  - cbn [packed_varint_add].
    destruct (render_varint (info_offset info) (info_length info) t (info_value info)
                prepend_text field_desc Ht) as (evs1 & -> & He1 & Hm1).
    destruct (IH t ","%string field_desc Ht) as (evs2 & -> & He2 & Hm2).
    exists (evs1 ++ evs2). split; [reflexivity|].
    split; [rewrite experts_app, He1, He2; reflexivity|].
    intros o. apply Forall_app. split; [apply Hm1 | apply Hm2].
Qed.

(** The loop over a packed fixed-width field of [n] values: it adds no
    diagnostic; it ends, with [n] typed leaves unless a read leaves the
    buffer; and no read leaves the buffer when the last one, of four bytes
    for the wire type FIXED32 and of eight otherwise, does not. *)
Lemma packed_fixed_add_spec t stride wire_type field_desc :
  fixed_stride t = Some stride ->
  forall n fuel offset prepend_text,
    0 <= offset -> offset + Z.of_nat n * stride < 2 ^ 32 -> (n < fuel)%nat ->
    exists r evs,
      packed_fixed_add prefs tvb dissect_message fuel offset
        (offset + Z.of_nat n * stride) stride wire_type t prepend_text field_desc
        = (r, evs) /\
      experts evs = [] /\ (forall o, messages_in tvb o evs) /\
      (r = Throws \/ (r = Returns tt /\ List.length (value_leaves evs) = n)) /\
      (n = 0%nat \/
       offset + Z.of_nat n * stride - stride
         + (if wire_type =? PROTOBUF_WIRETYPE_FIXED32 then 4 else 8) <= tvb_length tvb ->
       r = Returns tt).
Proof.
  intros Ht.
  assert (Hs : 4 <= stride) by (destruct t; inversion Ht; lia).
  induction n as [|n IH]; intros fuel offset prepend_text Ho Hmax Hfuel.
  - destruct fuel as [|fuel]; [lia|]. cbn [packed_fixed_add].
    replace (offset + Z.of_nat 0 * stride) with offset by lia.
    rewrite Z.ltb_irrefl.
    exists (Returns tt), []. split; [reflexivity|]. split; [reflexivity|].
    split; [intros o; plain_trace|]. split; [right; split; reflexivity | reflexivity].
  - destruct fuel as [|fuel]; [lia|]. cbn [packed_fixed_add].
    destruct (Z.ltb_spec offset (offset + Z.of_nat (S n) * stride)) as [_ | Hge]; [|nia].
    set (read := if wire_type =? PROTOBUF_WIRETYPE_FIXED32
                 then tvb_get_letohl tvb offset else tvb_get_letoh64 tvb offset).
    destruct read as [value|] eqn:Hread.
    + destruct (render_fixed offset stride t stride value prepend_text field_desc Ht)
        as (evs1 & Hr1 & Hl1 & He1 & Hm1).
      rewrite Hr1.
      rewrite (guint_small (offset + stride)) by nia.
      replace (offset + Z.of_nat (S n) * stride)
        with ((offset + stride) + Z.of_nat n * stride) by lia.
      destruct (IH fuel (offset + stride) ","%string) as (r & evs2 & -> & He2 & Hm2 & Hr2 & Hin2);
        try lia.
      exists r, (evs1 ++ evs2). split; [reflexivity|].
      split; [rewrite experts_app, He1, He2; reflexivity|].
      split; [intros o; apply Forall_app; split; [apply Hm1 | apply Hm2]|].
      split.
      * destruct Hr2 as [-> | [-> Hl2]]; [left; reflexivity|].
        right. split; [reflexivity|].
        rewrite value_leaves_app, length_app, Hl1, Hl2. reflexivity.
      * intros [Hin | Hin]; [discriminate|]. apply Hin2. right. lia.
    + exists Throws, []. split; [reflexivity|]. split; [reflexivity|].
      split; [intros o; plain_trace|]. split; [left; reflexivity|].
      intros [Hin | Hin]; [discriminate|]. exfalso. unfold read in Hread.
      destruct (wire_type =? PROTOBUF_WIRETYPE_FIXED32).
      * destruct (tvb_get_letohl_in_range offset) as [v Hv]; [lia | nia | congruence].
      * destruct (tvb_get_letoh64_in_range offset) as [v Hv]; [lia | nia | congruence].
Qed.

(** The block of the fixed-width types. *)
Lemma dissect_packed_fixed_spec subtree start length wire_type t stride field_desc :
  fixed_stride t = Some stride ->
  0 <= start -> 0 <= length -> start + length <= tvb_length tvb ->
  exists r evs,
    dissect_packed_fixed prefs tvb dissect_message subtree start length
      (guint (start + length)) stride wire_type t field_desc = (r, evs) /\
    (length mod stride <> 0 ->
     r = Returns 0 /\
     evs = subtree ++ [expert_add_info ti_field et_protobuf_failed_parse_packed_repeated_field]) /\
    (length mod stride = 0 ->
     exists body,
       experts body = [] /\ (forall o, messages_in tvb o body) /\
       ((r = Throws /\ evs = subtree ++ body) \/
        (r = Returns length /\
         evs = subtree ++ body ++ [proto_item_append_text LblClose] /\
         Z.of_nat (List.length (value_leaves body)) = length / stride)) /\
       (length = 0 \/
        start + length - stride
          + (if wire_type =? PROTOBUF_WIRETYPE_FIXED32 then 4 else 8) <= tvb_length tvb ->
        r = Returns length)).
Proof.
  intros Ht Hs Hl Hend.
  assert (Hk : 4 <= stride) by (destruct t; inversion Ht; lia).
  unfold dissect_packed_fixed.
  destruct (Z.eqb_spec (length mod stride) 0) as [Hm | Hm]; cbn [negb].
  - set (n := Z.to_nat (length / stride)).
    assert (Hn : length = Z.of_nat n * stride).
    { unfold n. rewrite Z2Nat.id by (apply Z.div_pos; lia).
      pose proof (Z.div_mod length stride). lia. }
    rewrite (guint_small (start + length)) by lia.
    destruct (packed_fixed_add_spec t stride wire_type field_desc Ht n
                (S (Z.to_nat length)) start ""%string)
      as (r & body & Hrun & He & Hmsg & Hr & Hin); try lia.
    { rewrite Hn. nia. }
    rewrite <- Hn in Hrun, Hin. rewrite Hrun.
    assert (Hdiv : length / stride = Z.of_nat n)
      by (unfold n; rewrite Z2Nat.id by (apply Z.div_pos; lia); reflexivity).
    destruct Hr as [-> | [-> Hleaves]]; cbn [packed_finish].
    + do 2 eexists. split; [reflexivity|]. split; [intros; contradiction|].
      intros _. exists body. split; [exact He|]. split; [exact Hmsg|].
      split; [left; split; reflexivity|].
      intros Hok. exfalso.
      assert (Hthrow : @Throws unit = Returns tt); [|discriminate].
      apply Hin. destruct Hok as [H0 | Hok]; [left|right; exact Hok].
      apply Nat2Z.inj. rewrite <- Hdiv, H0. apply Zdiv_0_l.
    + do 2 eexists. split; [reflexivity|]. split; [intros; contradiction|].
      intros _. exists body. split; [exact He|]. split; [exact Hmsg|].
      split; [|reflexivity].
      right. split; [reflexivity|]. split; [reflexivity|]. lia.
  - do 2 eexists. split; [reflexivity|].
    split; [intros _; split; reflexivity | intros; contradiction].
Qed.

(** The block of the varint types ends, and when it does not dissect the
    values it leaves the subtree alone, without a diagnostic. *)
Lemma dissect_packed_varint_spec subtree start length t field_desc :
  In t varint_packable ->
  0 <= start -> 0 <= length -> start + length <= tvb_length tvb ->
  exists r evs,
    dissect_packed_varint prefs tvb dissect_message subtree start length
      (guint (start + length)) t field_desc = (r, evs) /\
    ((packed_varint_scan tvb (S (Z.to_nat length)) start (guint (start + length))
      = Returns None /\ r = Returns 0 /\ evs = subtree) \/
     (exists body,
        r = Returns length /\
        evs = subtree ++ body ++ [proto_item_append_text LblClose] /\
        experts body = [] /\ forall o, messages_in tvb o body)).
Proof.
  intros Ht Hs Hl Hend. unfold dissect_packed_varint.
  rewrite (guint_small (start + length)) by lia.
  pose proof (packed_varint_scan_ends (S (Z.to_nat length)) start (start + length))
    as Hends.
  destruct (packed_varint_scan tvb (S (Z.to_nat length)) start (start + length))
    as [[varint_list|] | | ] eqn:Hscan.
  - destruct (packed_varint_add_renders varint_list t ""%string field_desc Ht)
      as (body & -> & He & Hm).
    cbn [packed_finish]. do 2 eexists. split; [reflexivity|].
    right. exists body. auto.
  - do 2 eexists. split; [reflexivity|]. left. auto.
  - exfalso. eapply packed_varint_scan_no_throw. eassumption.
  - exfalso. apply Hends; [lia | lia | reflexivity].
Qed.

(** The expander ends; it adds no "Message" subtree. *)
Lemma dissect_packed_ends start length wire_type t prepend_text field_desc :
  exists r evs,
    dissect_packed_repeated_field_values prefs tvb dissect_message start length
      wire_type t prepend_text field_desc = (r, evs) /\
    r <> Exhausted /\ forall o, messages_in tvb o evs.
Proof.
  unfold dissect_packed_repeated_field_values.
  destruct (tvb_bytes tvb start length) as [bs|] eqn:Hb.
  2:{ do 2 eexists. split; [reflexivity|]. split; [discriminate|].
      intros o; plain_trace. }
  apply tvb_bytes_some in Hb. destruct Hb as (Hs & Hl & Hend).
  assert (Hsub : forall o, messages_in tvb o (packed_subtree start length prepend_text))
    by (intros o; unfold packed_subtree; plain_trace).
  assert (Hv : In t varint_packable ->
               exists r evs,
                 dissect_packed_varint prefs tvb dissect_message
                   (packed_subtree start length prepend_text) start length
                   (guint (start + length)) t field_desc = (r, evs) /\
                 r <> Exhausted /\ forall o, messages_in tvb o evs).
  { intros Ht.
    destruct (dissect_packed_varint_spec (packed_subtree start length prepend_text)
                start length t field_desc Ht Hs Hl Hend)
      as (r & evs & -> & [(_ & -> & ->) | (body & -> & -> & _ & Hm)]);
      do 2 eexists; (split; [reflexivity|]); (split; [discriminate|]).
    - exact Hsub.
    - intros o. apply Forall_app. split; [apply Hsub|].
      apply Forall_app. split; [apply Hm | plain_trace]. }
  assert (Hf : forall stride, fixed_stride t = Some stride ->
               exists r evs,
                 dissect_packed_fixed prefs tvb dissect_message
                   (packed_subtree start length prepend_text) start length
                   (guint (start + length)) stride wire_type t field_desc = (r, evs) /\
                 r <> Exhausted /\ forall o, messages_in tvb o evs).
  { intros stride Ht.
    destruct (dissect_packed_fixed_spec (packed_subtree start length prepend_text)
                start length wire_type t stride field_desc Ht Hs Hl Hend)
      as (r & evs & -> & Hbad & Hgood).
    do 2 eexists. split; [reflexivity|].
    destruct (Z.eq_dec (length mod stride) 0) as [Hm | Hm].
    - destruct (Hgood Hm) as (body & _ & Hmsg & [(-> & ->) | (-> & -> & _)] & _);
        (split; [discriminate|]); intros o; apply Forall_app; (split; [apply Hsub|]).
      + apply Hmsg.
      + apply Forall_app. split; [apply Hmsg | plain_trace].
    - destruct (Hbad Hm) as (-> & ->). split; [discriminate|].
      intros o. apply Forall_app. split; [apply Hsub | plain_trace]. }
  destruct t;
    try (apply Hv; cbn; tauto);
    try (apply (Hf 8); reflexivity);
    try (apply (Hf 4); reflexivity);
    do 2 eexists; (split; [reflexivity|]); (split; [discriminate|]);
    intros o; apply Forall_app; (split; [apply Hsub | plain_trace]).
Qed.

End Expander.




(** C3, on the code.  The payload 03 80 of a packed varint field holds the
    varint 3 and a varint that is cut: for each of the varint-packable
    types the expander returns 0 and adds no element, but it attaches no
    diagnostic, where the fixed-width types attach
    [failed_parse_packed_repeated_field] to a payload they cannot divide.
    The field decoder goes on as after a success. *)
Theorem packed_varint_failure_without_diagnostic :
  Forall (fun t =>
            Fixtures.dissect_packed Fixtures.prefs_default Fixtures.pool_M
              Fixtures.tvb_cut_varint 2 2 PROTOBUF_WIRETYPE_LENGTH_DELIMITED t None
            = (Returns 0, packed_subtree 2 2 ""))
         varint_packable /\
  experts (packed_subtree 2 2 "") = [] /\
  exists evs,
    Fixtures.dissect_field Fixtures.prefs_default Fixtures.pool_M
      Fixtures.tvb_cut_varint 0 4 (Some Fixtures.M) = (Returns true, 4, evs) /\
    experts evs = [] /\ value_leaves evs = [].
Proof.
  split; [repeat constructor|].
  split; [reflexivity|].
  eexists. split; [vm_compute; reflexivity|].
  split; vm_compute; reflexivity.
Qed.

(** ** Message decoder *)

Section MessageDecoder.

Variable prefs : preferences.
Variable pbw_pool : PbwDescriptorPool.
Variable tvb : tvbuff_t.

Hypothesis tvb_fits : tvb_length tvb < 2 ^ 32.

Lemma messages_in_later o o' evs :
  o' <= o -> messages_in tvb o evs -> messages_in tvb o' evs.
Proof.
  intros Hle H. unfold messages_in in *.
  eapply Forall_impl; [|exact H].
  intros [[] s l | | | | ]; cbn; auto. lia.
Qed.

Section Nested.

Variable dissect_message : Z -> Z -> PbwDescriptor -> outcome unit * trace.

(** The value renderer calls the message decoder on the range of the value
    only. *)
Lemma render_well_nested offset length t value prepend_text field_desc :
  (forall d, well_nested tvb offset (dissect_message offset length d)) ->
  well_nested tvb offset
    (protobuf_dissect_field_value prefs tvb dissect_message offset length t value
       prepend_text field_desc).
Proof.
  intros Hrec. unfold well_nested.
  destruct t; cbn;
    try (split; [discriminate | plain_trace]).
  - destruct (1 <? length); cbn; split; try discriminate; plain_trace.
  - destruct (tvb_bytes tvb offset length); cbn; split; try discriminate; plain_trace.
  - destruct field_desc as [fd|]; [|cbn; split; [discriminate | plain_trace]].
    destruct (pbw_FieldDescriptor_message_type fd) as [sub|];
      [|cbn; split; [discriminate | plain_trace]].
    destruct (Hrec sub) as [Hne Hm].
    destruct (dissect_message offset length sub) as [[[] | | ] evs]; cbn in *;
      split; try discriminate; try congruence; plain_trace; assumption.
  - destruct field_desc as [fd|]; [|cbn; split; [discriminate | plain_trace]].
    destruct (pbw_FieldDescriptor_message_type fd) as [sub|];
      [|cbn; split; [discriminate | plain_trace]].
    destruct (Hrec sub) as [Hne Hm].
    destruct (dissect_message offset length sub) as [[[] | | ] evs]; cbn in *;
      split; try discriminate; try congruence; plain_trace; assumption.
  - destruct (dissect_bytes_as_string prefs); cbn;
      [destruct (tvb_bytes tvb offset length); cbn|];
      split; try discriminate; plain_trace.
  - destruct field_desc as [fd|];
      [destruct (pbw_FieldDescriptor_enum_type fd) as [e|];
       [destruct (pbw_EnumDescriptor_FindValueByNumber e (gint32 value))|]|];
      cbn; split; try discriminate; plain_trace.
Qed.

(** Without a field descriptor it does not call it. *)
Lemma render_unknown offset length t value prepend_text :
  forall o,
    well_nested tvb o
      (protobuf_dissect_field_value prefs tvb dissect_message offset length t value
         prepend_text None).
Proof.
  intros o. unfold well_nested.
  destruct t; cbn;
    try (split; [discriminate | plain_trace]).
  - destruct (1 <? length); cbn; split; try discriminate; plain_trace.
  - destruct (tvb_bytes tvb offset length); cbn; split; try discriminate; plain_trace.
  - destruct (dissect_bytes_as_string prefs); cbn;
      [destruct (tvb_bytes tvb offset length); cbn|];
      split; try discriminate; plain_trace.
Qed.

Lemma multi_types_well_nested offset length value types :
  forall prepend_text o,
    well_nested tvb o
      (protobuf_try_dissect_field_value_on_multi_types prefs tvb dissect_message
         offset length types value prepend_text).
Proof.
  unfold well_nested.
  induction types as [|t types IH]; intros prepend_text o.
  - cbn. split; [discriminate | plain_trace].
  - assert (Hstep :
      (fun res => fst res <> Exhausted /\ messages_in tvb o (snd res))
        match protobuf_dissect_field_value prefs tvb dissect_message offset length t value
                prepend_text None with
        | (Returns _, evs) =>
            let '(r, evs') :=
              protobuf_try_dissect_field_value_on_multi_types prefs tvb dissect_message
                offset length types value "," in
            (r, evs ++ evs')
        | (r, evs) => (r, evs)
        end).
    { destruct (render_unknown offset length t value prepend_text o) as [Hne Hm].
      unfold well_nested in *.
      destruct (protobuf_dissect_field_value prefs tvb dissect_message offset length t value
                  prepend_text None) as [[[] | | ] evs]; cbn in *;
        try (split; [congruence | assumption]).
      destruct (IH ","%string o) as [Hne' Hm'].
      destruct (protobuf_try_dissect_field_value_on_multi_types prefs tvb dissect_message
                  offset length types value ",") as [r evs']; cbn in *.
      split; [assumption | apply Forall_app; split; assumption]. }
    destruct t; try exact Hstep.
    cbn. split; [discriminate | plain_trace].
Qed.

(** The end of the field decoder calls the message decoder on the range of
    the value only. *)
Lemma value_by_desc_well_nested field_desc offset value_length wire_type value :
  (forall d, well_nested tvb offset (dissect_message offset value_length d)) ->
  well_nested tvb offset
    (dissect_field_value_by_desc prefs tvb dissect_message field_desc offset value_length
       wire_type value).
Proof.
  intros Hrec. unfold dissect_field_value_by_desc.
  destruct field_desc as [fd|].
  - destruct (pbw_FieldDescriptor_is_packed fd && pbw_FieldDescriptor_is_repeated fd).
    + destruct (dissect_packed_ends prefs tvb dissect_message tvb_fits offset value_length
                  wire_type (pbw_FieldDescriptor_type fd) ""%string (Some fd))
        as (r & evs & -> & Hne & Hm).
      destruct r; split; cbn; try discriminate; try congruence; apply Hm.
    + apply render_well_nested. exact Hrec.
  - destruct (show_all_possible_field_types prefs); apply multi_types_well_nested.
Qed.

(** The value of a field is dissected after its tag, inside the buffer. *)
Lemma field_value_well_nested offset maxlen message_desc
    tag_length tag_value value_length value_length_size value_uint64 bytes r evs_value :
  (forall o l d, offset + 1 <= o -> 0 <= l -> o + l <= tvb_length tvb ->
                 well_nested tvb o (dissect_message o l d)) ->
  tvb_get_varint tvb offset maxlen = (tag_length, tag_value) ->
  tag_length <> 0 ->
  read_wire_value tvb (Z.land tag_value 7) (guint (offset + tag_length))
    (guint (maxlen - tag_length))
    = WireValue value_length value_length_size value_uint64 ->
  tvb_bytes tvb (guint (guint (offset + tag_length) + value_length_size)) value_length
    = Some bytes ->
  dissect_field_value_by_desc prefs tvb dissect_message
    (find_field_desc pbw_pool message_desc (Z.shiftr tag_value 3))
    (guint (guint (offset + tag_length) + value_length_size)) value_length
    (Z.land tag_value 7) value_uint64 = (r, evs_value) ->
  r <> Exhausted /\ messages_in tvb (offset + 1) evs_value.
Proof.
  intros Hrec Htag Hlen Hwire Hbytes Hvalue.
  pose proof (tvb_get_varint_found _ _ _ _ _ Htag Hlen) as (Ht1 & Ht2 & Ht3 & Ht4).
  rewrite (guint_small (offset + tag_length)) in * by lia.
  assert (Hsz : 0 <= value_length_size /\
                offset + tag_length + value_length_size <= tvb_length tvb).
  { apply read_wire_value_inv in Hwire.
    destruct Hwire as [(_ & -> & _) | [(_ & -> & _) | [(_ & -> & _) | (_ & _ & Hv & Hnz)]]];
      try lia.
    apply tvb_get_varint_found in Hv; [lia | exact Hnz]. }
  rewrite (guint_small (offset + tag_length + value_length_size)) in * by lia.
  apply tvb_bytes_some in Hbytes. destruct Hbytes as (Hb1 & Hb2 & Hb3).
  pose proof (value_by_desc_well_nested
                (find_field_desc pbw_pool message_desc (Z.shiftr tag_value 3))
                (offset + tag_length + value_length_size) value_length
                (Z.land tag_value 7) value_uint64
                (fun d => Hrec (offset + tag_length + value_length_size) value_length d
                            ltac:(lia) Hb2 Hb3)) as [Hne Hm].
  rewrite Hvalue in Hne, Hm. cbn [fst snd] in Hne, Hm.
  split; [exact Hne|]. eapply messages_in_later; [|exact Hm]. lia.
Qed.

(** The field decoder calls the message decoder after the tag of the field,
    on ranges of the buffer, only. *)
Lemma dissect_one_well_nested offset maxlen message_desc :
  (forall o l d, offset + 1 <= o -> 0 <= l -> o + l <= tvb_length tvb ->
                 well_nested tvb o (dissect_message o l d)) ->
  exists r offset' evs,
    dissect_one_protobuf_field prefs pbw_pool tvb dissect_message offset maxlen message_desc
      = (r, offset', evs) /\
    r <> Exhausted /\ messages_in tvb (offset + 1) evs.
Proof.
  intros Hrec.
  destruct (dissect_one_protobuf_field prefs pbw_pool tvb dissect_message offset maxlen
              message_desc) as [[r offset'] evs] eqn:H.
  exists r, offset', evs. split; [reflexivity|].
  assert (Hhead : forall tl tv fd, messages_in tvb (offset + 1)
                                     (field_header prefs offset tl tv fd)).
  { intros tl tv fd. unfold field_header.
    destruct fd as [fd|]; cbn;
      [destruct (field_type_eqb (pbw_FieldDescriptor_type fd) PROTOBUF_TYPE_NONE)|];
      plain_trace. }
  field_paths H; result_eq H Hr Ho He; subst r offset' evs;
    try (destruct (field_value_well_nested _ _ _ _ _ _ _ _ _ _ _
                     Hrec Htag Hlen Hwire Hbytes Hvalue) as [Hne Hm]);
    (split; [first [discriminate | exfalso; apply Hne; reflexivity] |]);
    plain_trace; first [apply Hhead | exact Hm].
Qed.

(** The loop of the message decoder ends, and runs as [decoded_fields]
    describes. *)
Lemma dissect_protobuf_fields_run max_offset message_desc :
  forall n offset,
    (0 < n)%nat -> tvb_length tvb - offset < Z.of_nat n ->
    (forall o l d, offset + 1 <= o -> 0 <= l -> o + l <= tvb_length tvb ->
                   well_nested tvb o (dissect_message o l d)) ->
    exists r evs,
      dissect_protobuf_fields prefs pbw_pool tvb dissect_message n offset max_offset
        message_desc = (r, evs) /\
      r <> Exhausted /\ messages_in tvb (offset + 1) evs /\
      decoded_fields
        (fun o m => dissect_one_protobuf_field prefs pbw_pool tvb dissect_message o m
                      message_desc)
        max_offset offset r evs.
Proof.
  induction n as [|n IH]; intros offset Hpos Hfuel Hrec; [lia|].
  cbn [dissect_protobuf_fields].
  destruct (Z.ltb_spec offset max_offset) as [Hlt | Hge].
  - destruct (dissect_one_well_nested offset (guint (max_offset - offset)) message_desc Hrec)
      as (r1 & offset' & evs1 & Hone & Hne & Hm).
    rewrite Hone. destruct r1 as [[|] | | ].
    + pose proof (dissect_one_true_advance prefs pbw_pool tvb dissect_message tvb_fits
                    _ _ _ _ _ Hone) as (H0 & Hadv & Hend).
      destruct (IH offset') as (r & evs2 & Hrest & Hne2 & Hm2 & Hrun); try lia.
      { intros o l d Ho. apply Hrec. lia. }
      rewrite Hrest. exists r, (evs1 ++ evs2). split; [reflexivity|].
      split; [exact Hne2|]. split.
      * apply Forall_app. split; [exact Hm|].
        eapply messages_in_later; [|exact Hm2]. lia.
      * eapply fields_next; eauto.
    + exists (Returns tt), evs1. split; [reflexivity|]. split; [discriminate|].
      split; [exact Hm|]. eapply fields_halt; eauto.
    + exists Throws, evs1. split; [reflexivity|]. split; [discriminate|].
      split; [exact Hm|]. eapply fields_thrown; eauto.
    + contradiction.
  - exists (Returns tt), []. split; [reflexivity|]. split; [discriminate|].
    split; [plain_trace|]. apply fields_end. exact Hge.
Qed.

End Nested.

(** The message decoder ends: a bound above the number of bytes left in the
    buffer is never reached. *)
Lemma dissect_protobuf_message_run :
  forall fuel offset length message_desc,
    (0 < fuel)%nat -> tvb_length tvb - offset < Z.of_nat fuel ->
    exists r rest,
      dissect_protobuf_message prefs pbw_pool tvb fuel offset length message_desc
        = (r, message_header pbw_pool offset length message_desc ++ rest) /\
      r <> Exhausted /\ messages_in tvb (offset + 1) rest /\
      decoded_fields
        (fun o m =>
           dissect_one_protobuf_field prefs pbw_pool tvb
             (fun o l d =>
                dissect_protobuf_message prefs pbw_pool tvb (pred fuel) o l (Some d))
             o m message_desc)
        (guint (offset + length)) offset r rest.
Proof.
  induction fuel as [|fuel IH]; intros offset length message_desc Hpos Hfuel; [lia|].
  cbn [dissect_protobuf_message pred].
  destruct (dissect_protobuf_fields_run
              (fun o l d => dissect_protobuf_message prefs pbw_pool tvb fuel o l (Some d))
              (guint (offset + length)) message_desc (S fuel) offset Hpos Hfuel)
    as (r & rest & -> & Hne & Hm & Hrun).
  { intros o l d Ho Hl Hend.
    destruct (IH o l (Some d)) as (r & rest & -> & Hne & Hm & _); try lia.
    split; [exact Hne|]. cbn [snd].
    apply Forall_app. split.
    - unfold message_header. apply Forall_cons; [cbn; lia|]. plain_trace.
    - eapply messages_in_later; [|exact Hm]. lia. }
  exists r, rest. auto.
Qed.

End MessageDecoder.

(** *** The bound of the model does not matter *)

Section Bound.

Variable prefs : preferences.
Variable pbw_pool : PbwDescriptorPool.
Variable tvb : tvbuff_t.

Hypothesis tvb_fits : tvb_length tvb < 2 ^ 32.

Variables rec1 rec2 : Z -> Z -> PbwDescriptor -> outcome unit * trace.










End Bound.

Section BoundOfMessages.

Variable prefs : preferences.
Variable pbw_pool : PbwDescriptorPool.
Variable tvb : tvbuff_t.

Hypothesis tvb_fits : tvb_length tvb < 2 ^ 32.



End BoundOfMessages.






(** ** Decoding without a schema *)

Section Unknown.

Variable prefs : preferences.
Variable tvb : tvbuff_t.
Variable dissect_message : Z -> Z -> PbwDescriptor -> outcome unit * trace.

(** Without a field descriptor the value renderer returns when the bytes of
    the value are in the buffer, with no diagnostic and no subtree. *)
Lemma render_unknown_plain offset length t value prepend_text bytes :
  tvb_bytes tvb offset length = Some bytes ->
  exists evs,
    protobuf_dissect_field_value prefs tvb dissect_message offset length t value
      prepend_text None = (Returns tt, evs) /\
    experts evs = [] /\ message_ranges evs = [] /\ repeated_ranges evs = [].
Proof.
  intros Hb.
  destruct t; cbn; rewrite ?Hb;
    try (eexists; split; [reflexivity|]; repeat split; reflexivity).
  - destruct (1 <? length); eexists; (split; [reflexivity|]); repeat split; reflexivity.
  - destruct (dissect_bytes_as_string prefs); cbn;
      eexists; (split; [reflexivity|]); repeat split; reflexivity.
Qed.

Lemma multi_types_plain offset length value bytes types :
  tvb_bytes tvb offset length = Some bytes ->
  forall prepend_text,
  exists evs,
    protobuf_try_dissect_field_value_on_multi_types prefs tvb dissect_message
      offset length types value prepend_text = (Returns tt, evs) /\
    experts evs = [] /\ message_ranges evs = [] /\ repeated_ranges evs = [].
Proof.
  intros Hb.
  induction types as [|t types IH]; intros prepend_text.
  - exists []. cbn. auto.
  - destruct (render_unknown_plain offset length t value prepend_text bytes Hb)
      as (evs1 & Hr & He & Hm & Hp).
    destruct (IH ","%string) as (evs2 & Hr2 & He2 & Hm2 & Hp2).
    assert (Hstep :
      match protobuf_dissect_field_value prefs tvb dissect_message offset length t value
              prepend_text None with
      | (Returns _, evs) =>
          let '(r, evs') :=
            protobuf_try_dissect_field_value_on_multi_types prefs tvb dissect_message
              offset length types value "," in
          (r, evs ++ evs')
      | (r, evs) => (r, evs)
      end = (Returns tt, evs1 ++ evs2)).
    { rewrite Hr, Hr2. reflexivity. }
    destruct t;
      try (exists (evs1 ++ evs2); split; [exact Hstep|];
           autorewrite with trace_app; rewrite He, He2, Hm, Hm2, Hp, Hp2; auto).
    exists []. cbn. auto.
Qed.

Lemma value_by_desc_unknown offset value_length wire_type value bytes :
  tvb_bytes tvb offset value_length = Some bytes ->
  exists evs,
    dissect_field_value_by_desc prefs tvb dissect_message None offset value_length
      wire_type value = (Returns tt, evs) /\
    experts evs = [] /\ message_ranges evs = [] /\ repeated_ranges evs = [].
Proof.
  intros Hb. unfold dissect_field_value_by_desc.
  destruct (show_all_possible_field_types prefs); eapply multi_types_plain; eassumption.
Qed.

End Unknown.

(** The field decoder on a field that no descriptor resolves: it calls
    neither the message decoder nor the packed-repeated expander, and a
    diagnostic is attached exactly when it returns false. *)
Lemma dissect_one_unknown prefs pbw_pool tvb dissect_message
    offset maxlen message_desc r offset' evs :
  (forall tag_value, find_field_desc pbw_pool message_desc tag_value = None) ->
  dissect_one_protobuf_field prefs pbw_pool tvb dissect_message offset maxlen message_desc
    = (r, offset', evs) ->
  message_ranges evs = [] /\ repeated_ranges evs = [] /\
  match r with
  | Returns true => experts evs = []
  | Returns false => exists ei, experts evs = [ei] /\ In ei field_diagnostics
  | Throws => experts evs = []
  | Exhausted => False
  end.
Proof.
  intros Hdesc H.
  pose proof (fun tl tv => field_header_plain prefs offset tl tv None) as Hhead.
  field_paths H; result_eq H Hr Ho He; subst r offset' evs;
    rewrite ?Hdesc in *;
    try (specialize (Hhead tag_length tag_value);
         destruct Hhead as (_ & F2 & _ & F4 & F5));
    try (destruct (value_by_desc_unknown prefs tvb dissect_message _ _
                     (Z.land tag_value 7) value_uint64 _ Hbytes)
           as (evs_v & Hv & G1 & G2 & G3);
         rewrite Hv in Hvalue; inversion Hvalue; subst evs_value);
    autorewrite with trace_app; rewrite ?F2, ?F4, ?F5.
  - (* the tag does not parse *)
    cbn. split; [reflexivity|]. split; [reflexivity|].
    exists ei_protobuf_failed_parse_tag. cbn. auto.
  - rewrite G1, G2, G3.
    destruct (Z.land tag_value 7 =? PROTOBUF_WIRETYPE_LENGTH_DELIMITED); cbn; auto.
  - destruct (Z.land tag_value 7 =? PROTOBUF_WIRETYPE_LENGTH_DELIMITED); cbn; auto.
  - apply read_wire_value_failed in Hwire. cbn.
    split; [reflexivity|]. split; [reflexivity|]. exists ei. split; [reflexivity|].
    destruct Hwire as [(_ & _ & _ & ->) | [(_ & _ & _ & ->) | (_ & _ & _ & _ & _ & ->)]];
      cbn; auto.
  - cbn. auto.
Qed.

(** Without a message descriptor the field decoder looks at neither the
    pool nor the message decoder. *)
Lemma dissect_one_unknown_ext prefs pool1 pool2 tvb rec1 rec2 offset maxlen :
  dissect_one_protobuf_field prefs pool1 tvb rec1 offset maxlen None
  = dissect_one_protobuf_field prefs pool2 tvb rec2 offset maxlen None.
Proof.
  unfold dissect_one_protobuf_field. cbn [find_field_desc].
  destruct (tvb_get_varint tvb offset maxlen) as [tag_length tag_value].
  destruct (tag_length =? 0); [reflexivity|]. cbv zeta.
  destruct (read_wire_value tvb (Z.land tag_value 7) (guint (offset + tag_length))
              (guint (maxlen - tag_length)))
    as [value_length value_length_size value_uint64 | on ei | ]; reflexivity.
Qed.

Section UnknownMessage.

Variable prefs : preferences.
Variable tvb : tvbuff_t.

Hypothesis tvb_fits : tvb_length tvb < 2 ^ 32.

(** The loop of the message decoder without a message descriptor. *)
Lemma fields_unknown pbw_pool dissect_message max_offset :
  forall n offset,
    (0 < n)%nat -> tvb_length tvb - offset < Z.of_nat n ->
    exists r evs,
      dissect_protobuf_fields prefs pbw_pool tvb dissect_message n offset max_offset None
        = (r, evs) /\
      r <> Exhausted /\ message_ranges evs = [] /\ repeated_ranges evs = [] /\
      (experts evs = [] \/
       exists ei, experts evs = [ei] /\ r = Returns tt /\ In ei field_diagnostics).
Proof.
  induction n as [|n IH]; intros offset Hpos Hfuel; [lia|].
  cbn [dissect_protobuf_fields].
  destruct (offset <? max_offset).
  2:{ exists (Returns tt), []. split; [reflexivity|]. split; [discriminate|]. auto. }
  destruct (dissect_one_protobuf_field prefs pbw_pool tvb dissect_message offset
              (guint (max_offset - offset)) None) as [[r1 offset'] evs1] eqn:Hone.
  pose proof (dissect_one_unknown prefs pbw_pool tvb dissect_message _ _ None _ _ _
                (fun _ => eq_refl) Hone) as (Hm & Hp & He).
  destruct r1 as [[|] | | ]; try contradiction.
  - pose proof (dissect_one_true_advance prefs pbw_pool tvb dissect_message tvb_fits
                  _ _ _ _ _ Hone) as (H0 & Hadv & Hend).
    destruct (IH offset') as (r & evs2 & -> & Hne & Hm2 & Hp2 & He2); try lia.
    exists r, (evs1 ++ evs2). split; [reflexivity|]. split; [exact Hne|].
    autorewrite with trace_app. rewrite Hm, Hm2, Hp, Hp2, He. auto.
  - exists (Returns tt), evs1. split; [reflexivity|]. split; [discriminate|].
    destruct He as (ei & He & Hin). split; [exact Hm|]. split; [exact Hp|].
    right. exists ei. auto.
  - exists Throws, evs1. split; [reflexivity|]. split; [discriminate|]. auto.
Qed.

Lemma fields_unknown_ext pool1 pool2 rec1 rec2 max_offset :
  forall n1 n2 offset,
    (0 < n1)%nat -> tvb_length tvb - offset < Z.of_nat n1 ->
    (0 < n2)%nat -> tvb_length tvb - offset < Z.of_nat n2 ->
    dissect_protobuf_fields prefs pool1 tvb rec1 n1 offset max_offset None
    = dissect_protobuf_fields prefs pool2 tvb rec2 n2 offset max_offset None.
Proof.
  induction n1 as [|n1 IH]; intros n2 offset Hp1 Hf1 Hp2 Hf2; [lia|].
  destruct n2 as [|n2]; [lia|].
  cbn [dissect_protobuf_fields].
  destruct (offset <? max_offset); [|reflexivity].
  rewrite (dissect_one_unknown_ext prefs pool1 pool2 tvb rec1 rec2).
  destruct (dissect_one_protobuf_field prefs pool2 tvb rec2 offset
              (guint (max_offset - offset)) None) as [[r offset'] evs] eqn:Hone.
  destruct r as [[|] | | ]; try reflexivity.
  pose proof (dissect_one_true_advance prefs pool2 tvb rec2 tvb_fits _ _ _ _ _ Hone)
    as (H0 & Hadv & Hend).
  rewrite (IH n2 offset'); try lia. reflexivity.
Qed.

End UnknownMessage.

(** X1.  Without a message descriptor the message decoder is flat and does
    not look at the schema: whatever the descriptor pool, it gives one and
    the same result, with no nested "Message" subtree and no "Repeated"
    subtree, and with at most one diagnostic, that of the field at which the
    decoding halted. *)
Theorem schemaless_message_is_flat prefs pool1 pool2 tvb offset length fuel1 fuel2 :
  tvb_length tvb < 2 ^ 32 ->
  0 <= offset ->
  (enough_fuel tvb <= fuel1)%nat ->
  (enough_fuel tvb <= fuel2)%nat ->
  exists r rest,
    dissect_protobuf_message prefs pool1 tvb fuel1 offset length None
      = (r, message_header pool1 offset length None ++ rest) /\
    dissect_protobuf_message prefs pool2 tvb fuel2 offset length None
      = (r, message_header pool1 offset length None ++ rest) /\
    r <> Exhausted /\
    message_ranges rest = [] /\ repeated_ranges rest = [] /\
    (experts rest = [] \/
     exists ei, experts rest = [ei] /\ r = Returns tt /\ In ei field_diagnostics).
Proof.
  intros Hfit Ho Hf1 Hf2.
  assert (Hlen : tvb_length tvb = Z.of_nat (List.length tvb)) by reflexivity.
  unfold enough_fuel in *.
  destruct fuel1 as [|fuel1]; [lia|]. destruct fuel2 as [|fuel2]; [lia|].
  cbn [dissect_protobuf_message].
  destruct (fields_unknown prefs tvb Hfit pool1
              (fun o l d => dissect_protobuf_message prefs pool1 tvb fuel1 o l (Some d))
              (guint (offset + length)) (S fuel1) offset)
    as (r & rest & Hrun & Hne & Hm & Hp & He); try lia.
  rewrite <- (fields_unknown_ext prefs tvb Hfit pool1 pool2
                (fun o l d => dissect_protobuf_message prefs pool1 tvb fuel1 o l (Some d))
                (fun o l d => dissect_protobuf_message prefs pool2 tvb fuel2 o l (Some d))
                (guint (offset + length)) (S fuel1) (S fuel2) offset) by lia.
  rewrite Hrun. exists r, rest. auto 10.
Qed.

Lemma schemaless_message_is_flat_witness :
  exists r rest,
    dissect_protobuf_message Fixtures.prefs_default Fixtures.pool_M Fixtures.tvb_no_tag
      (enough_fuel Fixtures.tvb_no_tag) 0 11 None
    = (r, message_header Fixtures.pool_M 0 11 None ++ rest) /\
    message_ranges rest = [] /\ repeated_ranges rest = [].
Proof.
  destruct (schemaless_message_is_flat Fixtures.prefs_default Fixtures.pool_M Fixtures.pool_M
              Fixtures.tvb_no_tag 0 11 (enough_fuel Fixtures.tvb_no_tag)
              (enough_fuel Fixtures.tvb_no_tag))
    as (r & rest & Hrun & _ & _ & Hm & Hp & _).
  - vm_compute; reflexivity.
  - lia.
  - apply Nat.le_refl.
  - apply Nat.le_refl.
  - exists r, rest. auto.
Defined.

(** ** The diagnostic of a field that fails *)

(** X2.  A field for which the field decoder returns false carries exactly
    one diagnostic, attached last, which names the cause: failed_parse_tag
    on the field when the tag varint does not parse; failed_parse_field on
    the wire type item when the value varint of a VARINT field does not
    parse; failed_parse_length_delimited_field on the field when the length
    prefix does not parse; wire_type_invalid on the wire type item for any
    other wire type.  Nothing of a value is added: no item of the value
    bytes, no typed leaf, no type named. *)
Theorem failed_field_diagnostic prefs pbw_pool tvb dissect_message
    offset maxlen message_desc offset' evs :
  dissect_one_protobuf_field prefs pbw_pool tvb dissect_message offset maxlen message_desc
    = (Returns false, offset', evs) ->
  let '(tag_length, tag_value) := tvb_get_varint tvb offset maxlen in
  let wire_type := Z.land tag_value 7 in
  let diagnostic :=
    if tag_length =? 0
    then expert_add_info ti_field ei_protobuf_failed_parse_tag
    else if wire_type =? PROTOBUF_WIRETYPE_VARINT
    then expert_add_info ti_wire ei_protobuf_failed_parse_field
    else if wire_type =? PROTOBUF_WIRETYPE_LENGTH_DELIMITED
    then expert_add_info ti_field ei_protobuf_failed_parse_length_delimited_field
    else expert_add_info ti_wire ei_protobuf_wire_type_invalid in
  exists head,
    evs = head ++ [diagnostic] /\
    experts head = [] /\ value_leaves head = [] /\ datatypes head = [] /\
    Forall (fun e => match e with
                     | proto_tree_add hf_protobuf_value_data _ _ _ => False
                     | _ => True
                     end) head.
Proof.
  intros H.
  field_paths H; try discriminate; result_eq H Hr Ho He; subst offset' evs.
  - (* the tag does not parse *)
    eexists [_]. cbn. split; [reflexivity|]. repeat split; auto.
  - (* the switch on the wire type fails *)
    pose proof (field_header_plain prefs offset tag_length tag_value
                  (find_field_desc pbw_pool message_desc (Z.shiftr tag_value 3)))
      as (F1 & F2 & F3 & _).
    destruct (Z.eqb_spec tag_length 0) as [|_]; [contradiction|].
    eexists. split; [|split; [exact F2|split; [exact F3|split; [exact F1|]]]].
    + f_equal. apply read_wire_value_failed in Hwire. wire_types.
      destruct Hwire as [(-> & _ & -> & ->) | [(-> & _ & -> & ->) | (H0 & H1 & H2 & H5 & -> & ->)]];
        cbn; try reflexivity.
      destruct (Z.eqb_spec (Z.land tag_value 7) 0); [contradiction|].
      destruct (Z.eqb_spec (Z.land tag_value 7) 2); [contradiction|]. reflexivity.
    + unfold field_header.
      destruct (find_field_desc pbw_pool message_desc (Z.shiftr tag_value 3)) as [fd|];
        cbn; [destruct (field_type_eqb (pbw_FieldDescriptor_type fd) PROTOBUF_TYPE_NONE)|];
        repeat constructor.
Qed.

Lemma failed_field_diagnostic_witness :
  exists head,
    snd (Fixtures.dissect_field Fixtures.prefs_default Fixtures.pool_M
           Fixtures.tvb_start_group 0 2 None)
    = head ++ [expert_add_info ti_wire ei_protobuf_wire_type_invalid] /\
    experts head = [] /\ value_leaves head = [] /\ datatypes head = [].
Proof.
  pose proof (failed_field_diagnostic Fixtures.prefs_default Fixtures.pool_M
                Fixtures.tvb_start_group
                (Fixtures.nested Fixtures.prefs_default Fixtures.pool_M
                   Fixtures.tvb_start_group)
                0 2 None 1
                (snd (Fixtures.dissect_field Fixtures.prefs_default Fixtures.pool_M
                        Fixtures.tvb_start_group 0 2 None))) as H.
  destruct H as (head & He & H1 & H2 & H3 & _).
  - vm_compute; reflexivity.
  - exists head. auto.
Defined.

(** ** Reads outside the buffer *)



(** ** The varints of a field stay in the bound of the field *)



(** ** Signed values *)

(** X5.  A field declared int32 or sfixed32 is shown as the signed 32-bit
    integer its low 32 bits encode in two's complement, whatever the upper 32
    bits of the value read (a negative int32 arrives as a varint of ten bytes,
    sign-extended to 64 bits; an sfixed32 arrives zero-extended); a field
    declared int64 or sfixed64 is shown as the signed 64-bit integer its 64
    bits encode. *)
Theorem twos_complement_values_rendered prefs tvb dissect_message
    offset length t n value prepend_text field_desc :
  ((t = PROTOBUF_TYPE_INT32 \/ t = PROTOBUF_TYPE_SFIXED32) /\
   - 2 ^ 31 <= n < 2 ^ 31 /\ value mod 2 ^ 32 = n mod 2 ^ 32) \/
  ((t = PROTOBUF_TYPE_INT64 \/ t = PROTOBUF_TYPE_SFIXED64) /\
   - 2 ^ 63 <= n < 2 ^ 63 /\ value mod 2 ^ 64 = n mod 2 ^ 64) ->
  protobuf_dissect_field_value prefs tvb dissect_message offset length t value
    prepend_text field_desc
  = (Returns tt,
     [proto_tree_add
        (match t with
         | PROTOBUF_TYPE_INT32 | PROTOBUF_TYPE_SFIXED32 => hf_protobuf_value_int32
         | _ => hf_protobuf_value_int64
         end) offset length (ValInt n);
      proto_item_append_text (LblValue prepend_text (ValInt n));
      proto_item_append_text (LblDatatype t)]).
Proof.
  assert (Hw : forall w, 0 < w -> - 2 ^ (w - 1) <= n < 2 ^ (w - 1) ->
                         value mod 2 ^ w = n mod 2 ^ w -> wraps w value = n).
  { intros w Hw Hn Hmod. unfold wraps.
    pose proof (pow2_split w Hw) as Hs.
    assert (Hp : 0 < 2 ^ (w - 1)) by (apply Z.pow_pos_nonneg; lia).
    rewrite Zplus_mod, Hmod, <- Zplus_mod.
    rewrite Z.mod_small by lia. lia. }
  intros [([-> | ->] & Hn & Hmod) | ([-> | ->] & Hn & Hmod)]; cbn;
    unfold gint32, gint64;
    rewrite Hw by (try lia; assumption); reflexivity.
Qed.

Lemma twos_complement_values_rendered_witness :
  protobuf_dissect_field_value Fixtures.prefs_default Fixtures.tvb_int32
    (Fixtures.nested Fixtures.prefs_default Fixtures.pool_M Fixtures.tvb_int32)
    1 10 PROTOBUF_TYPE_INT32 (2 ^ 64 - 2) "" None
  = (Returns tt,
     [proto_tree_add hf_protobuf_value_int32 1 10 (ValInt (-2));
      proto_item_append_text (LblValue "" (ValInt (-2)));
      proto_item_append_text (LblDatatype PROTOBUF_TYPE_INT32)]).
Proof.
  apply (twos_complement_values_rendered Fixtures.prefs_default Fixtures.tvb_int32
           (Fixtures.nested Fixtures.prefs_default Fixtures.pool_M Fixtures.tvb_int32)
           1 10 PROTOBUF_TYPE_INT32 (-2) (2 ^ 64 - 2) ""%string None).
  left. split; [left; reflexivity|]. split; [lia | reflexivity].
Defined.

(** ** The tag of a field *)

Lemma tag_field_number n w :
  0 <= w < 8 -> Z.shiftr (Z.lor (Z.shiftl n 3) w) 3 = n.
Proof.
  intros Hw. rewrite Z.shiftr_lor, Z.shiftr_shiftl_l by lia.
  rewrite (Z.shiftr_div_pow2 w 3) by lia.
  rewrite (Z.div_small w (2 ^ 3)) by (change (2 ^ 3) with 8; lia).
  change (3 - 3) with 0. rewrite Z.shiftl_0_r. apply Z.lor_0_r.
Qed.

Lemma tag_wire_type n w :
  0 <= w < 8 -> Z.land (Z.lor (Z.shiftl n 3) w) 7 = w.
Proof.
  intros Hw. change 7 with (Z.ones 3). rewrite Z.land_ones by lia.
  rewrite <- (Z.mod_small w (2 ^ 3)) at 2 by (change (2 ^ 3) with 8; lia).
  rewrite <- !Z.land_ones by lia.
  rewrite Z.land_lor_distr_l. rewrite Z.shiftl_mul_pow2 by lia.
  rewrite (Z.land_ones (n * 2 ^ 3)) by lia.
  rewrite Z.mod_mul by (change (2 ^ 3) with 8; lia).
  apply Z.lor_0_l.
Qed.

(** X6.  The tag [(field_number << 3) | wire_type] is split back into its
    two parts: whenever the tag varint parses, and whatever becomes of the
    field afterwards, the field decoder shows the field number and the wire
    type of the tag, and the field name the message descriptor declares for
    the field number converted to a 32-bit [int] (or "<UNKNOWN>"): two field
    numbers that differ by a multiple of 2^32 are shown under the same
    declaration. *)
Theorem tag_is_split_and_looked_up prefs pbw_pool tvb dissect_message
    offset maxlen message_desc tag_length field_number wire_type :
  tvb_length tvb < 2 ^ 32 ->
  tvb_get_varint tvb offset maxlen
    = (tag_length, Z.lor (Z.shiftl field_number 3) wire_type) ->
  tag_length <> 0 ->
  0 <= wire_type < 8 ->
  let evs :=
    snd (dissect_one_protobuf_field prefs pbw_pool tvb dissect_message
           offset maxlen message_desc) in
  let field_name :=
    match message_desc with
    | Some desc =>
        match pbw_Descriptor_FindFieldByNumber pbw_pool desc (gint32 field_number) with
        | Some fd => pbw_FieldDescriptor_name fd
        | None => "<UNKNOWN>"%string
        end
    | None => "<UNKNOWN>"%string
    end in
  In (proto_tree_add hf_protobuf_field_number offset tag_length (ValUint field_number)) evs /\
  In (proto_tree_add hf_protobuf_wire_type offset 1 (ValUint wire_type)) evs /\
  In (proto_tree_add hf_protobuf_field_name (offset + tag_length) 1 (ValText field_name)) evs /\
  forall k, gint32 (field_number + k * 2 ^ 32) = gint32 field_number.
Proof.
  intros Hfit Htag Hnz Hw evs field_name.
  pose proof (tvb_get_varint_found _ _ _ _ _ Htag Hnz) as (Ht1 & Ht2 & Ht3 & Ht4).
  assert (Hhead : forall rest,
            let h := field_header prefs offset tag_length
                       (Z.lor (Z.shiftl field_number 3) wire_type)
                       (find_field_desc pbw_pool message_desc
                          (Z.shiftr (Z.lor (Z.shiftl field_number 3) wire_type) 3)) in
            In (proto_tree_add hf_protobuf_field_number offset tag_length
                  (ValUint field_number)) (h ++ rest) /\
            In (proto_tree_add hf_protobuf_wire_type offset 1 (ValUint wire_type)) (h ++ rest) /\
            In (proto_tree_add hf_protobuf_field_name (offset + tag_length) 1
                  (ValText field_name)) (h ++ rest)).
  { intros rest h. subst h. unfold field_header.
    rewrite tag_field_number, tag_wire_type by exact Hw.
    rewrite (guint_small (offset + tag_length)) by lia.
    subst field_name. unfold find_field_desc.
    destruct message_desc as [desc|];
      [destruct (pbw_Descriptor_FindFieldByNumber pbw_pool desc (gint32 field_number))|];
      repeat split; rewrite in_app_iff; left; cbn; auto 10. }
  split; [|split; [|split]].
  4:{ intros k. unfold gint32, wraps.
      replace (field_number + k * 2 ^ 32 + 2 ^ (32 - 1))
        with (field_number + 2 ^ (32 - 1) + k * 2 ^ 32) by lia.
      rewrite Z.mod_add by lia. reflexivity. }
  all: subst evs; unfold dissect_one_protobuf_field; rewrite Htag;
    destruct (Z.eqb_spec tag_length 0) as [|_]; [contradiction|]; cbv zeta;
    match goal with
    | |- context [read_wire_value ?a ?b ?c ?d] => destruct (read_wire_value a b c d)
    end; cbn [snd];
    try match goal with
        | |- context [tvb_bytes ?a ?b ?c] => destruct (tvb_bytes a b c)
        end; cbn [snd];
    try match goal with
        | |- context [dissect_field_value_by_desc ?a ?b ?c ?d ?e ?f ?g ?h] =>
            destruct (dissect_field_value_by_desc a b c d e f g h) as [[] ?]
        end; cbn [snd];
    rewrite <- ?app_assoc; try apply Hhead;
    rewrite <- (app_nil_r (field_header _ _ _ _ _)); apply Hhead.
Qed.

Lemma tag_is_split_and_looked_up_witness :
  let evs := snd (Fixtures.dissect_field Fixtures.prefs_default Fixtures.pool_M
                    Fixtures.tvb_int32 0 3 (Some Fixtures.M)) in
  In (proto_tree_add hf_protobuf_field_number 0 1 (ValUint 1)) evs /\
  In (proto_tree_add hf_protobuf_wire_type 0 1 (ValUint 0)) evs /\
  In (proto_tree_add hf_protobuf_field_name (0 + 1) 1 (ValText "a")) evs.
Proof.
  destruct (tag_is_split_and_looked_up Fixtures.prefs_default Fixtures.pool_M
              Fixtures.tvb_int32
              (Fixtures.nested Fixtures.prefs_default Fixtures.pool_M Fixtures.tvb_int32)
              0 3 (Some Fixtures.M) 1 1 0) as (H1 & H2 & H3 & _).
  - vm_compute; reflexivity.
  - vm_compute; reflexivity.
  - discriminate.
  - lia.
  - repeat split; assumption.
Defined.

(** ** Packed repeated fields: the reads of the fixed-width values *)

Section PackedFixed.

Variable prefs : preferences.
Variable tvb : tvbuff_t.
Variable dissect_message : Z -> Z -> PbwDescriptor -> outcome unit * trace.

(** The loop over [n] fixed-width values is unwound when the read of the
    last value, of four bytes for the wire type FIXED32 and of eight
    otherwise, leaves the buffer. *)
Lemma packed_fixed_add_throws t stride wire_type field_desc :
  fixed_stride t = Some stride ->
  forall n fuel offset prepend_text,
    0 <= offset -> offset + Z.of_nat n * stride < 2 ^ 32 -> (n < fuel)%nat ->
    (0 < n)%nat ->
    tvb_length tvb
      < offset + Z.of_nat n * stride - stride
        + (if wire_type =? PROTOBUF_WIRETYPE_FIXED32 then 4 else 8) ->
    fst (packed_fixed_add prefs tvb dissect_message fuel offset
           (offset + Z.of_nat n * stride) stride wire_type t prepend_text field_desc)
    = Throws.
Proof.
  intros Ht.
  assert (Hs : 4 <= stride) by (destruct t; inversion Ht; lia).
  induction n as [|n IH]; intros fuel offset prepend_text Ho Hmax Hfuel Hn Hout; [lia|].
  destruct fuel as [|fuel]; [lia|]. cbn [packed_fixed_add].
  destruct (Z.ltb_spec offset (offset + Z.of_nat (S n) * stride)) as [_ | Hge]; [|nia].
  set (read := if wire_type =? PROTOBUF_WIRETYPE_FIXED32
               then tvb_get_letohl tvb offset else tvb_get_letoh64 tvb offset).
  destruct read as [value|] eqn:Hread; [|reflexivity].
  destruct (render_fixed prefs tvb dissect_message offset stride t stride value
              prepend_text field_desc Ht) as (evs1 & -> & _).
  rewrite (guint_small (offset + stride)) by nia.
  replace (offset + Z.of_nat (S n) * stride)
    with ((offset + stride) + Z.of_nat n * stride) in * by lia.
  destruct n as [|n].
  - exfalso. unfold read in Hread.
    destruct (wire_type =? PROTOBUF_WIRETYPE_FIXED32).
    + apply tvb_get_letohl_some in Hread. lia.
    + apply tvb_get_letoh64_some in Hread. lia.
  - specialize (IH fuel (offset + stride) ","%string).
    destruct (packed_fixed_add prefs tvb dissect_message fuel (offset + stride)
                (offset + stride + Z.of_nat (S n) * stride) stride wire_type t ","
                field_desc) as [r evs2].
    cbn [fst] in *. apply IH; lia.
Qed.

End PackedFixed.

(** X7.  The expander reads the values of a packed fixed-width field four
    bytes at a time when the wire type is FIXED32 and eight bytes at a time
    otherwise, whatever the stride of the declared type.  Over a non-empty
    payload that the stride divides, the expansion is unwound by a read
    outside the buffer exactly when the read of the last value leaves the
    buffer: for a 32-bit type in a LENGTH_DELIMITED field, when fewer than
    four bytes follow the payload in the buffer. *)
Theorem packed_fixed_unwinds_iff prefs tvb dissect_message start length wire_type
    t stride prepend_text field_desc :
  fixed_stride t = Some stride ->
  tvb_length tvb < 2 ^ 32 ->
  0 <= start -> 0 < length -> length mod stride = 0 ->
  start + length <= tvb_length tvb ->
  (fst (dissect_packed_repeated_field_values prefs tvb dissect_message start length
          wire_type t prepend_text field_desc) = Throws
   <-> tvb_length tvb
         < start + length - stride
           + (if wire_type =? PROTOBUF_WIRETYPE_FIXED32 then 4 else 8)).
Proof.
  intros Ht Hfit Hs Hl Hmod Hend.
  assert (Hk : 4 <= stride) by (destruct t; inversion Ht; lia).
  assert (Hrun :
    dissect_packed_repeated_field_values prefs tvb dissect_message start length
      wire_type t prepend_text field_desc
    = dissect_packed_fixed prefs tvb dissect_message
        (packed_subtree start length prepend_text) start length (guint (start + length))
        stride wire_type t field_desc).
  { unfold dissect_packed_repeated_field_values.
    destruct (tvb_bytes_in_range tvb start length) as [bs ->]; try lia.
    destruct t; inversion Ht; reflexivity. }
  rewrite Hrun. split.
  - intros Hthrow.
    destruct (Z_lt_le_dec (tvb_length tvb)
                (start + length - stride
                 + (if wire_type =? PROTOBUF_WIRETYPE_FIXED32 then 4 else 8)))
      as [|Hin]; [assumption|].
    destruct (dissect_packed_fixed_spec prefs tvb dissect_message Hfit
                (packed_subtree start length prepend_text) start length wire_type t stride
                field_desc Ht) as (r & evs & Hrun' & _ & Hgood); try lia.
    destruct (Hgood Hmod) as (body & _ & _ & _ & Hok).
    rewrite Hrun' in Hthrow. cbn [fst] in Hthrow.
    rewrite Hok in Hthrow; [discriminate | right; exact Hin].
  - intros Hout. unfold dissect_packed_fixed.
    rewrite Hmod. cbn [Z.eqb negb].
    set (n := Z.to_nat (length / stride)).
    assert (Hn : length = Z.of_nat n * stride).
    { unfold n. rewrite Z2Nat.id by (apply Z.div_pos; lia).
      pose proof (Z.div_mod length stride). lia. }
    rewrite (guint_small (start + length)) by lia.
    pose proof (packed_fixed_add_throws prefs tvb dissect_message t stride wire_type
                  field_desc Ht n (S (Z.to_nat length)) start ""%string) as Hthrows.
    rewrite <- Hn in Hthrows.
    destruct (packed_fixed_add prefs tvb dissect_message (S (Z.to_nat length)) start
                (start + length) stride wire_type t "" field_desc) as [r evs].
    cbn [fst] in Hthrows. rewrite Hthrows; [reflexivity | try lia; nia ..].
Qed.

Lemma packed_fixed_unwinds_iff_witness :
  fst (Fixtures.dissect_packed Fixtures.prefs_default Fixtures.pool_M
         Samples.tvb_packed_fixed32 2 4 PROTOBUF_WIRETYPE_LENGTH_DELIMITED
         PROTOBUF_TYPE_FIXED32 None) = Throws <->
  tvb_length Samples.tvb_packed_fixed32 < 2 + 4 - 4 + 8.
Proof.
  apply (packed_fixed_unwinds_iff Fixtures.prefs_default Samples.tvb_packed_fixed32
           (Fixtures.nested Fixtures.prefs_default Fixtures.pool_M
              Samples.tvb_packed_fixed32)
           2 4 PROTOBUF_WIRETYPE_LENGTH_DELIMITED PROTOBUF_TYPE_FIXED32 4 ""%string None).
  - reflexivity.
  - vm_compute; reflexivity.
  - lia.
  - lia.
  - reflexivity.
  - vm_compute; discriminate.
Defined.

(** ** Packed repeated fields: the elements tile the payload *)

Section PackedTiling.

Variable prefs : preferences.
Variable tvb : tvbuff_t.
Variable dissect_message : Z -> Z -> PbwDescriptor -> outcome unit * trace.





End PackedTiling.



(** ** A packed field sent as a single value *)

(** A varint that is found is found again within its own length. *)
Lemma varint_scan_tighten tvb offset maxlen n :
  forall i value len v,
    varint_scan tvb offset maxlen n i value = (len, v) ->
    len <> 0 ->
    varint_scan tvb offset len n i value = (len, v).
Proof.
  induction n as [|n IH]; intros i value len v Hscan Hlen.
  - cbn in Hscan. inversion Hscan. congruence.
  - pose proof (varint_scan_found tvb offset maxlen (S n) i value len v Hscan Hlen)
      as (Hi & _).
    cbn [varint_scan] in Hscan |- *.
    destruct (Z.ltb_spec i maxlen) as [_ | _]; [|inversion Hscan; congruence].
    destruct (Z.ltb_spec i len) as [_ | ?]; [|lia].
    destruct (tvb_get_guint8 tvb (offset + i)) as [b|]; [|inversion Hscan; congruence].
    destruct (b <? 128); [exact Hscan|].
    apply IH; assumption.
Qed.

(** X9.  A field declared repeated and packed may arrive as a single value
    under the wire type of its declared type (VARINT for the varint types,
    FIXED64 for the 64-bit types, FIXED32 for the 32-bit types).  The
    expander, called on the bytes of that value, then succeeds with exactly
    what the value renderer adds for the value the field decoder read,
    between the opening and the closing bracket of the list. *)
Theorem packed_field_sent_unpacked prefs tvb dissect_message offset maxlen wire_type
    t prepend_text field_desc value_length value_length_size value_uint64 :
  tvb_length tvb < 2 ^ 32 ->
  0 <= offset ->
  (In t varint_packable /\ wire_type = PROTOBUF_WIRETYPE_VARINT) \/
  (fixed_stride t = Some 8 /\ wire_type = PROTOBUF_WIRETYPE_FIXED64) \/
  (fixed_stride t = Some 4 /\ wire_type = PROTOBUF_WIRETYPE_FIXED32) ->
  read_wire_value tvb wire_type offset maxlen
    = WireValue value_length value_length_size value_uint64 ->
  exists evs,
    protobuf_dissect_field_value prefs tvb dissect_message offset value_length t
      value_uint64 "" field_desc = (Returns tt, evs) /\
    dissect_packed_repeated_field_values prefs tvb dissect_message offset value_length
      wire_type t prepend_text field_desc
    = (Returns value_length,
       packed_subtree offset value_length prepend_text ++ evs
         ++ [proto_item_append_text LblClose]).
Proof.
  intros Hfit Ho Ht Hwire.
  apply read_wire_value_inv in Hwire. wire_types.
  unfold dissect_packed_repeated_field_values.
  destruct Ht as [[Ht ->] | [[Ht ->] | [Ht ->]]];
    destruct Hwire as [(Hw & -> & Hv & Hnz) | [(Hw & -> & -> & Hv) |
                      [(Hw & -> & -> & Hv) | (Hw & _)]]]; try discriminate.
  - (* a varint *)
    pose proof (tvb_get_varint_found _ _ _ _ _ Hv Hnz) as (Hv1 & Hv2 & Hv3 & Hv4).
    destruct (tvb_bytes_in_range tvb offset value_length) as [bs ->]; try lia.
    destruct (render_varint prefs tvb dissect_message offset value_length t value_uint64
                ""%string field_desc Ht) as (evs & Hr & _).
    exists evs. split; [exact Hr|].
    assert (Hrun : dissect_packed_varint prefs tvb dissect_message
                     (packed_subtree offset value_length prepend_text) offset value_length
                     (guint (offset + value_length)) t field_desc
                   = (Returns value_length,
                      packed_subtree offset value_length prepend_text ++ evs
                        ++ [proto_item_append_text LblClose])).
    { unfold dissect_packed_varint.
      rewrite (guint_small (offset + value_length)) by lia.
      destruct (Z.to_nat value_length) as [|k] eqn:Hk; [lia|].
      cbn [packed_varint_scan].
      destruct (Z.ltb_spec offset (offset + value_length)) as [_ | ?]; [|lia].
      replace (offset + value_length - offset) with value_length by lia.
      rewrite (guint_small value_length) by lia.
      unfold tvb_get_varint in Hv |- *.
      rewrite (varint_scan_tighten _ _ _ _ _ _ _ _ Hv Hnz).
      destruct (Z.eqb_spec value_length 0) as [|_]; [contradiction|].
      rewrite (guint_small (offset + value_length)) by lia.
      rewrite Z.ltb_irrefl.
      cbn [packed_varint_add info_offset info_length info_value].
      rewrite Hr. cbn [packed_finish]. rewrite app_nil_r. reflexivity. }
    cbn in Ht. destruct Ht as [<-|[<-|[<-|[<-|[<-|[<-|[<-|[<-|[]]]]]]]]]; exact Hrun.
  - (* eight bytes *)
    pose proof (tvb_get_letoh64_some _ _ _ Hv) as (_ & Hend).
    destruct (tvb_bytes_in_range tvb offset 8) as [bs ->]; try lia.
    destruct (render_fixed prefs tvb dissect_message offset 8 t 8 value_uint64
                ""%string field_desc Ht) as (evs & Hr & _).
    exists evs. split; [exact Hr|].
    assert (Hrun : dissect_packed_fixed prefs tvb dissect_message
                     (packed_subtree offset 8 prepend_text) offset 8
                     (guint (offset + 8)) 8 1 t field_desc
                   = (Returns 8,
                      packed_subtree offset 8 prepend_text ++ evs
                        ++ [proto_item_append_text LblClose])).
    { unfold dissect_packed_fixed. cbn [Z.modulo Z.div_eucl Z.pos_div_eucl Z.eqb negb].
      rewrite (guint_small (offset + 8)) by lia.
      change (Z.to_nat 8) with 8%nat. cbn [packed_fixed_add].
      destruct (Z.ltb_spec offset (offset + 8)) as [_ | ?]; [|lia].
      change (1 =? PROTOBUF_WIRETYPE_FIXED32) with false. cbv iota.
      rewrite Hv, Hr.
      rewrite (guint_small (offset + 8)) by lia. rewrite Z.ltb_irrefl.
      cbn [packed_finish]. rewrite app_nil_r. reflexivity. }
    destruct t; inversion Ht; exact Hrun.
  - (* four bytes *)
    pose proof (tvb_get_letohl_some _ _ _ Hv) as (_ & Hend).
    destruct (tvb_bytes_in_range tvb offset 4) as [bs ->]; try lia.
    destruct (render_fixed prefs tvb dissect_message offset 4 t 4 value_uint64
                ""%string field_desc Ht) as (evs & Hr & _).
    exists evs. split; [exact Hr|].
    assert (Hrun : dissect_packed_fixed prefs tvb dissect_message
                     (packed_subtree offset 4 prepend_text) offset 4
                     (guint (offset + 4)) 4 5 t field_desc
                   = (Returns 4,
                      packed_subtree offset 4 prepend_text ++ evs
                        ++ [proto_item_append_text LblClose])).
    { unfold dissect_packed_fixed. cbn [Z.modulo Z.div_eucl Z.pos_div_eucl Z.eqb negb].
      rewrite (guint_small (offset + 4)) by lia.
      change (Z.to_nat 4) with 4%nat. cbn [packed_fixed_add].
      destruct (Z.ltb_spec offset (offset + 4)) as [_ | ?]; [|lia].
      change (5 =? PROTOBUF_WIRETYPE_FIXED32) with true. cbv iota.
      rewrite Hv, Hr.
      rewrite (guint_small (offset + 4)) by lia. rewrite Z.ltb_irrefl.
      cbn [packed_finish]. rewrite app_nil_r. reflexivity. }
    destruct t; inversion Ht; exact Hrun.
Qed.

Lemma packed_field_sent_unpacked_witness :
  exists evs,
    protobuf_dissect_field_value Fixtures.prefs_default Fixtures.tvb_unpacked
      (Fixtures.nested Fixtures.prefs_default Fixtures.pool_M Fixtures.tvb_unpacked)
      1 1 PROTOBUF_TYPE_INT32 1 "" None = (Returns tt, evs) /\
    Fixtures.dissect_packed Fixtures.prefs_default Fixtures.pool_M Fixtures.tvb_unpacked
      1 1 PROTOBUF_WIRETYPE_VARINT PROTOBUF_TYPE_INT32 None
    = (Returns 1, packed_subtree 1 1 "" ++ evs ++ [proto_item_append_text LblClose]).
Proof.
  apply (packed_field_sent_unpacked Fixtures.prefs_default Fixtures.tvb_unpacked
           (Fixtures.nested Fixtures.prefs_default Fixtures.pool_M Fixtures.tvb_unpacked)
           1 1 PROTOBUF_WIRETYPE_VARINT PROTOBUF_TYPE_INT32 ""%string None 1 0 1).
  - vm_compute; reflexivity.
  - lia.
  - left. split; [cbn; auto | reflexivity].
  - vm_compute; reflexivity.
Defined.

(** ** Declared types *)

(** X10.  A field that its message descriptor declares, not both repeated
    and packed, with a declared type other than a message or a group, is
    rendered under that declared type whatever the wire type it arrived
    with: the type named is the declared one, at most one typed leaf is
    added, and no diagnostic is attached, also when the declared type does
    not go with the wire type. *)
Theorem declared_type_is_trusted prefs pbw_pool tvb dissect_message
    offset maxlen message_desc offset' evs tag_length tag_value fd :
  tvb_length tvb < 2 ^ 32 ->
  dissect_one_protobuf_field prefs pbw_pool tvb dissect_message offset maxlen message_desc
    = (Returns true, offset', evs) ->
  tvb_get_varint tvb offset maxlen = (tag_length, tag_value) ->
  find_field_desc pbw_pool message_desc (Z.shiftr tag_value 3) = Some fd ->
  pbw_FieldDescriptor_is_packed fd && pbw_FieldDescriptor_is_repeated fd = false ->
  pbw_FieldDescriptor_type fd <> PROTOBUF_TYPE_MESSAGE ->
  pbw_FieldDescriptor_type fd <> PROTOBUF_TYPE_GROUP ->
  pbw_FieldDescriptor_type fd <> PROTOBUF_TYPE_NONE ->
  experts evs = [] /\
  datatypes evs = [pbw_FieldDescriptor_type fd] /\
  (List.length (value_leaves evs) <= 1)%nat /\
  message_ranges evs = [] /\ repeated_ranges evs = [].
Proof.
  intros Hfit H Htag Hdesc Hpacked Hm Hg Hn.
  apply dissect_one_true_inv in H; [|exact Hfit].
  destruct H as (tl & tv & vl & vls & v & head & evs_v
                 & Htag' & _ & _ & _ & _ & Hvalue & _ & -> & Hd & He & Hl & Hr & Hmr & _).
  rewrite Htag in Htag'. inversion Htag'; subst tl tv; clear Htag'.
  rewrite Hdesc in Hvalue. unfold dissect_field_value_by_desc in Hvalue.
  rewrite Hpacked in Hvalue.
  autorewrite with trace_app. rewrite Hd, He, Hl, Hr, Hmr. cbn [app].
  unfold protobuf_dissect_field_value in Hvalue.
  destruct (pbw_FieldDescriptor_type fd); try contradiction;
    repeat match type of Hvalue with
           | context [if ?b then _ else _] => destruct b
           | context [match tvb_bytes ?a ?b ?c with _ => _ end] =>
               destruct (tvb_bytes a b c); [|discriminate]
           | context [match pbw_FieldDescriptor_enum_type ?a with _ => _ end] =>
               destruct (pbw_FieldDescriptor_enum_type a)
           | context [match pbw_EnumDescriptor_FindValueByNumber ?a ?b with _ => _ end] =>
               destruct (pbw_EnumDescriptor_FindValueByNumber a b)
           end;
    cbn in Hvalue; inversion Hvalue; subst evs_v; cbn; auto.
Qed.

Lemma declared_type_is_trusted_witness :
  let evs := snd (Fixtures.dissect_field Fixtures.prefs_default Fixtures.pool_M
                    Fixtures.tvb_fixed32 0 5 (Some Fixtures.M)) in
  experts evs = [] /\ datatypes evs = [PROTOBUF_TYPE_INT32] /\
  (List.length (value_leaves evs) <= 1)%nat /\
  message_ranges evs = [] /\ repeated_ranges evs = [].
Proof.
  apply (declared_type_is_trusted Fixtures.prefs_default Fixtures.pool_M
           Fixtures.tvb_fixed32
           (Fixtures.nested Fixtures.prefs_default Fixtures.pool_M Fixtures.tvb_fixed32)
           0 5 (Some Fixtures.M) 5 _ 1 13
           (Fixtures.field "a" PROTOBUF_TYPE_INT32 false false None)).
  - vm_compute; reflexivity.
  - vm_compute; reflexivity.
  - vm_compute; reflexivity.
  - reflexivity.
  - reflexivity.
  - discriminate.
  - discriminate.
  - discriminate.
Defined.

(** ** Nested messages *)

(** X11.  A field declared as a message or a group, not both repeated and
    packed, whose descriptor gives the message type, is decoded as a message
    of that type over exactly the value bytes of the field, whatever the wire
    type; when the descriptor gives no message type, message_type_not_found
    is attached and nothing is decoded. *)
Theorem nested_message_decoded_over_value prefs pbw_pool tvb fuel
    offset maxlen message_desc offset' evs tag_length tag_value fd :
  tvb_length tvb < 2 ^ 32 ->
  (enough_fuel tvb <= fuel)%nat ->
  dissect_one_protobuf_field prefs pbw_pool tvb
    (fun o l d => dissect_protobuf_message prefs pbw_pool tvb fuel o l (Some d))
    offset maxlen message_desc = (Returns true, offset', evs) ->
  tvb_get_varint tvb offset maxlen = (tag_length, tag_value) ->
  find_field_desc pbw_pool message_desc (Z.shiftr tag_value 3) = Some fd ->
  pbw_FieldDescriptor_is_packed fd && pbw_FieldDescriptor_is_repeated fd = false ->
  pbw_FieldDescriptor_type fd = PROTOBUF_TYPE_MESSAGE \/
  pbw_FieldDescriptor_type fd = PROTOBUF_TYPE_GROUP ->
  exists value_length value_length_size value_uint64 head,
    read_wire_value tvb (Z.land tag_value 7) (offset + tag_length)
      (guint (maxlen - tag_length))
      = WireValue value_length value_length_size value_uint64 /\
    message_ranges head = [] /\ experts head = [] /\
    match pbw_FieldDescriptor_message_type fd with
    | Some sub_message_desc =>
        exists rest,
          evs = head
                ++ message_header pbw_pool (offset + tag_length + value_length_size)
                     value_length (Some sub_message_desc)
                ++ rest
                ++ [proto_item_append_text (LblDatatype (pbw_FieldDescriptor_type fd))]
    | None =>
        evs = head
              ++ [expert_add_info ti_field et_protobuf_message_type_not_found;
                  proto_item_append_text (LblDatatype (pbw_FieldDescriptor_type fd))]
    end.
Proof.
  intros Hfit Hfuel H Htag Hdesc Hpacked Ht.
  apply dissect_one_true_inv in H; [|exact Hfit].
  destruct H as (tl & tv & vl & vls & v & head & evs_v
                 & Htag' & Hnz & Hwire & Hvl & Hend & Hvalue & _ & -> & _ & He & _ & _ & Hmr & _).
  rewrite Htag in Htag'. inversion Htag'; subst tl tv; clear Htag'.
  rewrite Hdesc in Hvalue. unfold dissect_field_value_by_desc in Hvalue.
  rewrite Hpacked in Hvalue.
  exists vl, vls, v, head. split; [exact Hwire|]. split; [exact Hmr|]. split; [exact He|].
  pose proof (tvb_get_varint_found _ _ _ _ _ Htag Hnz) as (Ht1 & Ht2 & Ht3 & Ht4).
  assert (Hlen : tvb_length tvb = Z.of_nat (List.length tvb)) by reflexivity.
  assert (Hsz : 0 <= vls).
  { apply read_wire_value_inv in Hwire.
    destruct Hwire as [(_ & -> & _) | [(_ & -> & _) | [(_ & -> & _) | (_ & _ & Hv & Hnz')]]];
      try lia.
    apply tvb_get_varint_found in Hv; [lia | exact Hnz']. }
  assert (Hrender :
    protobuf_dissect_field_value prefs tvb
      (fun o l d => dissect_protobuf_message prefs pbw_pool tvb fuel o l (Some d))
      (offset + tag_length + vls) vl (pbw_FieldDescriptor_type fd) v "" (Some fd)
    = match pbw_FieldDescriptor_message_type fd with
      | Some sub =>
          match dissect_protobuf_message prefs pbw_pool tvb fuel (offset + tag_length + vls)
                  vl (Some sub) with
          | (Returns _, evs) =>
              (Returns tt,
               evs ++ [proto_item_append_text (LblDatatype (pbw_FieldDescriptor_type fd))])
          | (Throws, evs) => (Throws, evs)
          | (Exhausted, evs) => (Exhausted, evs)
          end
      | None =>
          (Returns tt,
           [expert_add_info ti_field et_protobuf_message_type_not_found]
             ++ [proto_item_append_text (LblDatatype (pbw_FieldDescriptor_type fd))])
      end).
  { destruct Ht as [-> | ->]; reflexivity. }
  rewrite Hrender in Hvalue. clear Hrender.
  destruct (pbw_FieldDescriptor_message_type fd) as [sub|].
  - destruct (dissect_protobuf_message_run prefs pbw_pool tvb Hfit fuel
                (offset + tag_length + vls) vl (Some sub))
      as (r & rest & Hrun & _); unfold enough_fuel in *; try lia.
    rewrite Hrun in Hvalue. destruct r as [[] | | ]; try discriminate.
    apply (f_equal snd) in Hvalue. cbn [snd] in Hvalue. subst evs_v. exists rest.
    rewrite <- ?app_assoc. reflexivity.
  - apply (f_equal snd) in Hvalue. cbn [snd] in Hvalue. subst evs_v. reflexivity.
Qed.

Lemma nested_message_decoded_over_value_witness :
  exists value_length value_length_size value_uint64 head rest,
    read_wire_value Fixtures.tvb_inner (Z.land 26 7) (0 + 1) (guint (5 - 1))
      = WireValue value_length value_length_size value_uint64 /\
    snd (Fixtures.dissect_field Fixtures.prefs_default Fixtures.pool_M
           Fixtures.tvb_inner 0 5 (Some Fixtures.M))
    = head
      ++ message_header Fixtures.pool_M (0 + 1 + value_length_size) value_length
           (Some Fixtures.M)
      ++ rest ++ [proto_item_append_text (LblDatatype PROTOBUF_TYPE_MESSAGE)].
Proof.
  destruct (nested_message_decoded_over_value Fixtures.prefs_default Fixtures.pool_M
              Fixtures.tvb_inner (enough_fuel Fixtures.tvb_inner) 0 5 (Some Fixtures.M) 5
              (snd (Fixtures.dissect_field Fixtures.prefs_default Fixtures.pool_M
                      Fixtures.tvb_inner 0 5 (Some Fixtures.M)))
              1 26 (Fixtures.field "m" PROTOBUF_TYPE_MESSAGE false false (Some 0%nat)))
    as (vl & vls & v & head & Hw & _ & _ & rest & He).
  - vm_compute; reflexivity.
  - apply Nat.le_refl.
  - vm_compute; reflexivity.
  - vm_compute; reflexivity.
  - reflexivity.
  - reflexivity.
  - left; reflexivity.
  - exists vl, vls, v, head, rest. split; [exact Hw | exact He].
Defined.

(** ** Packed repeated fields: the diagnostics of the expander *)

(** X12.  Over a payload inside the buffer the packed-repeated expander
    attaches at most one diagnostic, which the declared type and the length
    of the payload decide: none for a varint type, whether the payload parses
    as varints or not; failed_parse_packed_repeated_field for a fixed-width
    type whose stride does not divide the length of the payload, and none
    when it does; wire_type_not_support_packed_repeated for any other
    declared type (string, bytes, message, group, none).  With a diagnostic
    it returns 0 and adds nothing but the "Repeated" subtree. *)
Theorem packed_expander_diagnostics prefs tvb dissect_message start length wire_type
    t prepend_text field_desc :
  tvb_length tvb < 2 ^ 32 ->
  0 <= start -> 0 <= length -> start + length <= tvb_length tvb ->
  let '(r, evs) :=
    dissect_packed_repeated_field_values prefs tvb dissect_message start length
      wire_type t prepend_text field_desc in
  let diagnostics :=
    if existsb (field_type_eqb t) varint_packable then []
    else match fixed_stride t with
         | Some stride =>
             if length mod stride =? 0 then []
             else [et_protobuf_failed_parse_packed_repeated_field]
         | None => [et_protobuf_wire_type_not_support_packed_repeated]
         end in
  experts evs = diagnostics /\
  (diagnostics <> [] ->
   r = Returns 0 /\
   evs = packed_subtree start length prepend_text
           ++ map (expert_add_info ti_field) diagnostics).
Proof.
  intros Hfit Hs Hl Hend.
  assert (Hsub : experts (packed_subtree start length prepend_text) = []) by reflexivity.
  assert (Hv : In t varint_packable ->
               let '(r, evs) :=
                 dissect_packed_varint prefs tvb dissect_message
                   (packed_subtree start length prepend_text) start length
                   (guint (start + length)) t field_desc in
               experts evs = []).
  { intros Ht.
    destruct (dissect_packed_varint_spec prefs tvb dissect_message Hfit
                (packed_subtree start length prepend_text) start length t field_desc
                Ht Hs Hl Hend)
      as (r & evs & -> & [(_ & _ & ->) | (body & _ & -> & He & _)]); [exact Hsub|].
    rewrite !experts_app, Hsub, He. reflexivity. }
  assert (Hf : forall stride, fixed_stride t = Some stride ->
               let '(r, evs) :=
                 dissect_packed_fixed prefs tvb dissect_message
                   (packed_subtree start length prepend_text) start length
                   (guint (start + length)) stride wire_type t field_desc in
               experts evs
               = (if length mod stride =? 0 then []
                  else [et_protobuf_failed_parse_packed_repeated_field]) /\
               ((if length mod stride =? 0 then []
                 else [et_protobuf_failed_parse_packed_repeated_field]) <> [] ->
                r = Returns 0 /\
                evs = packed_subtree start length prepend_text
                        ++ map (expert_add_info ti_field)
                             (if length mod stride =? 0 then []
                              else [et_protobuf_failed_parse_packed_repeated_field]))).
  { intros stride Ht.
    destruct (dissect_packed_fixed_spec prefs tvb dissect_message Hfit
                (packed_subtree start length prepend_text) start length wire_type t stride
                field_desc Ht Hs Hl Hend) as (r & evs & -> & Hbad & Hgood).
    destruct (Z.eqb_spec (length mod stride) 0) as [Hm | Hm].
    - split; [|intros H; contradiction].
      destruct (Hgood Hm) as (body & He & _ & [(_ & ->) | (_ & -> & _)] & _);
        rewrite !experts_app, Hsub, He; reflexivity.
    - destruct (Hbad Hm) as (-> & ->). split; [reflexivity|]. intros _. split; reflexivity. }
  unfold dissect_packed_repeated_field_values.
  destruct (tvb_bytes_in_range tvb start length Hs Hl Hend) as [bs ->].
  destruct t; cbn [existsb field_type_eqb varint_packable orb fixed_stride];
    try (specialize (Hv ltac:(cbn; tauto));
         match type of Hv with
         | let '(_, _) := ?x in _ => destruct x as [r evs]
         end;
         split; [exact Hv | intros H; contradiction]);
    try (apply (Hf 8); reflexivity);
    try (apply (Hf 4); reflexivity);
    split; try reflexivity; intros _; split; reflexivity.
Qed.

Lemma packed_expander_diagnostics_witness :
  Fixtures.dissect_packed Fixtures.prefs_default Fixtures.pool_M Fixtures.tvb_cut_varint
    2 2 PROTOBUF_WIRETYPE_LENGTH_DELIMITED PROTOBUF_TYPE_STRING None
  = (Returns 0,
     packed_subtree 2 2 ""
       ++ [expert_add_info ti_field et_protobuf_wire_type_not_support_packed_repeated]).
Proof.
  pose proof (packed_expander_diagnostics Fixtures.prefs_default Fixtures.tvb_cut_varint
                (Fixtures.nested Fixtures.prefs_default Fixtures.pool_M
                   Fixtures.tvb_cut_varint)
                2 2 PROTOBUF_WIRETYPE_LENGTH_DELIMITED PROTOBUF_TYPE_STRING ""%string None
                ltac:(vm_compute; reflexivity) ltac:(lia) ltac:(lia)
                ltac:(vm_compute; discriminate)) as H.
  unfold Fixtures.dissect_packed.
  destruct (dissect_packed_repeated_field_values Fixtures.prefs_default
              Fixtures.tvb_cut_varint
              (Fixtures.nested Fixtures.prefs_default Fixtures.pool_M
                 Fixtures.tvb_cut_varint)
              2 2 PROTOBUF_WIRETYPE_LENGTH_DELIMITED PROTOBUF_TYPE_STRING "" None)
    as [r evs].
  destruct H as [_ H]. destruct H as [-> ->]; [discriminate|]. reflexivity.
Defined.

(** ** The entry point *)

Lemma strchr_app s c rest :
  strchr s c = None -> strchr (s ++ String c rest) c = Some (String c rest).
Proof.
  induction s as [|a s IH]; cbn.
  - intros _. rewrite Ascii.eqb_refl. reflexivity.
  - destruct (Ascii.eqb a c); [discriminate | exact IH].
Qed.

Lemma prefix_append p s : prefix p (p ++ s) = true.
Proof.
  induction p as [|a p IH]; cbn [append prefix].
  - destruct s; reflexivity.
  - destruct (ascii_dec a a); [exact IH | contradiction].
Qed.

(** A string without a comma that is followed by a comma starts with
    [p ++ ","] only if it is [p]. *)
Lemma prefix_before_comma p :
  forall s rest,
    strchr p "," = None -> strchr s "," = None ->
    prefix (p ++ ",") (s ++ String "," rest) = true -> s = p.
Proof.
  induction p as [|x p IH]; intros s rest Hp Hs Hpre.
  - destruct s as [|a s]; [reflexivity|].
    cbn [strchr] in Hs. cbn [prefix append] in Hpre.
    destruct (ascii_dec "," a) as [<-|]; [|discriminate].
    rewrite Ascii.eqb_refl in Hs. discriminate.
  - cbn [strchr] in Hp. destruct (Ascii.eqb_spec x ",") as [|Hx]; [discriminate|].
    destruct s as [|a s]; cbn [strchr] in Hs; cbn [prefix append] in Hpre.
    + destruct (ascii_dec x ","); [contradiction | discriminate].
    + destruct (ascii_dec x a) as [<-|]; [|discriminate].
      destruct (Ascii.eqb x ","); [discriminate|].
      f_equal. eapply IH; eassumption.
Qed.

Section EntryFacts.

Variable prefs : preferences.
Variable pbw_pool : PbwDescriptorPool.
Variable pbw_names : PbwDescriptorNames.
Variable protobuf_udp_message_types : list protobuf_udp_message_type_t.
Variable wmem_strsplit : string -> string -> Z -> list string.

(** X13.  A hint "message," followed by a name, given as the data argument
    or else found in the slot "pb_msg_type" of the private table, selects the
    message type of that name in the pool, the name being all that follows
    the first comma of the hint (further commas included); the name is
    appended to the item of the protocol, and the full name of the type, when
    it is found, to the info column.  Neither the type of the ports, nor the
    ports, nor the table of UDP message types matter. *)
Theorem message_hint_selects_type pinfo data name :
  hint_of pinfo data = Some ("message," ++ name)%string ->
  let by_name := pbw_DescriptorPool_FindMessageTypeByName pbw_names name in
  packet_message_type pbw_pool pbw_names protobuf_udp_message_types wmem_strsplit
    pinfo data
  = (by_name,
     proto_item_append_hint name
       :: match by_name with
          | Some desc => [col_append_str (" " ++ pbw_Descriptor_full_name pbw_pool desc)]
          | None => []
          end).
Proof.
  intros Hhint. cbv zeta. unfold packet_message_type. rewrite Hhint.
  unfold hint_message_type.
  change (strchr ("message," ++ name) ",") with (Some (String "," name)).
  rewrite (prefix_append "message," name). reflexivity.
Qed.

(** X14.  A hint that has a comma and does not start with "message," is read
    as that of the GRPC dissector, whatever stands before its first comma:
    when the splitter gives the method and the direction that follow, the
    method is looked up with every '/' replaced by '.', one leading '/'
    dropped, and the message type is the input type of the method when the
    direction is "request", and its output type for any other direction. *)
Theorem grpc_hint_selects_method_type content_type path method_name direction more :
  strchr content_type "," = None ->
  content_type <> "message"%string ->
  wmem_strsplit (match path with
                 | String "/" rest => rest
                 | _ => path
                 end) "," 2 = method_name :: direction :: more ->
  fst (hint_message_type pbw_pool pbw_names wmem_strsplit
         (content_type ++ String "," path))
  = match pbw_DescriptorPool_FindMethodByName pbw_names (replace_slashes method_name) with
    | Some method_desc =>
        if String.eqb direction "request"
        then pbw_MethodDescriptor_input_type method_desc
        else pbw_MethodDescriptor_output_type method_desc
    | None => None
    end.
Proof.
  intros Hct Hmsg Hsplit. unfold hint_message_type.
  rewrite (strchr_app content_type "," path Hct). cbn [next_char fst].
  destruct (prefix "message," (content_type ++ String "," path)) eqn:Hpre.
  - exfalso. apply Hmsg.
    apply (prefix_before_comma "message" content_type path); auto.
  - unfold grpc_message_type. rewrite Hsplit. reflexivity.
Qed.

(** X15.  Among the entries of the table of UDP message types, the first
    one that holds the source or the destination port of the packet and
    names a message type decides: the result is the message type of that name
    in the pool, and when the pool has none under that name the result is
    none, the later entries not being tried.  Entries that hold a port of the
    packet but name no type are passed over.  With no such entry the result
    is none. *)
Theorem udp_first_eligible_entry_decides before entry after pinfo name :
  forallb (fun e => negb (udp_entry_eligible pinfo e)) before = true ->
  udp_entry_matches pinfo entry = true ->
  message_type entry = Some name ->
  name <> ""%string ->
  find_message_type_by_udp_port pbw_names (before ++ entry :: after) pinfo
  = pbw_DescriptorPool_FindMessageTypeByName pbw_names name /\
  find_message_type_by_udp_port pbw_names before pinfo = None.
Proof.
  intros Hbefore Hmatch Hname Hne. unfold find_message_type_by_udp_port.
  induction before as [|e before IH]; cbn [app find_message_type_in forallb] in *.
  - rewrite Hmatch, Hname.
    destruct name as [|a name]; [contradiction|]. split; reflexivity.
  - apply andb_prop in Hbefore. destruct Hbefore as [He Hbefore].
    specialize (IH Hbefore). unfold udp_entry_eligible in He.
    destruct (udp_entry_matches pinfo e); [|exact IH].
    destruct (message_type e) as [n|]; [|exact IH].
    destruct n as [|a n]; [exact IH|]. discriminate.
Qed.

(** X16.  The entry point runs the message decoder once, over the whole
    buffer from its first byte, with the message type selected: the calls
    made under the item of the protocol are those of that decoding, which
    ends, and the entry point then returns the length of the buffer, unless a
    read outside the buffer unwinds it. *)
Theorem dissect_protobuf_decodes_whole_buffer tvb pinfo data :
  tvb_length tvb < 2 ^ 32 ->
  let selected :=
    packet_message_type pbw_pool pbw_names protobuf_udp_message_types wmem_strsplit
      pinfo data in
  exists r rest,
    dissect_protobuf prefs pbw_pool pbw_names protobuf_udp_message_types wmem_strsplit
      tvb pinfo data
    = (r,
       [col_append_str " (PROTOBUF)"; proto_tree_add_protobuf 0 (-1)] ++ snd selected
         ++ map in_protobuf_tree
              (message_header pbw_pool 0 (tvb_length tvb) (fst selected) ++ rest)) /\
    (r = Returns (tvb_length tvb) \/ r = Throws) /\
    messages_in tvb 1 rest.
Proof.
  intros Hfit selected. unfold dissect_protobuf. fold selected.
  destruct selected as [message_desc hint_events]. cbn [fst snd].
  unfold tvb_reported_length_remaining, tvb_captured_length. rewrite Z.sub_0_r.
  assert (Hlen : tvb_length tvb = Z.of_nat (List.length tvb)) by reflexivity.
  destruct (dissect_protobuf_message_run prefs pbw_pool tvb Hfit (enough_fuel tvb)
              0 (tvb_length tvb) message_desc) as (r & rest & -> & Hne & Hm & _).
  { unfold enough_fuel. lia. }
  { unfold enough_fuel. lia. }
  destruct r as [[] | | ]; [| |contradiction];
    eexists; exists rest; rewrite <- app_assoc;
    (split; [reflexivity|]); (split; [auto | exact Hm]).
Qed.

End EntryFacts.

Lemma message_hint_selects_type_witness :
  packet_message_type Fixtures.pool_M Samples.helloworld Samples.udp_types
    Samples.split_once Samples.udp_packet (Some "message,helloworld.HelloRequest"%string)
  = (Some Samples.HelloRequest,
     [proto_item_append_hint "helloworld.HelloRequest"; col_append_str " M"]).
Proof.
  apply (message_hint_selects_type Fixtures.pool_M Samples.helloworld Samples.udp_types
           Samples.split_once Samples.udp_packet
           (Some "message,helloworld.HelloRequest"%string) "helloworld.HelloRequest").
  reflexivity.
Defined.

Lemma grpc_hint_selects_method_type_witness :
  fst (hint_message_type Fixtures.pool_M Samples.helloworld Samples.split_once
         "application/grpc,/helloworld.Greeter/SayHello,request")
  = Some Samples.HelloRequest.
Proof.
  apply (grpc_hint_selects_method_type Fixtures.pool_M Samples.helloworld
           Samples.split_once "application/grpc" "/helloworld.Greeter/SayHello,request"
           "helloworld.Greeter/SayHello" "request" []).
  - reflexivity.
  - discriminate.
  - reflexivity.
Defined.

Lemma udp_first_eligible_entry_decides_witness :
  find_message_type_by_udp_port Samples.helloworld Samples.udp_types Samples.udp_packet
  = None /\
  pbw_DescriptorPool_FindMessageTypeByName Samples.helloworld "helloworld.HelloReply"
  = Some Samples.HelloReply.
Proof.
  split; [|reflexivity].
  apply (udp_first_eligible_entry_decides Samples.helloworld
           [ {| udp_port_range := Some [(8000, 8010)]; message_type := Some ""%string |} ]
           {| udp_port_range := Some [(8000, 8000)];
              message_type := Some "helloworld.Missing"%string |}
           [ {| udp_port_range := Some [(8000, 8000); (9000, 9000)];
                message_type := Some "helloworld.HelloReply"%string |} ]
           Samples.udp_packet "helloworld.Missing").
  - reflexivity.
  - reflexivity.
  - reflexivity.
  - discriminate.
Defined.

Lemma dissect_protobuf_decodes_whole_buffer_witness :
  exists r rest,
    dissect_protobuf Fixtures.prefs_default Fixtures.pool_M Samples.helloworld
      Samples.udp_types Samples.split_once Fixtures.tvb_int32 Samples.udp_packet None
    = (r,
       [col_append_str " (PROTOBUF)"; proto_tree_add_protobuf 0 (-1)]
         ++ map in_protobuf_tree (message_header Fixtures.pool_M 0 3 None ++ rest)) /\
    (r = Returns 3 \/ r = Throws).
Proof.
  destruct (dissect_protobuf_decodes_whole_buffer Fixtures.prefs_default Fixtures.pool_M
              Samples.helloworld Samples.udp_types Samples.split_once Fixtures.tvb_int32
              Samples.udp_packet None) as (r & rest & Hrun & Hr & _).
  - vm_compute; reflexivity.
  - exists r, rest. split; [exact Hrun | exact Hr].
Defined.


(** ** The loader of the schema files *)

(** Induction on what is at a path, with the entries of a directory. *)
Lemma fs_node_induction (P : fs_node -> Prop) :
  P fs_file ->
  (forall opens entries, Forall (fun e => P (snd e)) entries -> P (fs_dir opens entries)) ->
  forall node, P node.
Proof.
  intros Hfile Hdir. fix IH 1. intros [|opens entries]; [exact Hfile|].
  apply Hdir. induction entries as [|[name node] rest IHrest]; constructor.
  - apply IH.
  - exact IHrest.
Qed.

Lemma loaded_app a b : loaded (a ++ b) = loaded a ++ loaded b.
Proof. apply flat_map_app. Qed.

Lemma opened_app a b : opened (a ++ b) = opened a ++ opened b.
Proof. apply flat_map_app. Qed.

Lemma closed_app a b : closed (a ++ b) = closed a ++ closed b.
Proof. apply flat_map_app. Qed.

Section LoaderFacts.

Variable pbw_load_proto_file : string -> Z.
Variable g_build_filename : string -> string -> string.

Lemma read_names_run dir_path entries :
  Forall (fun e => forall p,
            loader_run pbw_load_proto_file g_build_filename 0
              (fst (load_all_files_in_dir pbw_load_proto_file g_build_filename (snd e) p))
              (snd (load_all_files_in_dir pbw_load_proto_file g_build_filename (snd e) p)))
         entries ->
  loader_run pbw_load_proto_file g_build_filename 1
    (fst (read_names pbw_load_proto_file g_build_filename
            (load_all_files_in_dir pbw_load_proto_file g_build_filename) dir_path entries))
    (snd (read_names pbw_load_proto_file g_build_filename
            (load_all_files_in_dir pbw_load_proto_file g_build_filename) dir_path entries)).
Proof.
  unfold loader_run.
  induction entries as [|[name node] rest IH]; intros Hall; cbn [read_names].
  - cbn. auto.
  - inversion Hall as [|e l Hnode Hrest]; subst. specialize (IH Hrest).
    destruct (read_names pbw_load_proto_file g_build_filename
                (load_all_files_in_dir pbw_load_proto_file g_build_filename) dir_path rest)
      as [ok2 evs2].
    cbn [fst snd] in IH. destruct IH as [Hsuf2 Hrun2].
    destruct (has_proto_suffix name) eqn:Hname.
    + destruct (Z.eqb_spec (pbw_load_proto_file (g_build_filename dir_path name)) 0)
        as [Hz | Hnz]; cbn [negb fst snd].
      * split.
        { cbn. constructor; [eauto | exact Hsuf2]. }
        destruct ok2.
        { destruct Hrun2 as [Hl Hc]. split; [cbn; constructor; assumption | exact Hc]. }
        { destruct Hrun2 as (before & failed & -> & Hf & Hb & Hc).
          exists (pbw_load_proto_file_call (g_build_filename dir_path name) :: before), failed.
          split; [reflexivity|]. split; [exact Hf|].
          split; [cbn; constructor; assumption | exact Hc]. }
      * split; [cbn; constructor; eauto|].
        exists [], (g_build_filename dir_path name). cbn. auto.
    + cbn [snd] in Hnode. specialize (Hnode (g_build_filename dir_path name)).
      destruct (load_all_files_in_dir pbw_load_proto_file g_build_filename node
                  (g_build_filename dir_path name)) as [ok1 evs1].
      cbn [fst snd] in Hnode. destruct Hnode as [Hsuf1 Hrun1].
      destruct ok1.
      * destruct Hrun1 as [Hl1 Hc1].
        destruct ok2; cbn [fst snd].
        { split; [rewrite loaded_app; apply Forall_app; auto|].
          destruct Hrun2 as [Hl2 Hc2].
          split; [rewrite loaded_app; apply Forall_app; auto|].
          rewrite closed_app, opened_app, !length_app. lia. }
        { split; [rewrite loaded_app; apply Forall_app; auto|].
          destruct Hrun2 as (before & failed & -> & Hf & Hb & Hc).
          exists (evs1 ++ before), failed.
          split; [apply app_assoc|]. split; [exact Hf|].
          split; [rewrite loaded_app; apply Forall_app; auto|].
          rewrite !closed_app, !opened_app, !length_app in *. lia. }
      * cbn [fst snd]. split; [exact Hsuf1|].
        destruct Hrun1 as (before & failed & -> & Hf & Hb & Hc).
        exists before, failed. split; [reflexivity|]. split; [exact Hf|].
        split; [exact Hb | lia].
Qed.

Lemma load_all_files_in_dir_run node :
  forall dir_path,
    loader_run pbw_load_proto_file g_build_filename 0
      (fst (load_all_files_in_dir pbw_load_proto_file g_build_filename node dir_path))
      (snd (load_all_files_in_dir pbw_load_proto_file g_build_filename node dir_path)).
Proof.
  induction node as [|opens entries IH] using fs_node_induction; intros dir_path.
  - cbn. split; [constructor|]. split; [constructor | reflexivity].
  - cbn [load_all_files_in_dir].
    destruct opens; [|cbn; split; [constructor|]; split; [constructor | reflexivity]].
    pose proof (read_names_run dir_path entries IH) as Hrun.
    destruct (read_names pbw_load_proto_file g_build_filename
                (load_all_files_in_dir pbw_load_proto_file g_build_filename) dir_path entries)
      as [ok evs].
    unfold loader_run in *. cbn [fst snd] in *.
    destruct Hrun as [Hsuf Hrun]. split; [exact Hsuf|].
    destruct ok.
    + destruct Hrun as [Hl Hc]. split; [exact Hl|].
      unfold closed, opened in *. cbn [flat_map app List.length] in *. lia.
    + destruct Hrun as (before & failed & -> & Hf & Hb & Hc).
      exists (ws_dir_open dir_path :: before), failed.
      split; [reflexivity|]. split; [exact Hf|]. split; [exact Hb|].
      unfold closed, opened in *. cbn [flat_map app List.length] in *. lia.
Qed.

(** X17.  The loader gives to the loader of one file only entries whose name
    has "proto", in any case of the letters, after its last dot.  When it
    returns true, the loader of one file returned 0 for every file it was
    given; when it returns false, the last call the loader made is the one
    for the first file for which the loader of one file returned another
    result: nothing is opened, read or loaded after it. *)
Theorem loader_stops_at_first_failure node dir_path :
  let '(ok, evs) :=
    load_all_files_in_dir pbw_load_proto_file g_build_filename node dir_path in
  Forall (fun p => exists dir_path name,
                     p = g_build_filename dir_path name /\ has_proto_suffix name = true)
         (loaded evs) /\
  if ok then Forall (fun p => pbw_load_proto_file p = 0) (loaded evs)
  else
    exists before failed,
      evs = before ++ [pbw_load_proto_file_call failed] /\
      pbw_load_proto_file failed <> 0 /\
      Forall (fun p => pbw_load_proto_file p = 0) (loaded before).
Proof.
  pose proof (load_all_files_in_dir_run node dir_path) as Hrun.
  destruct (load_all_files_in_dir pbw_load_proto_file g_build_filename node dir_path)
    as [ok evs].
  destruct Hrun as [Hsuf Hrun]. cbn [fst snd] in *. split; [exact Hsuf|].
  destruct ok.
  - apply Hrun.
  - destruct Hrun as (before & failed & He & Hf & Hb & _). eauto.
Qed.


End LoaderFacts.

Section LoaderOrder.

Variable pbw_load_proto_file : string -> Z.
Variable g_build_filename : string -> string -> string.

Lemma read_names_loaded dir_path entries :
  Forall (fun e => forall p,
            exists rest,
              proto_files g_build_filename (snd e) p
              = loaded (snd (load_all_files_in_dir pbw_load_proto_file g_build_filename
                               (snd e) p)) ++ rest /\
              (fst (load_all_files_in_dir pbw_load_proto_file g_build_filename (snd e) p)
               = true -> rest = []))
         entries ->
  exists rest,
    flat_map (fun entry =>
                let path := g_build_filename dir_path (fst entry) in
                if has_proto_suffix (fst entry) then [path]
                else proto_files g_build_filename (snd entry) path) entries
    = loaded (snd (read_names pbw_load_proto_file g_build_filename
                     (load_all_files_in_dir pbw_load_proto_file g_build_filename)
                     dir_path entries)) ++ rest /\
    (fst (read_names pbw_load_proto_file g_build_filename
            (load_all_files_in_dir pbw_load_proto_file g_build_filename)
            dir_path entries) = true -> rest = []).
Proof.
  induction entries as [|[name node] rest IH]; intros Hall; cbn [read_names flat_map].
  - exists []. split; reflexivity.
  - inversion Hall as [|e l Hnode Hrest]; subst. specialize (IH Hrest).
    destruct IH as (more & Hmore & Hdone).
    destruct (read_names pbw_load_proto_file g_build_filename
                (load_all_files_in_dir pbw_load_proto_file g_build_filename) dir_path rest)
      as [ok2 evs2].
    cbn [fst snd] in *. rewrite Hmore.
    destruct (has_proto_suffix name).
    + destruct (negb (pbw_load_proto_file (g_build_filename dir_path name) =? 0));
        cbn [fst snd].
      * exists (loaded evs2 ++ more). split; [reflexivity | discriminate].
      * exists more. split; [reflexivity | exact Hdone].
    + specialize (Hnode (g_build_filename dir_path name)).
      destruct Hnode as (tail & Htail & Hnone). rewrite Htail.
      destruct (load_all_files_in_dir pbw_load_proto_file g_build_filename node
                  (g_build_filename dir_path name)) as [ok1 evs1].
      cbn [fst snd] in *.
      destruct ok1; cbn [fst snd].
      * rewrite (Hnone eq_refl), app_nil_r, loaded_app.
        exists more. split; [apply app_assoc | exact Hdone].
      * exists (tail ++ loaded evs2 ++ more).
        split; [symmetry; apply app_assoc | discriminate].
Qed.

(** X19.  The loader gives files to the loader of one file in the order it
    reads the tree, each directory before the entries that follow it, and
    passes none over: when it returns true the files given are all the
    entries of the tree named with the suffix, under the directories that
    open; when it returns false they are the first ones of them, up to the
    file it stopped at.  An entry named with the suffix is given as it is,
    also when it is a directory, and is not gone into. *)
Theorem loader_loads_in_reading_order node dir_path :
  let '(ok, evs) :=
    load_all_files_in_dir pbw_load_proto_file g_build_filename node dir_path in
  exists rest,
    proto_files g_build_filename node dir_path = loaded evs ++ rest /\
    (ok = true -> rest = []).
Proof.
  enough (H : forall node dir_path,
            exists rest,
              proto_files g_build_filename node dir_path
              = loaded (snd (load_all_files_in_dir pbw_load_proto_file g_build_filename
                               node dir_path)) ++ rest /\
              (fst (load_all_files_in_dir pbw_load_proto_file g_build_filename
                      node dir_path) = true -> rest = [])).
  { specialize (H node dir_path).
    destruct (load_all_files_in_dir pbw_load_proto_file g_build_filename node dir_path)
      as [ok evs]. exact H. }
  clear node dir_path.
  induction node as [|opens entries IH] using fs_node_induction; intros dir_path.
  - exists []. split; reflexivity.
  - cbn [load_all_files_in_dir proto_files].
    destruct opens; [|exists []; split; reflexivity].
    destruct (read_names_loaded dir_path entries IH) as (rest & Hrest & Hdone).
    destruct (read_names pbw_load_proto_file g_build_filename
                (load_all_files_in_dir pbw_load_proto_file g_build_filename) dir_path entries)
      as [ok evs].
    cbn [fst snd] in *. exists rest. split; [exact Hrest | exact Hdone].
Qed.

End LoaderOrder.

(** ** Applying the preferences *)

Lemma deleted_ranges_app a b : deleted_ranges (a ++ b) = deleted_ranges a ++ deleted_ranges b.
Proof. apply flat_map_app. Qed.

Lemma added_ranges_app a b : added_ranges (a ++ b) = added_ranges a ++ added_ranges b.
Proof. apply flat_map_app. Qed.

Lemma missing_types_app a b : missing_types (a ++ b) = missing_types a ++ missing_types b.
Proof. apply flat_map_app. Qed.

Section ReinitFacts.

Variable pbw_names : PbwDescriptorNames.
Variable pbw_load_proto_file : string -> Z.
Variable g_build_filename : string -> string -> string.
Variable file_at : string -> fs_node.

(** The loading of the search paths touches no range and reports no
    message type; it reports that it stopped exactly when it did not
    complete. *)
Lemma load_search_paths_plain search_paths :
  let '(completed, evs) :=
    load_search_paths pbw_load_proto_file g_build_filename file_at search_paths in
  deleted_ranges evs = [] /\ added_ranges evs = [] /\ missing_types evs = [] /\
  (completed = false <-> In report_loading_stopped evs).
Proof.
  assert (Hload : forall evs : list loader_event,
            deleted_ranges (map loading evs) = [] /\ added_ranges (map loading evs) = [] /\
            missing_types (map loading evs) = [] /\
            ~ In report_loading_stopped (map loading evs)).
  { induction evs as [|e evs (H1 & H2 & H3 & H4)]; cbn; [tauto|].
    repeat split; auto. intros [H | H]; [discriminate | contradiction]. }
  induction search_paths as [|sp rest IH]; cbn [load_search_paths].
  - cbn. repeat split; auto; try discriminate. intros [].
  - destruct (load_all sp); [|exact IH].
    destruct (load_all_files_in_dir pbw_load_proto_file g_build_filename
                (file_at (path sp)) (path sp)) as [ok evs1].
    destruct (Hload evs1) as (H1 & H2 & H3 & H4).
    destruct ok.
    + destruct (load_search_paths pbw_load_proto_file g_build_filename file_at rest)
        as [completed evs2].
      destruct IH as (I1 & I2 & I3 & I4).
      rewrite deleted_ranges_app, added_ranges_app, missing_types_app.
      rewrite H1, H2, H3, I1, I2, I3. repeat split; auto.
      * intros Hc. apply in_or_app. right. apply I4. exact Hc.
      * intros Hin. apply in_app_or in Hin. destruct Hin as [Hin | Hin];
          [contradiction | apply I4; exact Hin].
    + rewrite deleted_ranges_app, added_ranges_app, missing_types_app.
      rewrite H1, H2, H3. cbn. repeat split; auto.
      intros _. apply in_or_app. right. left. reflexivity.
Qed.

Lemma add_udp_port_ranges_spec completed types :
  let '(ranges, evs) := add_udp_port_ranges pbw_names completed types in
  ranges = udp_port_ranges types /\ added_ranges evs = ranges /\
  deleted_ranges evs = [] /\
  missing_types evs = (if completed then unknown_message_types pbw_names types else []) /\
  ~ In report_loading_stopped evs.
Proof.
  induction types as [|entry rest IH]; cbn [add_udp_port_ranges].
  - cbn. destruct completed; repeat split; auto.
  - destruct (add_udp_port_ranges pbw_names completed rest) as [ranges evs].
    destruct IH as (I1 & I2 & I3 & I4 & I5).
    set (missing := match message_type entry with
                    | Some name =>
                        if completed && (0 <? String.length name)%nat
                           && match pbw_DescriptorPool_FindMessageTypeByName pbw_names name with
                              | Some _ => false
                              | None => true
                              end
                        then [report_missing_type name] else []
                    | None => []
                    end).
    assert (Hmissing :
      added_ranges missing = [] /\ deleted_ranges missing = [] /\
      ~ In report_loading_stopped missing /\
      missing_types missing
      = if completed
        then match message_type entry with
             | Some name =>
                 match pbw_DescriptorPool_FindMessageTypeByName pbw_names name with
                 | None => if String.eqb name "" then [] else [name]
                 | Some _ => []
                 end
             | None => []
             end
        else []).
    { unfold missing. destruct (message_type entry) as [name|];
        [|destruct completed; cbn; tauto].
      destruct completed; cbn [andb]; [|cbn; tauto].
      destruct name as [|a name]; cbn [String.length Nat.ltb Nat.leb andb];
        destruct (pbw_DescriptorPool_FindMessageTypeByName pbw_names _);
        cbn; repeat split; auto; intros [H | H]; try discriminate; contradiction. }
    destruct Hmissing as (M1 & M2 & M3 & M4).
    unfold udp_port_ranges, unknown_message_types in *. cbn [flat_map].
    destruct (udp_port_range entry) as [range|]; cbn [app];
      [change (dissector_add_uint_range range :: missing ++ evs)
         with ([dissector_add_uint_range range] ++ missing ++ evs)|];
      rewrite ?added_ranges_app, ?deleted_ranges_app, ?missing_types_app, M1, M2, M4, I2, I3, I4;
      cbn [added_ranges deleted_ranges missing_types flat_map app];
      (split; [congruence|]); (split; [reflexivity|]); (split; [reflexivity|]);
      (split; [destruct completed; reflexivity|]);
      cbn [In]; rewrite ?in_app_iff; intuition (try discriminate).
Qed.

(** X20.  A run of [protobuf_reinit] takes the dissector from exactly the
    ranges of UDP ports the run before gave it, and gives it the ranges of
    the entries of the table that have one, which it leaves as the list for
    the next run: the ranges do not pile up from one run to the next. *)
Theorem reinit_replaces_udp_port_ranges search1 types1 search2 types2 old :
  let '(ranges1, evs1) :=
    protobuf_reinit pbw_names pbw_load_proto_file g_build_filename file_at
      search1 types1 old in
  let '(ranges2, evs2) :=
    protobuf_reinit pbw_names pbw_load_proto_file g_build_filename file_at
      search2 types2 ranges1 in
  deleted_ranges evs1 = old /\
  added_ranges evs1 = udp_port_ranges types1 /\
  deleted_ranges evs2 = added_ranges evs1 /\
  added_ranges evs2 = udp_port_ranges types2 /\
  ranges2 = udp_port_ranges types2.
Proof.
  assert (Hone : forall search types old',
            let '(ranges, evs) :=
              protobuf_reinit pbw_names pbw_load_proto_file g_build_filename file_at
                search types old' in
            ranges = udp_port_ranges types /\ deleted_ranges evs = old' /\
            added_ranges evs = udp_port_ranges types).
  { intros search types old'. unfold protobuf_reinit.
    pose proof (load_search_paths_plain search) as Hl.
    destruct (load_search_paths pbw_load_proto_file g_build_filename file_at search)
      as [completed evs_l].
    destruct Hl as (L1 & L2 & _).
    pose proof (add_udp_port_ranges_spec completed types) as Ha.
    destruct (add_udp_port_ranges pbw_names completed types) as [ranges evs_a].
    destruct Ha as (A1 & A2 & A3 & _).
    rewrite !deleted_ranges_app, !added_ranges_app, L1, L2, A2, A3.
    assert (Hd : forall l, deleted_ranges (map dissector_delete_uint_range l) = l
                           /\ added_ranges (map dissector_delete_uint_range l) = [])
      by (unfold deleted_ranges, added_ranges;
          induction l as [|r l [IH1 IH2]]; cbn [map flat_map app];
          [auto | split; [f_equal; exact IH1 | exact IH2]]).
    destruct (Hd old') as [-> ->]. cbn. rewrite app_nil_r. subst ranges. auto. }
  pose proof (Hone search1 types1 old) as H1.
  destruct (protobuf_reinit pbw_names pbw_load_proto_file g_build_filename file_at
              search1 types1 old) as [ranges1 evs1].
  pose proof (Hone search2 types2 ranges1) as H2.
  destruct (protobuf_reinit pbw_names pbw_load_proto_file g_build_filename file_at
              search2 types2 ranges1) as [ranges2 evs2].
  destruct H1 as (-> & -> & ->). destruct H2 as (-> & -> & ->). auto.
Qed.

(** X21.  [protobuf_reinit] reports the message types of the table that
    the pool does not have, once per entry and in the order of the table,
    when the loading of the search paths completed; when the loader
    returned false for a search path, it reports that the loading stopped
    and reports no message type.  The empty name is never reported. *)
Theorem reinit_reports_missing_types search types old :
  let evs :=
    snd (protobuf_reinit pbw_names pbw_load_proto_file g_build_filename file_at
           search types old) in
  let completed :=
    fst (load_search_paths pbw_load_proto_file g_build_filename file_at search) in
  missing_types evs = (if completed then unknown_message_types pbw_names types else []) /\
  (In report_loading_stopped evs <-> completed = false) /\
  ~ In ""%string (missing_types evs).
Proof.
  cbv zeta. unfold protobuf_reinit.
  pose proof (load_search_paths_plain search) as Hl.
  destruct (load_search_paths pbw_load_proto_file g_build_filename file_at search)
    as [completed evs_l].
  destruct Hl as (_ & _ & L3 & L4).
  pose proof (add_udp_port_ranges_spec completed types) as Ha.
  destruct (add_udp_port_ranges pbw_names completed types) as [ranges evs_a].
  destruct Ha as (_ & _ & _ & A4 & A5). cbn [fst snd].
  assert (Hd : forall l, missing_types (map dissector_delete_uint_range l) = []
                         /\ ~ In report_loading_stopped (map dissector_delete_uint_range l)).
  { induction l as [|r l [IH1 IH2]]; cbn; [tauto|].
    split; [exact IH1|]. intros [H | H]; [discriminate | contradiction]. }
  destruct (Hd old) as [D1 D2].
  assert (Hm : missing_types
                 ([pbw_reinit_DescriptorPool (map path search)] ++ evs_l
                    ++ map dissector_delete_uint_range old ++ evs_a)
               = if completed then unknown_message_types pbw_names types else []).
  { rewrite !missing_types_app, L3, D1, A4. reflexivity. }
  split; [exact Hm|]. split.
  - rewrite !in_app_iff. cbn [In]. split.
    + intros [[H | []] | [H | [H | H]]]; try discriminate; try contradiction.
      apply L4. exact H.
    + intros Hc. right. left. apply L4. exact Hc.
  - rewrite Hm. destruct completed; [|intros []].
    unfold unknown_message_types. rewrite in_flat_map.
    intros (entry & _ & Hin).
    destruct (message_type entry) as [name|]; [|contradiction].
    destruct (pbw_DescriptorPool_FindMessageTypeByName pbw_names name); [contradiction|].
    destruct (String.eqb_spec name ""); [contradiction|].
    destruct Hin as [Hin | []]. congruence.
Qed.

End ReinitFacts.
